(** * Contact manager (main.py): shallow embedding and verified properties

    The development follows the layout of [main.py]:
    - Python values the program relies on ([str], exceptions, the [re] and
      [datetime] primitives it calls);
    - the field classes [Phone] and [Birthday];
    - [Record], a mutable object living in a store of records;
    - [AddressBook], an insertion-ordered dictionary from names to records;
    - the command handlers wrapped by the [input_error] decorator;
    - the command loop of [main], from the lines it reads.

    Mutation is explicit state passing; a raised exception is a [Raise]
    result that leaves the state as it was at the point of the raise. *)

From Stdlib Require Import ZArith NArith String Ascii Lia Bool.
From stdpp Require Import base tactics option list.

Open Scope Z_scope.

(** ** Python strings *)

(** A Python [str] is a sequence of Unicode code points. *)
Definition str := list N.

(** ASCII literals of the program text. *)
Definition u (s : string) : str :=
  List.map N_of_ascii (list_ascii_of_string s).

(** [sep.join(parts)] *)
Fixpoint join (sep : str) (parts : list str) : str :=
  match parts with
  | [] => []
  | [p] => p
  | p :: rest => p ++ sep ++ join sep rest
  end.

(** ** Unicode decimal digits

    [\d] in a [str] pattern and [int()] both consult the Unicode category Nd.
    Every Nd block is a run of ten consecutive code points worth 0..9; the
    table lists the code point of the zero of each block, as in the
    character database of Unicode 14 that CPython 3.11 ships.  The proofs
    below use of it only that the ASCII digits are in it. *)
Definition nd_zeros : list N :=
  [ 0x30; 0x660; 0x6f0; 0x7c0; 0x966; 0x9e6; 0xa66; 0xae6; 0xb66; 0xbe6;
    0xc66; 0xce6; 0xd66; 0xde6; 0xe50; 0xed0; 0xf20; 0x1040; 0x1090; 0x17e0;
    0x1810; 0x1946; 0x19d0; 0x1a80; 0x1a90; 0x1b50; 0x1bb0; 0x1c40; 0x1c50;
    0xa620; 0xa8d0; 0xa900; 0xa9d0; 0xa9f0; 0xaa50; 0xabf0; 0xff10; 0x104a0;
    0x10d30; 0x11066; 0x110f0; 0x11136; 0x111d0; 0x112f0; 0x11450; 0x114d0;
    0x11650; 0x116c0; 0x11730; 0x118e0; 0x11950; 0x11c50; 0x11d50; 0x11da0;
    0x16a60; 0x16ac0; 0x16b50; 0x1d7ce; 0x1d7d8; 0x1d7e2; 0x1d7ec; 0x1d7f6;
    0x1e140; 0x1e2f0; 0x1e950; 0x1fbf0 ]%N.

Fixpoint decimal_in (zeros : list N) (c : N) : option Z :=
  match zeros with
  | [] => None
  | z :: rest =>
      if ((z <=? c) && (c <? z + 10))%N then Some (Z.of_N (c - z))
      else decimal_in rest c
  end.

(** The value of a decimal digit character, [None] for any other one. *)
Definition decimal (c : N) : option Z := decimal_in nd_zeros c.

(** The character class [\d]. *)
Definition is_digit (c : N) : bool :=
  match decimal c with Some _ => true | None => false end.

(** The character class [[lo-hi]] for ASCII bounds. *)
Definition in_range (lo hi : N) (c : N) : bool := ((lo <=? c) && (c <=? hi))%N.

(** ['0'] .. ['9'] *)
Definition ascii_digit (c : N) : bool := in_range 48 57 c.

(** [int(s)] on the text of a group of the date pattern, digits possibly
    after one blank: the blank is stripped and the digits are accumulated
    in base ten. *)
Fixpoint int_digits (acc : Z) (s : str) : option Z :=
  match s with
  | [] => Some acc
  | c :: rest =>
      match decimal c with
      | Some v => int_digits (10 * acc + v) rest
      | None => None
      end
  end.

Definition lstrip_blank (s : str) : str :=
  match s with
  | c :: rest => if (c =? 32)%N then rest else s
  | [] => []
  end.

Definition int (s : str) : option Z :=
  match lstrip_blank s with
  | [] => None
  | digits => int_digits 0 digits
  end.

(** ** Exceptions and results *)

Inductive exn :=
  | ValueError (msg : str)
  | IndexError (msg : str)
  | KeyError (msg : str)
  | OverflowError (msg : str)
  | SystemError (msg : str).

(** [str(er)] as interpolated by the decorator. *)
Definition exn_message (e : exn) : str :=
  match e with
  | ValueError m | IndexError m | KeyError m | OverflowError m
  | SystemError m => m
  end.

Inductive result (A : Type) :=
  | Ok (a : A)
  | Raise (e : exn).
Arguments Ok {A} a.
Arguments Raise {A} e.

Definition is_ok {A} (r : result A) : bool :=
  match r with Ok _ => true | Raise _ => false end.

(** ** The [datetime] primitives the program calls *)

Record datetime := mkdatetime {
  year : Z; month : Z; day : Z;
  hour : Z; minute : Z; second : Z; microsecond : Z
}.

Definition MINYEAR : Z := 1.
Definition MAXYEAR : Z := 9999.

Definition is_leap (y : Z) : bool :=
  (y mod 4 =? 0) && (negb (y mod 100 =? 0) || (y mod 400 =? 0)).

Definition days_in_month (y m : Z) : Z :=
  if (m =? 2) && is_leap y then 29
  else List.nth (Z.to_nat m) [0; 31; 28; 31; 30; 31; 30; 31; 31; 30; 31; 30; 31] 0.

Definition valid_date (y m d : Z) : bool :=
  (MINYEAR <=? y) && (y <=? MAXYEAR) && (1 <=? m) && (m <=? 12)
  && (1 <=? d) && (d <=? days_in_month y m).

Definition valid_time (H M S us : Z) : bool :=
  (0 <=? H) && (H <? 24) && (0 <=? M) && (M <? 60)
  && (0 <=? S) && (S <? 60) && (0 <=? us) && (us <? 1000000).

Definition valid_datetime (t : datetime) : bool :=
  valid_date (year t) (month t) (day t)
  && valid_time (hour t) (minute t) (second t) (microsecond t).

(** Decimal rendering of a non-negative integer, most significant digit
    first; [digits_fuel] bounds the number of digits. *)
Fixpoint digits_fuel (fuel : nat) (n : Z) (acc : str) : str :=
  match fuel with
  | O => acc
  | S fuel' =>
      let acc' := Z.to_N (48 + n mod 10) :: acc in
      if n / 10 =? 0 then acc' else digits_fuel fuel' (n / 10) acc'
  end.

Definition str_of_Z (n : Z) : str :=
  if n <? 0 then 45%N :: digits_fuel (S (Z.to_nat (Z.log2 (- n)))) (- n) []
  else digits_fuel (S (Z.to_nat (Z.log2 n))) n [].

(** The date check of the [datetime] constructor, with the messages of the
    C implementation (CPython 3.11 to 3.13). *)
Definition check_date_fields (y m d : Z) : result unit :=
  if negb ((MINYEAR <=? y) && (y <=? MAXYEAR)) then
    Raise (ValueError (u "year " ++ str_of_Z y ++ u " is out of range"))
  else if negb ((1 <=? m) && (m <=? 12)) then
    Raise (ValueError (u "month must be in 1..12"))
  else if negb ((1 <=? d) && (d <=? days_in_month y m)) then
    Raise (ValueError (u "day is out of range for month"))
  else Ok tt.

(** [t.replace(year=y)] rebuilds the object through the constructor, which
    checks the date again. *)
Definition replace_year (t : datetime) (y : Z) : result datetime :=
  match check_date_fields y (month t) (day t) with
  | Raise e => Raise e
  | Ok _ => Ok (mkdatetime y (month t) (day t)
                  (hour t) (minute t) (second t) (microsecond t))
  end.

(** Naive datetimes compare field by field, most significant first. *)
Definition dt_key (t : datetime) : list Z :=
  [year t; month t; day t; hour t; minute t; second t; microsecond t].

Fixpoint lex_lt (a b : list Z) : bool :=
  match a, b with
  | x :: a', y :: b' => (x <? y) || ((x =? y) && lex_lt a' b')
  | [], _ :: _ => true
  | _, _ => false
  end.

(** [a < b] *)
Definition dt_lt (a b : datetime) : bool := lex_lt (dt_key a) (dt_key b).
(** [a <= b] *)
Definition dt_le (a b : datetime) : bool := negb (dt_lt b a).

(** The calendar day after (y, m, d). *)
Definition next_day (ymd : Z * Z * Z) : Z * Z * Z :=
  let '(y, m, d) := ymd in
  if d <? days_in_month y m then (y, m, d + 1)
  else if m <? 12 then (y, m + 1, 1)
  else (y + 1, 1, 1).

Fixpoint add_days (n : nat) (ymd : Z * Z * Z) : Z * Z * Z :=
  match n with
  | O => ymd
  | S n' => add_days n' (next_day ymd)
  end.

(** [t + timedelta(days=n)]: the date moves [n] calendar days forward, the
    time of day is kept, and a date past year 9999 is an [OverflowError]. *)
Definition plus_days (t : datetime) (n : nat) : result datetime :=
  let '(y, m, d) := add_days n (year t, month t, day t) in
  if y <=? MAXYEAR then
    Ok (mkdatetime y m d (hour t) (minute t) (second t) (microsecond t))
  else Raise (OverflowError (u "date value out of range")).

(** ** [datetime.strptime(value, "%d.%m.%Y")]

    The format is turned into the regular expression
    [(?P<d>3[0-1]|[1-2]\d|0[1-9]|[1-9]| [1-9])\.(?P<m>1[0-2]|0[1-9]|[1-9])\.(?P<Y>\d\d\d\d)]
    which is matched at the start of the input; alternatives are tried from
    left to right and a later failure backtracks into the next alternative. *)

(** One alternative: the text it consumes and the text it leaves. *)
Definition token := str -> option (str * str).

Definition chars1 (p : N -> bool) : token := fun s =>
  match s with
  | a :: r => if p a then Some ([a], r) else None
  | _ => None
  end.

Definition chars2 (p q : N -> bool) : token := fun s =>
  match s with
  | a :: b :: r => if p a && q b then Some ([a; b], r) else None
  | _ => None
  end.

Definition chars4 (p : N -> bool) : token := fun s =>
  match s with
  | a :: b :: c :: d :: r =>
      if p a && p b && p c && p d then Some ([a; b; c; d], r) else None
  | _ => None
  end.

Definition re_d : list token :=
  [ chars2 (N.eqb 51) (in_range 48 49);     (* 3[0-1] *)
    chars2 (in_range 49 50) is_digit;        (* [1-2]\d *)
    chars2 (N.eqb 48) (in_range 49 57);      (* 0[1-9] *)
    chars1 (in_range 49 57);                 (* [1-9] *)
    chars2 (N.eqb 32) (in_range 49 57) ].    (* " [1-9]" *)

Definition re_m : list token :=
  [ chars2 (N.eqb 49) (in_range 48 50);     (* 1[0-2] *)
    chars2 (N.eqb 48) (in_range 49 57);      (* 0[1-9] *)
    chars1 (in_range 49 57) ].               (* [1-9] *)

Definition re_Y : list token := [ chars4 is_digit ].   (* \d\d\d\d *)

Definition re_dot : list token := [ chars1 (N.eqb 46) ].   (* \. *)

Fixpoint first_some {A B} (f : A -> option B) (l : list A) : option B :=
  match l with
  | [] => None
  | a :: l' => match f a with Some b => Some b | None => first_some f l' end
  end.

(** Backtracking match of a sequence of groups; the result is the text of
    every group and the unconsumed rest. *)
Fixpoint re_match (groups : list (list token)) (s : str)
  : option (list str * str) :=
  match groups with
  | [] => Some ([], s)
  | alts :: groups' =>
      first_some (fun t : token =>
        match t s with
        | None => None
        | Some (txt, s') =>
            match re_match groups' s' with
            | None => None
            | Some (txts, rest) => Some (txt :: txts, rest)
            end
        end) alts
  end.

(** The messages of the two parse errors are given without the quoted input
    text; [Birthday] replaces them anyway. *)
Definition strptime (data_string : str) : result datetime :=
  match re_match [re_d; re_dot; re_m; re_dot; re_Y] data_string with
  | Some ([d; _; m; _; Y], rest) =>
      match rest with
      | _ :: _ => Raise (ValueError (u "unconverted data remains"))
      | [] =>
          match int Y, int m, int d with
          | Some y', Some m', Some d' =>
              match check_date_fields y' m' d' with
              | Raise e => Raise e
              | Ok _ => Ok (mkdatetime y' m' d' 0 0 0 0)
              end
          | _, _, _ => Raise (ValueError (u "invalid literal for int()"))
          end
      end
  | _ => Raise (ValueError (u "time data does not match format"))
  end.

(** ** [datetime.strftime(value, "%d.%m.%Y")] *)

(** [%d] and [%m]: two digits, zero padded. *)
Definition fmt2 (n : Z) : str :=
  [Z.to_N (48 + (n / 10) mod 10); Z.to_N (48 + n mod 10)].

(** [%Y] is printed by the C library.  From year 1000 on it is the year's
    four digits.  Below 1000 the platform decides: glibc prints the number
    without leading zeros, other C libraries and CPython from 3.13 on pad it
    to four digits; [zero_pad] selects between the two. *)
Definition fmtY (zero_pad : bool) (y : Z) : str :=
  if zero_pad then
    [Z.to_N (48 + (y / 1000) mod 10); Z.to_N (48 + (y / 100) mod 10);
     Z.to_N (48 + (y / 10) mod 10); Z.to_N (48 + y mod 10)]
  else str_of_Z y.

Definition strftime (zero_pad : bool) (t : datetime) : str :=
  fmt2 (day t) ++ u "." ++ fmt2 (month t) ++ u "." ++ fmtY zero_pad (year t).

(** ** State and error monad

    [ST S A] is a computation over a mutable [S] that returns an [A] or
    raises; the state reached at a raise is kept, as in Python. *)
Definition ST (S A : Type) := S -> result A * S.

Definition ret {S A} (a : A) : ST S A := fun s => (Ok a, s).
Definition raise {S A} (e : exn) : ST S A := fun s => (Raise e, s).
Definition bind {S A B} (m : ST S A) (k : A -> ST S B) : ST S B := fun s =>
  match m s with
  | (Ok a, s') => k a s'
  | (Raise e, s') => (Raise e, s')
  end.
Definition get {S} : ST S S := fun s => (Ok s, s).
Definition put {S} (s : S) : ST S unit := fun _ => (Ok tt, s).
(** A pure computation that may raise. *)
Definition lift {S A} (r : result A) : ST S A := fun s => (r, s).

Declare Scope py_scope.
Delimit Scope py_scope with py.
Notation "x <- m ;; k" := (bind m (fun x => k))
  (at level 100, m at next level, right associativity) : py_scope.
Notation "m ;;; k" := (bind m (fun _ => k))
  (at level 100, right associativity) : py_scope.
Open Scope py_scope.

(** ** Fields ([Field], [Name], [Phone], [Birthday]) *)

Record Name := mkName { name_value : str }.
Record Phone := mkPhone { phone_value : str }.
Record Birthday := mkBirthday { birthday_value : datetime }.

(** [Phone.validate]: [bool(re.fullmatch(r"\d{10}", value))] *)
Definition validate (value : str) : bool :=
  (length value =? 10)%nat && forallb is_digit value.

Definition phone_error : exn := ValueError (u "Phone number must be 10 digits.").

(** [Phone(value)] *)
Definition new_Phone (value : str) : result Phone :=
  if negb (validate value) then Raise phone_error
  else Ok (mkPhone value).

Definition birthday_error : exn :=
  ValueError (u "Invalid date format. Use DD.MM.YYYY instead").

(** [Birthday(value)]: any [ValueError] of the parser is replaced by the
    class's own. *)
Definition new_Birthday (value : str) : result Birthday :=
  match strptime value with
  | Ok t => Ok (mkBirthday t)
  | Raise (ValueError _) => Raise birthday_error
  | Raise e => Raise e
  end.

(** ** [Record] *)

Record RecordObj := mkRecord {
  name : Name;
  birthday : option Birthday;
  phones : list Phone
}.

(** [Record(name)] *)
Definition new_Record (nm : str) : RecordObj := mkRecord (mkName nm) None [].

Definition add_phone (phone : str) : ST RecordObj unit :=
  phone_obj <- lift (new_Phone phone) ;;
  self <- get ;;
  put (mkRecord (name self) (birthday self) (phones self ++ [phone_obj])).

Definition add_birthday (bday : str) : ST RecordObj unit :=
  b <- lift (new_Birthday bday) ;;
  self <- get ;;
  put (mkRecord (name self) (Some b) (phones self)).

Definition remove_phone (phone : str) : ST RecordObj unit :=
  self <- get ;;
  put (mkRecord (name self) (birthday self)
         (List.filter (fun p => negb (bool_decide (phone_value p = phone)))
            (phones self))).

Definition edit_phone (old_phone new_phone : str) : ST RecordObj unit :=
  remove_phone old_phone ;;;
  add_phone new_phone.

Fixpoint find_phone_in (phone : str) (ps : list Phone) : str :=
  match ps with
  | [] => u "Phone not found."
  | p :: rest =>
      if bool_decide (phone_value p = phone) then phone_value p
      else find_phone_in phone rest
  end.

Definition find_phone (phone : str) : ST RecordObj str :=
  self <- get ;;
  ret (find_phone_in phone (phones self)).

(** [Record.__str__] *)
Definition Record_str (zero_pad : bool) (self : RecordObj) : str :=
  let birthday_str :=
    match birthday self with
    | Some b => strftime zero_pad (birthday_value b)
    | None => u "No birthday"
    end in
  let phones_str := join (u "; ") (List.map phone_value (phones self)) in
  u "Contact name: " ++ name_value (name self)
    ++ u ", contact birthday: " ++ birthday_str
    ++ u ", phones: " ++ phones_str.

(** ** The object store and [AddressBook]

    Records are mutable objects shared between the book and the handlers
    that looked them up, so they live in a store and are named by their
    location.  [data] is the dictionary of the [UserDict]: a Python [dict]
    keeps its keys in insertion order, and assigning to a key that is present
    keeps the key's place. *)
Definition loc := nat.

Record state := mkstate {
  heap : list RecordObj;
  data : list (str * loc);
  stdout : list str
}.

Definition empty_state : state := mkstate [] [] [].

Definition M (A : Type) := ST state A.

(** [d.get(k, None)] *)
Fixpoint dict_get {V} (k : str) (d : list (str * V)) : option V :=
  match d with
  | [] => None
  | (k', v) :: rest => if bool_decide (k' = k) then Some v else dict_get k rest
  end.

(** [d[k] = v] *)
Fixpoint dict_set {V} (k : str) (v : V) (d : list (str * V)) : list (str * V) :=
  match d with
  | [] => [(k, v)]
  | (k', v') :: rest =>
      if bool_decide (k' = k) then (k', v) :: rest
      else (k', v') :: dict_set k v rest
  end.

(** [del d[k]] for a key that is present *)
Fixpoint dict_del {V} (k : str) (d : list (str * V)) : list (str * V) :=
  match d with
  | [] => []
  | (k', v') :: rest =>
      if bool_decide (k' = k) then rest else (k', v') :: dict_del k rest
  end.

(** [k in d] *)
Definition dict_in {V} (k : str) (d : list (str * V)) : bool :=
  match dict_get k d with Some _ => true | None => false end.

(** Allocation of a fresh object. *)
Definition alloc (r : RecordObj) : M loc := fun st =>
  (Ok (length (heap st)),
   mkstate (heap st ++ [r]) (data st) (stdout st)).

(** A method call on the object at [l].  References are only ever obtained
    from [alloc], so the object is there; the [SystemError] branch keeps the
    function total and is no behaviour of the program. *)
Definition call {A} (l : loc) (m : ST RecordObj A) : M A := fun st =>
  match heap st !! l with
  | Some self =>
      let '(r, self') := m self in
      (r, mkstate (<[l := self']> (heap st)) (data st) (stdout st))
  | None => (Raise (SystemError (u "no such object")), st)
  end.

(** [print(line)] *)
Definition print (line : str) : M unit := fun st =>
  (Ok tt, mkstate (heap st) (data st) (stdout st ++ [line])).

(** [AddressBook.add_record] *)
Definition add_record (record : loc) : M unit := fun st =>
  match heap st !! record with
  | Some r =>
      (Ok tt, mkstate (heap st)
                (dict_set (name_value (name r)) record (data st)) (stdout st))
  | None => (Raise (SystemError (u "no such object")), st)
  end.

(** [AddressBook.find] *)
Definition find (nm : str) : M (option loc) := fun st =>
  (Ok (dict_get nm (data st)), st).

(** The loop body of [get_upcoming_birthdays] for one record: the name to
    append, if any. *)
Definition upcoming_one (today next_week : datetime) (record : RecordObj)
  : result (option str) :=
  match birthday record with
  | None => Ok None
  | Some b =>
      match replace_year (birthday_value b) (year today) with
      | Raise e => Raise e
      | Ok birthday_this_year =>
          let rolled :=
            if dt_lt birthday_this_year today
            then replace_year birthday_this_year (year today + 1)
            else Ok birthday_this_year in
          match rolled with
          | Raise e => Raise e
          | Ok birthday_this_year =>
              if dt_le today birthday_this_year
                 && dt_le birthday_this_year next_week
              then Ok (Some (name_value (name record)))
              else Ok None
          end
      end
  end.

Fixpoint upcoming_loop (today next_week : datetime) (records : list RecordObj)
  (upcoming_birthdays : list str) : result (list str) :=
  match records with
  | [] => Ok upcoming_birthdays
  | record :: rest =>
      match upcoming_one today next_week record with
      | Raise e => Raise e
      | Ok None => upcoming_loop today next_week rest upcoming_birthdays
      | Ok (Some nm) =>
          upcoming_loop today next_week rest (upcoming_birthdays ++ [nm])
      end
  end.

(** [self.data.values()] *)
Definition values (st : state) : list RecordObj :=
  omap (fun kv : str * loc => heap st !! kv.2) (data st).

(** [AddressBook.get_upcoming_birthdays]; [today] is what
    [datetime.today()] returns when the method runs. *)
Definition get_upcoming_birthdays (today : datetime) : M (list str) :=
  next_week <- lift (plus_days today 7) ;;
  st <- get ;;
  lift (upcoming_loop today next_week (values st) []).

(** [AddressBook.delete]: [None] after a removal, the message otherwise. *)
Definition delete (nm : str) : M (option str) := fun st =>
  if dict_in nm (data st) then
    (Ok None, mkstate (heap st) (dict_del nm (data st)) (stdout st))
  else (Ok (Some (u "Contact not found.")), st).

(** ** The [input_error] decorator and the command handlers *)

(** The wrapper drops the handler's return value and turns the three caught
    exception classes into a printed line; any other exception escapes. *)
Definition input_error {A} (func : M A) : M unit := fun st =>
  match func st with
  | (Ok _, st') => (Ok tt, st')
  | (Raise e, st') =>
      match e with
      | KeyError _ | ValueError _ | IndexError _ =>
          print (u "Error: " ++ exn_message e) st'
      | _ => (Raise e, st')
      end
  end.

(** [args[i]] *)
Definition item (args : list str) (i : nat) : M str :=
  match args !! i with
  | Some a => ret a
  | None => raise (IndexError (u "list index out of range"))
  end.

Module Handlers.

Definition add_contact (args : list str) : M unit :=
  input_error (
    nm <- item args 0 ;;
    phone <- item args 1 ;;
    found <- find nm ;;
    rm <- match found with
          | None =>
              record <- alloc (new_Record nm) ;;
              add_record record ;;;
              ret (record, u "Contact added.")
          | Some record => ret (record, u "Contact updated.")
          end ;;
    call rm.1 (add_phone phone) ;;;
    print rm.2).

Definition change_phone (args : list str) : M unit :=
  input_error (
    nm <- item args 0 ;;
    old_phone <- item args 1 ;;
    new_phone <- item args 2 ;;
    found <- find nm ;;
    match found with
    | Some record =>
        call record (edit_phone old_phone new_phone) ;;;
        print (u "Phone has been changed.")
    | None => print (u "Contact not found.")
    end).

Definition show_phone_numbers (args : list str) : M unit :=
  input_error (
    nm <- item args 0 ;;
    found <- find nm ;;
    match found with
    | Some record =>
        self <- call record get ;;
        print (join (u "; ") (List.map phone_value (phones self))) ;;;
        ret (u "Contact not found.")
    | None => ret (u "Contact not found.")
    end).

Definition show_all_contacts (zero_pad : bool) : M unit :=
  input_error (
    st <- get ;;
    let is_empty := (length (data st) <? 1)%nat in
    if is_empty then print (u "Address book is empty.")
    else print (join [10%N] (List.map (Record_str zero_pad) (values st)))).

Definition add_birthday (args : list str) : M unit :=
  input_error (
    nm <- item args 0 ;;
    bday <- item args 1 ;;
    found <- find nm ;;
    match found with
    | Some record =>
        call record (add_birthday bday) ;;;
        print (u "Birthday for " ++ nm ++ u " added")
    | None => print (u "Contact not found")
    end).

Definition show_birthday (zero_pad : bool) (args : list str) : M unit :=
  input_error (
    nm <- item args 0 ;;
    found <- find nm ;;
    match found with
    | Some record =>
        self <- call record get ;;
        match birthday self with
        | Some b =>
            print (nm ++ u "'s birthday: "
                     ++ strftime zero_pad (birthday_value b))
        | None => print (nm ++ u " does not have a birthday set.")
        end
    | None => print (u "Contact not found.")
    end).

Definition upcoming_birthdays (today : datetime) : M unit :=
  input_error (
    upcoming <- get_upcoming_birthdays today ;;
    match upcoming with
    | _ :: _ =>
        print (u "Upcoming birthdays in the next week: "
                 ++ join (u ", ") upcoming)
    | [] => ret tt
    end ;;;
    print (u "No upcoming birthdays in the next week.")).

End Handlers.

(** ** Sequences of operations

    Everything a client can do to the book and its records: the methods of
    [Record] and [AddressBook], and the commands of the main loop.  [today]
    accompanies the operations that read the clock. *)
Inductive op :=
  | NewRecord (nm : str)
  | AddPhone (record : loc) (phone : str)
  | AddBirthday (record : loc) (bday : str)
  | RemovePhone (record : loc) (phone : str)
  | EditPhone (record : loc) (old_phone new_phone : str)
  | FindPhone (record : loc) (phone : str)
  | AddRecord (record : loc)
  | Find (nm : str)
  | Delete (nm : str)
  | GetUpcomingBirthdays (today : datetime)
  | CmdAdd (args : list str)
  | CmdChange (args : list str)
  | CmdPhone (args : list str)
  | CmdAll
  | CmdAddBirthday (args : list str)
  | CmdShowBirthday (args : list str)
  | CmdBirthdays (today : datetime).

(** The state an operation leaves behind, whether it returned or raised. *)
Definition run_op (zero_pad : bool) (o : op) (st : state) : state :=
  match o with
  | NewRecord nm => (alloc (new_Record nm) st).2
  | AddPhone l phone => (call l (add_phone phone) st).2
  | AddBirthday l bday => (call l (add_birthday bday) st).2
  | RemovePhone l phone => (call l (remove_phone phone) st).2
  | EditPhone l o n => (call l (edit_phone o n) st).2
  | FindPhone l phone => (call l (find_phone phone) st).2
  | AddRecord l => (add_record l st).2
  | Find nm => (find nm st).2
  | Delete nm => (delete nm st).2
  | GetUpcomingBirthdays today => (get_upcoming_birthdays today st).2
  | CmdAdd args => (Handlers.add_contact args st).2
  | CmdChange args => (Handlers.change_phone args st).2
  | CmdPhone args => (Handlers.show_phone_numbers args st).2
  | CmdAll => (Handlers.show_all_contacts zero_pad st).2
  | CmdAddBirthday args => (Handlers.add_birthday args st).2
  | CmdShowBirthday args => (Handlers.show_birthday zero_pad args st).2
  | CmdBirthdays today => (Handlers.upcoming_birthdays today st).2
  end.

Definition run_ops (zero_pad : bool) (ops : list op) (st : state) : state :=
  fold_left (fun s o => run_op zero_pad o s) ops st.

(** ** Predicates used by the statements *)

(** The entries of a dictionary stored under the key [k]. *)
Definition entries_of {V} (k : str) (d : list (str * V)) : list (str * V) :=
  List.filter (fun kv => bool_decide (kv.1 = k)) d.

(** [editPhone] in the words of the specification: [removePhone(old)], then
    [addPhone(new)] on the record that the removal left. *)
Definition removePhone_then_addPhone (old_phone new_phone : str)
  (self : RecordObj) : result unit * RecordObj :=
  let after_removal := (remove_phone old_phone self).2 in
  add_phone new_phone after_removal.

(** The record without the phones equal to [phone]. *)
Definition without_phone (phone : str) (self : RecordObj) : RecordObj :=
  mkRecord (name self) (birthday self)
    (List.filter (fun p => negb (bool_decide (phone_value p = phone)))
       (phones self)).

(** A string of exactly ten decimal-digit characters. *)
Definition ten_digits (s : str) : Prop :=
  length s = 10%nat /\ Forall (fun c => is_digit c = true) s.

(** A date the parser can have produced: an existing calendar day at
    midnight. *)
Definition parsed_date (t : datetime) : Prop :=
  valid_date (year t) (month t) (day t) = true
  /\ hour t = 0 /\ minute t = 0 /\ second t = 0 /\ microsecond t = 0.

(** Every field of a record is the outcome of a successful construction. *)
Definition record_ok (r : RecordObj) : Prop :=
  Forall (fun p => ten_digits (phone_value p)) (phones r)
  /\ (forall b, birthday r = Some b -> exists raw, new_Birthday raw = Ok b).

(** Every record of the store, and so every record the book refers to, holds
    valid fields only; the book refers to records of the store, under
    distinct keys. *)
Definition consistent (st : state) : Prop :=
  Forall record_ok (heap st)
  /\ Forall (fun kv : str * loc => (kv.2 < length (heap st))%nat) (data st)
  /\ NoDup (data st).*1.

(** The records the book holds, with their keys. *)
Definition stored (st : state) (nm : str) (r : RecordObj) : Prop :=
  exists l, dict_get nm (data st) = Some l /\ heap st !! l = Some r.

Definition fallback_message : str := u "No upcoming birthdays in the next week.".

(** What the command prints after a query that returned [upcoming]. *)
Definition upcoming_lines (upcoming : list str) : list str :=
  match upcoming with
  | [] => [fallback_message]
  | _ :: _ =>
      [u "Upcoming birthdays in the next week: " ++ join (u ", ") upcoming;
       fallback_message]
  end.

(** A method that leaves a valid record valid, and a computation that
    leaves a consistent state consistent, whether they return or raise. *)
Definition keeps_record {A} (m : ST RecordObj A) : Prop :=
  forall self, record_ok self -> record_ok (m self).2.

Definition keeps {A} (m : M A) : Prop :=
  forall st, consistent st -> consistent (m st).2.

(** The text [DD.MM.YYYY] made of eight ASCII digits, and the numbers its
    three fields denote. *)
Definition digit_value (c : N) : Z := Z.of_N c - 48.

Definition two_digits (a b : N) : Z := 10 * digit_value a + digit_value b.

Definition four_digits (a b c d : N) : Z :=
  1000 * digit_value a + 100 * digit_value b + 10 * digit_value c
  + digit_value d.

Definition dmY_text (d1 d2 m1 m2 y1 y2 y3 y4 : N) : str :=
  [d1; d2; 46%N; m1; m2; 46%N; y1; y2; y3; y4].

(** ** The upcoming-birthdays query in the words of the specification *)

(** The birthday's month and day in the reference year. *)
Definition this_year (today t : datetime) : datetime :=
  mkdatetime (year today) (month t) (day t)
    (hour t) (minute t) (second t) (microsecond t).

(** The projected date: the one in the reference year, or the one in the
    following year when the former precedes the reference. *)
Definition projected (today t : datetime) : datetime :=
  if dt_lt (this_year today t) today
  then mkdatetime (year today + 1) (month t) (day t)
         (hour t) (minute t) (second t) (microsecond t)
  else this_year today t.

(** The projected date lies in the inclusive window from [today] to
    [next_week]. *)
Definition in_window (today next_week : datetime) (r : RecordObj) : bool :=
  match birthday r with
  | None => false
  | Some b =>
      dt_le today (projected today (birthday_value b))
      && dt_le (projected today (birthday_value b)) next_week
  end.

(** The dates the projection goes through exist: the birthday's day in the
    reference year and, when that is past, in the following year. *)
Definition projectable (today : datetime) (r : RecordObj) : Prop :=
  forall b, birthday r = Some b ->
    valid_date (year today) (month (birthday_value b))
      (day (birthday_value b)) = true
    /\ valid_date (year (projected today (birthday_value b)))
         (month (birthday_value b)) (day (birthday_value b)) = true.

(** The names of the records in the window, in the order of the book. *)
Definition names_in_window (today next_week : datetime) (records : list RecordObj)
  : list str :=
  List.map (fun r => name_value (name r))
    (List.filter (in_window today next_week) records).

(** A datetime as one number, in the order of the comparison when every
    field below the year is within its range. *)
Definition stamp (t : datetime) : Z :=
  (((((year t * 13 + month t) * 32 + day t) * 24 + hour t) * 60 + minute t)
     * 60 + second t) * 1000000 + microsecond t.

Definition fields_bounded (t : datetime) : Prop :=
  1 <= month t <= 12 /\ 1 <= day t <= 31
  /\ 0 <= hour t < 24 /\ 0 <= minute t < 60
  /\ 0 <= second t < 60 /\ 0 <= microsecond t < 1000000.

(** The calendar date of a datetime. *)
Definition date_of (t : datetime) : Z * Z * Z := (year t, month t, day t).

(** ** Further notions used by the statements *)

(** The phone texts a record holds, in order. *)
Definition phone_values (self : RecordObj) : list str :=
  List.map phone_value (phones self).

(** The exceptions the [input_error] decorator catches. *)
Definition caught (e : exn) : bool :=
  match e with
  | KeyError _ | ValueError _ | IndexError _ => true
  | _ => false
  end.

(** [triple P m Q E]: from a state satisfying [P], the computation [m]
    either returns a value and a state related by [Q] or raises an
    exception related to the state it leaves by [E]. *)
Definition triple {A} (P : state -> Prop) (m : M A)
  (Q : A -> state -> Prop) (E : exn -> state -> Prop) : Prop :=
  forall st, P st ->
    match m st with
    | (Ok a, st') => Q a st'
    | (Raise e, st') => E e st'
    end.

(** A consistent state in which [l] is the location of a record. *)
Definition consistent_at (l : loc) (st : state) : Prop :=
  consistent st /\ (l < length (heap st))%nat.

(** What a handler's body may raise: something the decorator catches, from
    a state that is still consistent. *)
Definition caught_consistent (e : exn) (st : state) : Prop :=
  caught e = true /\ consistent st.

(** The command returns normally and leaves a consistent state. *)
Definition returns (m : M unit) (st : state) : Prop :=
  exists st', m st = (Ok tt, st') /\ consistent st'.

(** Every entry of the book is filed under the name of its record. *)
Definition name_keyed (st : state) : Prop :=
  forall k l r, (k, l) ∈ data st -> heap st !! l = Some r ->
                name_value (name r) = k.

(** A method that leaves the name of the record alone, and a computation
    that keeps a consistent book filed by name. *)
Definition keeps_name {A} (m : ST RecordObj A) : Prop :=
  forall self, name (m self).2 = name self.

Definition keeps_keys {A} (m : M A) : Prop :=
  forall st, consistent st -> name_keyed st -> name_keyed (m st).2.

(** The book and the records are those of [st]; only the output may
    differ. *)
Definition same_book (st st' : state) : Prop :=
  heap st' = heap st /\ data st' = data st.

(** What a command about the contact [nm] may do to the store: file a new
    record under [nm], replace the record filed under [nm], or nothing. *)
Definition footprint (nm : str) (st st' : state) : Prop :=
  (exists r', dict_get nm (data st) = None
              /\ heap st' = heap st ++ [r']
              /\ data st' = data st ++ [(nm, length (heap st))])
  \/ (exists l r', dict_get nm (data st) = Some l
                   /\ heap st' = <[l := r']> (heap st)
                   /\ data st' = data st)
  \/ same_book st st'.

(** ** The command loop

    [main] reads a line, splits it into a command and its arguments and
    calls the handler of the command.  [input] and the clock are the
    program's inputs: a session is the list of the lines read, each with the
    value [datetime.today()] has while the line is handled.  [stdout]
    records what [print] writes; the prompt of [input] is not a [print] and
    is not recorded.  Writing the book to its file is the work of
    [save_data], which the loop takes as given. *)

(** [str.isspace] of one code point: the characters at which [str.split]
    without a separator splits. *)
Definition isspace (c : N) : bool :=
  in_range 0x9 0xd c || in_range 0x1c 0x1f c || (c =? 0x20)%N
  || (c =? 0x85)%N || (c =? 0xa0)%N || (c =? 0x1680)%N
  || in_range 0x2000 0x200a c || (c =? 0x2028)%N || (c =? 0x2029)%N
  || (c =? 0x202f)%N || (c =? 0x205f)%N || (c =? 0x3000)%N.

(** Skips the whitespace [s] starts with. *)
Fixpoint lstrip (s : str) : str :=
  match s with
  | c :: rest => if isspace c then lstrip rest else s
  | [] => []
  end.

(** The characters of [s] up to the first whitespace, and what follows. *)
Fixpoint take_word (s : str) : str * str :=
  match s with
  | c :: rest =>
      if isspace c then ([], s)
      else let '(w, rest') := take_word rest in (c :: w, rest')
  | [] => ([], [])
  end.

(** [s.split(maxsplit=n)], [None] standing for no limit: whitespace is
    skipped, a word is taken, and once [n] words are taken what is left
    after its leading whitespace is the last element, if it is not empty.
    Every round consumes a character, so that [length s + 1] rounds are
    enough. *)
Fixpoint split_fuel (fuel : nat) (maxcount : option nat) (s : str) : list str :=
  match fuel with
  | O => []
  | S fuel' =>
      match lstrip s with
      | [] => []
      | c :: s' =>
          match maxcount with
          | Some O => [c :: s']
          | _ =>
              let '(w, rest) := take_word (c :: s') in
              w :: split_fuel fuel' (Nat.pred <$> maxcount) rest
          end
      end
  end.

Definition split (maxsplit : option nat) (s : str) : list str :=
  split_fuel (S (length s)) maxsplit s.

(** Whether the loop goes on or was left by [break]. *)
Inductive control := Continue | Break.

(** [command, *args = parts] *)
Definition unpack_command (parts : list str) : M (str * list str) :=
  match parts with
  | [] =>
      raise (ValueError
               (u "not enough values to unpack (expected at least 1, got 0)"))
  | command :: args => ret (command, args)
  end.

(** The [if]/[elif] chain of the loop's body. *)
Definition dispatch (save_data : M unit) (zero_pad : bool) (today : datetime)
  (command : str) (args : list str) : M control :=
  if bool_decide (command ∈ [u "close"; u "exit"]) then
    save_data ;;; print (u "Good bye!") ;;; ret Break
  else if bool_decide (command = u "hello") then
    print (u "How can I help you?") ;;; ret Continue
  else if bool_decide (command = u "add") then
    Handlers.add_contact args ;;; ret Continue
  else if bool_decide (command = u "change") then
    Handlers.change_phone args ;;; ret Continue
  else if bool_decide (command = u "phone") then
    Handlers.show_phone_numbers args ;;; ret Continue
  else if bool_decide (command = u "all") then
    Handlers.show_all_contacts zero_pad ;;; ret Continue
  else if bool_decide (command = u "add-birthday") then
    Handlers.add_birthday args ;;; ret Continue
  else if bool_decide (command = u "show-birthday") then
    Handlers.show_birthday zero_pad args ;;; ret Continue
  else if bool_decide (command = u "birthdays") then
    Handlers.upcoming_birthdays today ;;; ret Continue
  else
    print (u "Invalid command.") ;;; ret Continue.

(** One round of the loop, from the line [input] returned. *)
Definition main_iteration (save_data : M unit) (zero_pad : bool)
  (today : datetime) (user_input : str) : M control :=
  parts <- unpack_command (split (Some 1%nat) user_input) ;;
  let command := parts.1 in
  let args := match parts.2 with
              | rest :: _ => split None rest
              | [] => []
              end in
  dispatch save_data zero_pad today command args.

(** The loop on the lines read so far; when they are used up the program
    waits in [input]. *)
Fixpoint main_loop (save_data : M unit) (zero_pad : bool)
  (inputs : list (datetime * str)) : M control :=
  match inputs with
  | [] => ret Continue
  | (today, user_input) :: inputs' =>
      c <- main_iteration save_data zero_pad today user_input ;;
      match c with
      | Break => ret Break
      | Continue => main_loop save_data zero_pad inputs'
      end
  end.

(** [main], from the state [load_data] gave: the empty book when there is
    no file. *)
Definition main (save_data : M unit) (zero_pad : bool)
  (inputs : list (datetime * str)) : M control :=
  print (u "Welcome to the assistant bot!") ;;;
  main_loop save_data zero_pad inputs.

(** A word: not empty and without whitespace. *)
Definition word (w : str) : Prop :=
  w <> [] /\ Forall (fun c => isspace c = false) w.

Definition names_are_words (st : state) : Prop :=
  Forall (fun kv : str * loc => word kv.1) (data st).

(** A line with nothing but whitespace, the empty line included. *)
Definition blank (line : str) : Prop :=
  Forall (fun c => isspace c = true) line.

(** The book is as [st] has it, whatever was printed. *)
Definition sound_book (st : state) : Prop :=
  consistent st /\ name_keyed st /\ names_are_words st.

(** ** Concrete books and dates *)

(** The book after [add Ann 1234567890] and [add-birthday Ann 29.02.2000]. *)
Definition ann_leap_day : state :=
  run_ops false
    [CmdAdd [u "Ann"; u "1234567890"];
     CmdAddBirthday [u "Ann"; u "29.02.2000"]]
    empty_state.

Definition ann_record (bday : datetime) : RecordObj :=
  mkRecord (mkName (u "Ann")) (Some (mkBirthday bday))
    [mkPhone (u "1234567890")].

(** The book after [add Ann 1234567890] and [add-birthday Ann 04.03.2000]. *)
Definition ann_early_march : state :=
  run_ops false
    [CmdAdd [u "Ann"; u "1234567890"];
     CmdAddBirthday [u "Ann"; u "04.03.2000"]]
    empty_state.

(** 1 March 2023 and 1 March 2024, 10:30. *)
Definition march_1_2023 : datetime := mkdatetime 2023 3 1 10 30 0 0.
Definition march_1_2024 : datetime := mkdatetime 2024 3 1 10 30 0 0.

(** A store with two records named Bob and an empty book. *)
Definition two_bobs : state :=
  mkstate [new_Record (u "Bob");
           mkRecord (mkName (u "Bob")) None [mkPhone (u "0987654321")]]
    [] [].

(** Ann's birthday on 4 March, seven days after 1 March 2023, and the
    record of Bob with one phone. *)
Definition march_4_2000 : datetime := mkdatetime 2000 3 4 0 0 0 0.
Definition march_8_2023 : datetime := mkdatetime 2023 3 8 10 30 0 0.
Definition ann_ops : list op :=
  [CmdAdd [u "Ann"; u "1234567890"];
   CmdAddBirthday [u "Ann"; u "04.03.2000"]].

(** The lines of a session on 1 March 2023, and the state after its first
    line. *)
Definition ann_session : list (datetime * str) :=
  [(march_1_2023, u "add Ann 1234567890");
   (march_1_2023, u "add-birthday  Ann 04.03.2000 ");
   (march_1_2023, u "birthdays");
   (march_1_2023, u "Close");
   (march_1_2023, u "close")].

Definition ann_added : state :=
  mkstate [mkRecord (mkName (u "Ann")) None [mkPhone (u "1234567890")]]
    [(u "Ann", 0%nat)] [u "Contact added."].

(** * Properties *)

(** ** Monad equations *)

Lemma bind_ok {S A B} (m : ST S A) (k : A -> ST S B) s a s' :
  m s = (Ok a, s') -> bind m k s = k a s'.
Proof. intros H; unfold bind; now rewrite H. Qed.

Lemma bind_raise {S A B} (m : ST S A) (k : A -> ST S B) s e s' :
  m s = (Raise e, s') -> bind m k s = (Raise e, s').
Proof. intros H; unfold bind; now rewrite H. Qed.

(** ** Phone validation *)

Lemma forallb_Forall_true {A} (p : A -> bool) (l : list A) :
  forallb p l = true <-> Forall (fun x => p x = true) l.
Proof.
  induction l as [|a l IH]; simpl.
  - split; [constructor | reflexivity].
  - rewrite andb_true_iff, IH. split.
    + intros [Ha Hl]; now constructor.
    + intros H; inversion H; subst; now split.
Qed.

Lemma validate_spec (value : str) : validate value = true <-> ten_digits value.
Proof.
  unfold validate, ten_digits.
  rewrite andb_true_iff, Nat.eqb_eq, forallb_Forall_true. reflexivity.
Qed.

Lemma ascii_digit_is_digit (c : N) : ascii_digit c = true -> is_digit c = true.
Proof.
  unfold ascii_digit, in_range, is_digit, decimal. intros H.
  apply andb_true_iff in H as [Hlo Hhi].
  apply N.leb_le in Hlo, Hhi.
  cbn [nd_zeros decimal_in].
  replace ((48 <=? c)%N) with true by (symmetry; now apply N.leb_le).
  replace ((c <? 48 + 10)%N) with true by (symmetry; apply N.ltb_lt; lia).
  reflexivity.
Qed.

Lemma ascii_digit_decimal (c : N) :
  ascii_digit c = true -> decimal c = Some (Z.of_N c - 48).
Proof.
  unfold ascii_digit, in_range, decimal. intros H.
  apply andb_true_iff in H as [Hlo Hhi].
  apply N.leb_le in Hlo, Hhi.
  cbn [nd_zeros decimal_in].
  replace ((48 <=? c)%N) with true by (symmetry; now apply N.leb_le).
  replace ((c <? 48 + 10)%N) with true by (symmetry; apply N.ltb_lt; lia).
  cbn [andb]. f_equal. lia.
Qed.

(** C3. [Phone(value)] raises the format error exactly when [value] is not
    a string of exactly ten decimal-digit characters; in every other case it
    returns a phone whose stored value is [value] itself, and no other
    outcome exists. *)
Theorem Phone_fails_iff_not_ten_digits (value : str) :
  (new_Phone value = Raise phone_error <-> ~ ten_digits value)
  /\ (new_Phone value = Ok (mkPhone value) <-> ten_digits value)
  /\ (forall p, new_Phone value = Ok p -> phone_value p = value)
  /\ (forall e, new_Phone value = Raise e -> e = phone_error).
Proof.
  unfold new_Phone. rewrite <- validate_spec.
  destruct (validate value); cbn [negb].
  - split; [split; [discriminate | intros H; now contradiction H] |].
    split; [split; reflexivity |].
    split; [intros p Hp; now inversion Hp | discriminate].
  - split; [split; [intros _; discriminate | reflexivity] |].
    split; [split; discriminate |].
    split; [discriminate | intros e He; now inversion He].
Qed.

(** ** [Record]: editing a phone *)

Lemma remove_phone_eq (phone : str) (self : RecordObj) :
  remove_phone phone self = (Ok tt, without_phone phone self).
Proof. reflexivity. Qed.

Lemma add_phone_valid (phone : str) (self : RecordObj) :
  ten_digits phone ->
  add_phone phone self =
    (Ok tt, mkRecord (name self) (birthday self)
              (phones self ++ [mkPhone phone])).
Proof.
  intros H. apply validate_spec in H.
  unfold add_phone, bind, lift, new_Phone. rewrite H. reflexivity.
Qed.

Lemma add_phone_invalid (phone : str) (self : RecordObj) :
  ~ ten_digits phone -> add_phone phone self = (Raise phone_error, self).
Proof.
  intros H. rewrite <- validate_spec in H.
  unfold add_phone, bind, lift, new_Phone.
  destruct (validate phone); [now contradiction H | reflexivity].
Qed.

Lemma without_phone_none_left (phone : str) (self : RecordObj) :
  Forall (fun p => phone_value p <> phone) (phones (without_phone phone self)).
Proof.
  apply List.Forall_forall. intros p Hp. cbn in Hp.
  apply List.filter_In in Hp as [_ Hp].
  apply negb_true_iff, bool_decide_eq_false in Hp. exact Hp.
Qed.

(** C5. [edit_phone(old, new)] behaves as [remove_phone(old)] followed by
    [add_phone(new)].  Hence with an invalid [new] the edit raises the
    format error and the record has nevertheless lost every phone equal to
    [old]; with a valid [new] those phones are gone and [new] is appended. *)
Theorem edit_phone_is_remove_then_add (self : RecordObj) (old_phone new_phone : str) :
  edit_phone old_phone new_phone self
    = removePhone_then_addPhone old_phone new_phone self
  /\ (~ ten_digits new_phone ->
      edit_phone old_phone new_phone self
        = (Raise phone_error, without_phone old_phone self)
      /\ Forall (fun p => phone_value p <> old_phone)
           (phones (without_phone old_phone self)))
  /\ (ten_digits new_phone ->
      edit_phone old_phone new_phone self
        = (Ok tt, mkRecord (name self) (birthday self)
                    (phones (without_phone old_phone self)
                       ++ [mkPhone new_phone]))).
Proof.
  assert (E : edit_phone old_phone new_phone self
              = add_phone new_phone (without_phone old_phone self)).
  { unfold edit_phone. now rewrite (bind_ok _ _ _ _ _ (remove_phone_eq _ _)). }
  split; [| split].
  - rewrite E. unfold removePhone_then_addPhone.
    now rewrite remove_phone_eq.
  - intros Hbad. split; [| apply without_phone_none_left].
    rewrite E. now apply add_phone_invalid.
  - intros Hgood. rewrite E. now rewrite add_phone_valid.
Qed.

(** ** The dictionary *)

Section Dict.
Context {V : Type}.
Implicit Types (d : list (str * V)) (k : str) (v : V).

Lemma dict_get_None_keys k d : dict_get k d = None <-> k ∉ d.*1.
Proof.
  induction d as [|[k' v'] d IH]; cbn.
  - split; [intros _ H; inversion H | reflexivity].
  - case_bool_decide as E.
    + subst. split; [discriminate | intros H; contradiction H; left].
    + rewrite IH, not_elem_of_cons. split; [now split | now intros [_ H]].
Qed.

Lemma dict_get_Some_elem k v d : dict_get k d = Some v -> (k, v) ∈ d.
Proof.
  induction d as [|[k' v'] d IH]; cbn; [discriminate|].
  case_bool_decide as E.
  - intros [= ->]. subst. left.
  - intros H. right. now apply IH.
Qed.

Lemma dict_in_true k d : dict_in k d = true <-> k ∈ d.*1.
Proof.
  unfold dict_in. destruct (dict_get k d) eqn:E.
  - split; [intros _ | reflexivity].
    destruct (decide (k ∈ d.*1)) as [H|H]; [exact H|].
    apply dict_get_None_keys in H. congruence.
  - apply dict_get_None_keys in E. split; [discriminate | contradiction].
Qed.

Lemma dict_get_set_eq k v d : dict_get k (dict_set k v d) = Some v.
Proof.
  induction d as [|[k' v'] d IH]; cbn.
  - now rewrite bool_decide_eq_true_2.
  - case_bool_decide as E; cbn.
    + now rewrite bool_decide_eq_true_2.
    + now rewrite bool_decide_eq_false_2.
Qed.

Lemma dict_get_set_ne k k0 v d :
  k0 <> k -> dict_get k0 (dict_set k v d) = dict_get k0 d.
Proof.
  intros Hne. induction d as [|[k' v'] d IH]; cbn.
  - rewrite bool_decide_eq_false_2; [reflexivity | congruence].
  - case_bool_decide as E; cbn.
    + subst. rewrite !bool_decide_eq_false_2; congruence.
    + case_bool_decide; [reflexivity | exact IH].
Qed.

Lemma dict_set_keys k v d :
  (dict_set k v d).*1 = if dict_in k d then d.*1 else d.*1 ++ [k].
Proof.
  unfold dict_in. induction d as [|[k' v'] d IH]; cbn; [reflexivity|].
  case_bool_decide as E; cbn; [reflexivity|].
  rewrite IH. now destruct (dict_get k d).
Qed.

Lemma dict_set_length k v d :
  length (dict_set k v d) = if dict_in k d then length d else S (length d).
Proof.
  rewrite <- !(length_fmap fst), dict_set_keys.
  destruct (dict_in k d); [reflexivity|].
  rewrite length_app. cbn. lia.
Qed.

Lemma dict_set_NoDup k v d : NoDup d.*1 -> NoDup (dict_set k v d).*1.
Proof.
  intros H. rewrite dict_set_keys. destruct (dict_in k d) eqn:E; [exact H|].
  apply NoDup_app. split; [exact H|]. split; [| apply NoDup_singleton].
  intros x Hx Hx'. apply list_elem_of_singleton in Hx'. subst.
  apply dict_in_true in Hx. congruence.
Qed.

Lemma dict_set_elem k v d kv : kv ∈ dict_set k v d -> kv ∈ d \/ kv = (k, v).
Proof.
  induction d as [|[k' v'] d IH]; cbn.
  - intros H. apply list_elem_of_singleton in H. now right.
  - case_bool_decide as E.
    + subst. intros H. apply elem_of_cons in H as [->|H]; [now right|].
      left. now right.
    + intros H. apply elem_of_cons in H as [->|H]; [left; left|].
      destruct (IH H) as [?|?]; [left; now right | now right].
Qed.

Lemma dict_del_get_ne k k0 d :
  k0 <> k -> dict_get k0 (dict_del k d) = dict_get k0 d.
Proof.
  intros Hne. induction d as [|[k' v'] d IH]; cbn; [reflexivity|].
  case_bool_decide as E; cbn.
  - subst. rewrite bool_decide_eq_false_2; congruence.
  - case_bool_decide; [reflexivity | exact IH].
Qed.

Lemma dict_del_sublist k d : dict_del k d `sublist_of` d.
Proof.
  induction d as [|[k' v'] d IH]; cbn; [constructor|].
  case_bool_decide; [now constructor | now constructor].
Qed.

Lemma dict_del_get_eq k d : NoDup d.*1 -> dict_get k (dict_del k d) = None.
Proof.
  induction d as [|[k' v'] d IH]; cbn; [reflexivity|].
  intros H. apply NoDup_cons in H as [Hk Hd].
  case_bool_decide as E; cbn.
  - subst. now apply dict_get_None_keys.
  - rewrite bool_decide_eq_false_2 by exact E. now apply IH.
Qed.

Lemma dict_del_length k d :
  dict_in k d = true -> S (length (dict_del k d)) = length d.
Proof.
  unfold dict_in. induction d as [|[k' v'] d IH]; cbn; [discriminate|].
  case_bool_decide as E; cbn; [reflexivity|].
  intros H. now rewrite IH.
Qed.

Lemma entries_of_absent k d : k ∉ d.*1 -> entries_of k d = [].
Proof.
  unfold entries_of. induction d as [|[k' v'] d IH]; cbn; [reflexivity|].
  intros H. apply not_elem_of_cons in H as [Hne H].
  rewrite bool_decide_eq_false_2 by congruence. now apply IH.
Qed.

(** Distinct keys: a key that is present has exactly one entry. *)
Lemma entries_of_present k v d :
  NoDup d.*1 -> dict_get k d = Some v -> entries_of k d = [(k, v)].
Proof.
  unfold entries_of. induction d as [|[k' v'] d IH]; cbn; [discriminate|].
  intros Hnd. apply NoDup_cons in Hnd as [Hk' Hnd].
  case_bool_decide as E.
  - intros [= ->]. subst k'. f_equal. now apply entries_of_absent.
  - now apply IH.
Qed.

End Dict.

(** ** [AddressBook.add_record] and [AddressBook.delete] *)

Lemma add_record_eq (st : state) (l : loc) (r : RecordObj) :
  heap st !! l = Some r ->
  add_record l st
    = (Ok tt, mkstate (heap st)
                (dict_set (name_value (name r)) l (data st)) (stdout st)).
Proof. intros H. unfold add_record. now rewrite H. Qed.

(** C6. [add_record] binds the record's name to the record: afterwards the
    name looks up to this record, every other key is as before, and the
    size grows by one exactly when the name was new.  A second [add_record]
    with a record of the same name replaces the first one: the name now
    looks up to the second record, keys and size are those after the first
    call, the name has exactly one entry (the second record's), and from an
    empty book the outcome is that single entry (size 1). *)
Theorem add_record_last_write_wins (st : state) (l1 l2 : loc) (r1 r2 : RecordObj) :
  heap st !! l1 = Some r1 ->
  heap st !! l2 = Some r2 ->
  name_value (name r2) = name_value (name r1) ->
  exists d1 d2,
    add_record l1 st = (Ok tt, mkstate (heap st) d1 (stdout st))
    /\ dict_get (name_value (name r1)) d1 = Some l1
    /\ (forall k, k <> name_value (name r1) ->
          dict_get k d1 = dict_get k (data st))
    /\ length d1 = (if dict_in (name_value (name r1)) (data st)
                    then length (data st) else S (length (data st)))
    /\ add_record l2 (mkstate (heap st) d1 (stdout st))
         = (Ok tt, mkstate (heap st) d2 (stdout st))
    /\ dict_get (name_value (name r1)) d2 = Some l2
    /\ (forall k, k <> name_value (name r1) ->
          dict_get k d2 = dict_get k (data st))
    /\ d2.*1 = d1.*1
    /\ length d2 = length d1
    /\ (NoDup (data st).*1 ->
        NoDup d2.*1
        /\ entries_of (name_value (name r1)) d2
           = [(name_value (name r1), l2)])
    /\ (data st = [] -> d2 = [(name_value (name r1), l2)] /\ length d2 = 1%nat).
Proof.
  intros H1 H2 Hnm.
  set (nm := name_value (name r1)) in *.
  exists (dict_set nm l1 (data st)), (dict_set nm l2 (dict_set nm l1 (data st))).
  assert (Hin : dict_in nm (dict_set nm l1 (data st)) = true).
  { unfold dict_in. now rewrite dict_get_set_eq. }
  split; [now apply add_record_eq|].
  split; [apply dict_get_set_eq|].
  split; [intros k Hk; now apply dict_get_set_ne|].
  split; [apply dict_set_length|].
  split; [rewrite (add_record_eq _ l2 r2) by exact H2; cbn; now rewrite Hnm|].
  split; [apply dict_get_set_eq|].
  split; [intros k Hk; rewrite !dict_get_set_ne by exact Hk; reflexivity|].
  split; [rewrite (dict_set_keys nm l2), Hin; reflexivity|].
  split; [rewrite (dict_set_length nm l2), Hin; reflexivity|].
  split.
  { intros Hnd.
    assert (Hnd2 : NoDup (dict_set nm l2 (dict_set nm l1 (data st))).*1)
      by now do 2 apply dict_set_NoDup.
    split; [exact Hnd2|].
    apply entries_of_present; [exact Hnd2 | apply dict_get_set_eq]. }
  intros ->. cbn. rewrite bool_decide_eq_true_2 by reflexivity. now split.
Qed.

(** C7. [delete(name)] on a book that has the name removes that entry and
    nothing else, returning nothing; on a book without the name it returns
    the not-found message as an ordinary value, raises nothing and leaves
    the whole state as it was. *)
Theorem delete_removes_or_reports (st : state) (nm : str) :
  (dict_in nm (data st) = true ->
     exists d', delete nm st = (Ok None, mkstate (heap st) d' (stdout st))
       /\ (forall k, k <> nm -> dict_get k d' = dict_get k (data st))
       /\ S (length d') = length (data st)
       /\ d' `sublist_of` data st
       /\ (NoDup (data st).*1 -> dict_get nm d' = None /\ NoDup d'.*1))
  /\ (dict_in nm (data st) = false ->
        delete nm st = (Ok (Some (u "Contact not found.")), st)).
Proof.
  unfold delete. split; intros H; rewrite H; [| reflexivity].
  exists (dict_del nm (data st)).
  split; [reflexivity|].
  split; [intros k Hk; now apply dict_del_get_ne|].
  split; [now apply dict_del_length|].
  split; [apply dict_del_sublist|].
  intros Hnd. split; [now apply dict_del_get_eq|].
  eapply sublist_NoDup; [exact Hnd|].
  apply fmap_sublist, dict_del_sublist.
Qed.

(** ** The object store *)

Lemma call_eq {A} (l : loc) (m : ST RecordObj A) (st : state) self r self' :
  heap st !! l = Some self ->
  m self = (r, self') ->
  call l m st = (r, mkstate (<[l := self']> (heap st)) (data st) (stdout st)).
Proof. intros H E. unfold call. now rewrite H, E. Qed.

Lemma lookup_fresh (h : list RecordObj) (r : RecordObj) :
  (h ++ [r]) !! length h = Some r.
Proof. rewrite lookup_app_r by lia. now rewrite Nat.sub_diag. Qed.

Lemma insert_fresh (h : list RecordObj) (r r' : RecordObj) :
  <[length h := r']> (h ++ [r]) = h ++ [r'].
Proof.
  rewrite insert_app_r_alt by lia. now rewrite Nat.sub_diag.
Qed.

(** ** [add_contact] with an invalid phone *)

(** C9. When [add_contact] is called with a name the book does not have and
    a phone that is not ten digits, the handler returns normally after
    printing the validation error, and the book has gained an entry for the
    name whose record has no phone and no birthday: the record was inserted
    before the phone was validated. *)
Theorem add_contact_invalid_phone_keeps_record
  (st : state) (nm phone : str) (more : list str) :
  dict_get nm (data st) = None ->
  ~ ten_digits phone ->
  exists st',
    Handlers.add_contact (nm :: phone :: more) st = (Ok tt, st')
    /\ stored st' nm (new_Record nm)
    /\ phones (new_Record nm) = []
    /\ length (data st') = S (length (data st))
    /\ heap st' = heap st ++ [new_Record nm]
    /\ stdout st' = stdout st ++ [u "Error: Phone number must be 10 digits."].
Proof.
  intros Hnew Hbad.
  set (l := length (heap st)).
  set (st1 := mkstate (heap st ++ [new_Record nm])
                (dict_set nm l (data st)) (stdout st)).
  assert (Hcall : call l (add_phone phone) st1 = (Raise phone_error, st1)).
  { erewrite call_eq;
      [| apply lookup_fresh | now apply add_phone_invalid].
    unfold st1, l; cbn [heap data stdout]. now rewrite insert_fresh. }
  exists (mkstate (heap st1) (data st1)
            (stdout st ++ [u "Error: Phone number must be 10 digits."])).
  split.
  - unfold Handlers.add_contact, input_error.
    unfold bind at 1. cbn [item lookup list_lookup ret].
    unfold bind at 1. cbn [item lookup list_lookup ret].
    unfold bind at 1. unfold find at 1. rewrite Hnew.
    unfold bind at 1. unfold bind at 1. unfold alloc at 1.
    unfold bind at 1. unfold add_record at 1. cbn [heap data stdout].
    fold l. unfold l at 1. rewrite lookup_fresh.
    cbn [new_Record name name_value ret fst].
    rewrite (bind_raise _ _ st1 _ _ Hcall). reflexivity.
  - split; [| split; [reflexivity | split; [| split; reflexivity]]].
    + exists l. cbn. split; [apply dict_get_set_eq | apply lookup_fresh].
    + cbn. rewrite dict_set_length. unfold dict_in. now rewrite Hnew.
Qed.

(** ** The upcoming-birthdays query *)

Lemma get_upcoming_birthdays_eq (today : datetime) (st : state) :
  get_upcoming_birthdays today st =
    match plus_days today 7 with
    | Ok next_week => (upcoming_loop today next_week (values st) [], st)
    | Raise e => (Raise e, st)
    end.
Proof.
  unfold get_upcoming_birthdays, bind, lift, get.
  now destruct (plus_days today 7).
Qed.

(** The query only reads. *)
Lemma get_upcoming_birthdays_state (today : datetime) (st : state) :
  (get_upcoming_birthdays today st).2 = st.
Proof.
  rewrite get_upcoming_birthdays_eq. now destruct (plus_days today 7).
Qed.

Lemma replace_year_raises (t : datetime) (y : Z) (e : exn) :
  replace_year t y = Raise e -> exists msg, e = ValueError msg.
Proof.
  unfold replace_year, check_date_fields.
  repeat match goal with
         | |- context [if ?c then _ else _] => destruct c
         end; intros [= <-]; eauto.
Qed.

Lemma upcoming_one_raises (today next_week : datetime) (r : RecordObj) (e : exn) :
  upcoming_one today next_week r = Raise e -> exists msg, e = ValueError msg.
Proof.
  unfold upcoming_one. destruct (birthday r) as [b|]; [| discriminate].
  destruct (replace_year (birthday_value b) (year today)) as [t|e1] eqn:E1.
  - destruct (dt_lt t today).
    + destruct (replace_year t (year today + 1)) as [t'|e2] eqn:E2.
      * destruct (_ && _); discriminate.
      * intros [= <-]. now apply replace_year_raises in E2.
    + destruct (_ && _); discriminate.
  - intros [= <-]. now apply replace_year_raises in E1.
Qed.

(** One record whose projection fails makes the whole loop raise. *)
Lemma upcoming_loop_raises (today next_week : datetime) (records : list RecordObj)
  (r : RecordObj) (e : exn) :
  r ∈ records ->
  upcoming_one today next_week r = Raise e ->
  forall acc, exists msg,
    upcoming_loop today next_week records acc = Raise (ValueError msg).
Proof.
  intros Hin Hr. induction records as [|r0 records IH]; [inversion Hin|].
  intros acc. cbn [upcoming_loop].
  destruct (upcoming_one today next_week r0) as [[nm0|]|e0] eqn:E0.
  - apply elem_of_cons in Hin as [->|Hin]; [congruence | now apply IH].
  - apply elem_of_cons in Hin as [->|Hin]; [congruence | now apply IH].
  - apply upcoming_one_raises in E0 as [msg ->]. now exists msg.
Qed.

Lemma stored_in_values (st : state) (nm : str) (r : RecordObj) :
  stored st nm r -> r ∈ values st.
Proof.
  intros (l & Hget & Hl). unfold values.
  apply list_elem_of_omap. exists (nm, l). split; [| exact Hl].
  now apply dict_get_Some_elem.
Qed.

Lemma is_leap_next (y : Z) : is_leap y = true -> is_leap (y + 1) = false.
Proof.
  unfold is_leap. intros H. apply andb_true_iff in H as [H _].
  apply Z.eqb_eq in H.
  replace ((y + 1) mod 4 =? 0) with false; [reflexivity|].
  symmetry. apply Z.eqb_neq. intros H'.
  Z.div_mod_to_equations. lia.
Qed.

Lemma leap_day_replace_fails (t : datetime) (y : Z) :
  month t = 2 -> day t = 29 -> is_leap y = false ->
  exists msg, replace_year t y = Raise (ValueError msg).
Proof.
  intros Hm Hd Hy. unfold replace_year, check_date_fields.
  rewrite Hm, Hd. unfold days_in_month. rewrite Hy. cbn.
  destruct (negb _); eauto.
Qed.

Lemma leap_day_upcoming_one_fails (today next_week : datetime) (r : RecordObj) (yb : Z) :
  birthday r = Some (mkBirthday (mkdatetime yb 2 29 0 0 0 0)) ->
  is_leap (year today) = false
  \/ dt_lt (mkdatetime (year today) 2 29 0 0 0 0) today = true ->
  exists msg, upcoming_one today next_week r = Raise (ValueError msg).
Proof.
  intros Hb Hcase. unfold upcoming_one. rewrite Hb. cbn [birthday_value].
  destruct (is_leap (year today)) eqn:Hleap.
  - destruct Hcase as [Hcase|Hlt]; [discriminate|].
    destruct (replace_year _ (year today)) as [t|e] eqn:E.
    + assert (Ht : t = mkdatetime (year today) 2 29 0 0 0 0).
      { unfold replace_year in E. destruct (check_date_fields _ _ _); now inversion E. }
      subst t. rewrite Hlt.
      destruct (leap_day_replace_fails (mkdatetime (year today) 2 29 0 0 0 0)
                  (year today + 1) eq_refl eq_refl (is_leap_next _ Hleap))
        as [msg ->].
      now exists msg.
    + apply replace_year_raises in E as [msg ->]. now exists msg.
  - destruct (leap_day_replace_fails (mkdatetime yb 2 29 0 0 0 0)
                (year today) eq_refl eq_refl Hleap) as [msg ->].
    now exists msg.
Qed.

(** C10. If the book holds a record whose birthday is a 29 February and
    either the current year is not a leap year, or it is one and 29 February
    is already past (so that the date is moved to the following year, which
    is not a leap year), then the upcoming-birthdays query raises a
    [ValueError] from the year replacement and returns no list. *)
Theorem leap_day_birthday_raises_ValueError
  (st : state) (today next_week : datetime) (nm : str) (r : RecordObj) (yb : Z) :
  stored st nm r ->
  birthday r = Some (mkBirthday (mkdatetime yb 2 29 0 0 0 0)) ->
  plus_days today 7 = Ok next_week ->
  is_leap (year today) = false
  \/ dt_lt (mkdatetime (year today) 2 29 0 0 0 0) today = true ->
  exists msg,
    get_upcoming_birthdays today st = (Raise (ValueError msg), st).
Proof.
  intros Hst Hb Hnw Hcase.
  rewrite get_upcoming_birthdays_eq, Hnw.
  destruct (leap_day_upcoming_one_fails today next_week r yb Hb Hcase)
    as [msg0 Hone].
  destruct (upcoming_loop_raises today next_week (values st) r _
              (stored_in_values _ _ _ Hst) Hone []) as [msg ->].
  now exists msg.
Qed.

(** ** The [upcoming_birthdays] command *)

(** C2, as the handler has it.  Whenever the query returns a list, the
    command prints the fallback message as its last line, also after the
    line of matches that a non-empty list produces, and returns normally. *)
Theorem upcoming_birthdays_prints_fallback
  (st : state) (today : datetime) (upcoming : list str) :
  (get_upcoming_birthdays today st).1 = Ok upcoming ->
  Handlers.upcoming_birthdays today st
    = (Ok tt, mkstate (heap st) (data st)
                (stdout st ++ upcoming_lines upcoming))
  /\ last (stdout (Handlers.upcoming_birthdays today st).2)
     = Some fallback_message.
Proof.
  intros Hq.
  assert (E : get_upcoming_birthdays today st = (Ok upcoming, st)).
  { rewrite <- (get_upcoming_birthdays_state today st) at 2.
    rewrite <- Hq. now destruct (get_upcoming_birthdays today st). }
  assert (Hrun : Handlers.upcoming_birthdays today st
            = (Ok tt, mkstate (heap st) (data st)
                        (stdout st ++ upcoming_lines upcoming))).
  { unfold Handlers.upcoming_birthdays, input_error.
    rewrite (bind_ok _ _ _ _ _ E).
    destruct upcoming as [|nm0 rest]; cbn.
    - reflexivity.
    - now rewrite <- app_assoc. }
  split; [exact Hrun|].
  rewrite Hrun. cbn [snd stdout].
  destruct upcoming; cbn [upcoming_lines]; rewrite last_app; reflexivity.
Qed.

(** When the query raises a [ValueError], the decorator prints the error and
    nothing else. *)
Lemma upcoming_birthdays_error (st : state) (today : datetime) (msg : str) :
  get_upcoming_birthdays today st = (Raise (ValueError msg), st) ->
  Handlers.upcoming_birthdays today st
    = (Ok tt, mkstate (heap st) (data st) (stdout st ++ [u "Error: " ++ msg])).
Proof.
  intros E. unfold Handlers.upcoming_birthdays, input_error.
  now rewrite (bind_raise _ _ _ _ _ E).
Qed.

(** ** Consistency of the store *)

Lemma strptime_parsed (raw : str) (t : datetime) :
  strptime raw = Ok t -> parsed_date t.
Proof.
  unfold strptime.
  destruct (re_match _ raw) as [[groups rest]|]; [| discriminate].
  destruct groups as [|d [|g1 [|m [|g2 [|Y [|? ?]]]]]]; try discriminate.
  destruct rest; [| discriminate].
  destruct (int Y) as [y'|]; [| discriminate].
  destruct (int m) as [m'|]; [| discriminate].
  destruct (int d) as [d'|]; [| discriminate].
  destruct (check_date_fields y' m' d') eqn:E; [| discriminate].
  intros [= <-]. unfold parsed_date; cbn. split; [| now repeat split].
  unfold check_date_fields in E. unfold valid_date.
  destruct (_ && _) eqn:E1 in E; [| discriminate]. cbn [negb] in E.
  destruct (_ && _) eqn:E2 in E; [| discriminate]. cbn [negb] in E.
  destruct (_ && _) eqn:E3 in E; [| discriminate].
  apply andb_true_iff in E1 as [-> ->], E2 as [-> ->], E3 as [-> ->].
  reflexivity.
Qed.

Lemma new_Birthday_parsed (raw : str) (b : Birthday) :
  new_Birthday raw = Ok b -> parsed_date (birthday_value b).
Proof.
  unfold new_Birthday. destruct (strptime raw) as [t|e] eqn:E.
  - intros [= <-]. now apply strptime_parsed in E.
  - destruct e; discriminate.
Qed.

Lemma new_Phone_ten_digits (raw : str) (p : Phone) :
  new_Phone raw = Ok p -> ten_digits (phone_value p).
Proof.
  unfold new_Phone. destruct (validate raw) eqn:E; [| discriminate].
  intros [= <-]. now apply validate_spec.
Qed.

Create HintDb keeps.

Section Keeps.
Context {S : Type} (P : S -> Prop).

(** The generic rules, for any state and any property of it. *)
Lemma st_bind_keeps {A B} (m : ST S A) (k : A -> ST S B) :
  (forall s, P s -> P (m s).2) ->
  (forall a s, P s -> P (k a s).2) ->
  forall s, P s -> P (bind m k s).2.
Proof.
  intros Hm Hk s Hs. unfold bind. specialize (Hm s Hs).
  destruct (m s) as [[a|e] s']; cbn in *; [now apply Hk | exact Hm].
Qed.

End Keeps.

Lemma keeps_record_bind {A B} (m : ST RecordObj A) (k : A -> ST RecordObj B) :
  keeps_record m -> (forall a, keeps_record (k a)) -> keeps_record (bind m k).
Proof. intros Hm Hk. exact (st_bind_keeps record_ok m k Hm Hk). Qed.

Lemma keeps_bind {A B} (m : M A) (k : A -> M B) :
  keeps m -> (forall a, keeps (k a)) -> keeps (bind m k).
Proof. intros Hm Hk. exact (st_bind_keeps consistent m k Hm Hk). Qed.

Lemma keeps_record_lift {A} (r : result A) : keeps_record (lift r).
Proof. now intros self H. Qed.

Lemma keeps_record_get : keeps_record get.
Proof. now intros self H. Qed.

Lemma keeps_record_ret {A} (a : A) : keeps_record (ret a).
Proof. now intros self H. Qed.

Lemma add_phone_keeps (phone : str) : keeps_record (add_phone phone).
Proof.
  intros self [Hp Hb]. unfold add_phone, bind, lift.
  destruct (new_Phone phone) as [p|e] eqn:E; cbn; [| now split].
  split; [| exact Hb]. cbn.
  apply Forall_app. split; [exact Hp|].
  constructor; [| constructor]. now apply new_Phone_ten_digits in E.
Qed.

Lemma add_birthday_keeps (bday : str) : keeps_record (add_birthday bday).
Proof.
  intros self [Hp Hb]. unfold add_birthday, bind, lift.
  destruct (new_Birthday bday) as [b|e] eqn:E; cbn; [| now split].
  split; [exact Hp|]. cbn. intros b' [= <-]. now exists bday.
Qed.

Lemma remove_phone_keeps (phone : str) : keeps_record (remove_phone phone).
Proof.
  intros self [Hp Hb]. rewrite remove_phone_eq. cbn.
  split; [| exact Hb]. cbn.
  apply List.Forall_forall. intros p Hin.
  apply List.filter_In in Hin as [Hin _].
  revert p Hin. now apply List.Forall_forall.
Qed.

Lemma edit_phone_keeps (old_phone new_phone : str) :
  keeps_record (edit_phone old_phone new_phone).
Proof.
  apply keeps_record_bind; [apply remove_phone_keeps|].
  intros _. apply add_phone_keeps.
Qed.

Lemma find_phone_keeps (phone : str) : keeps_record (find_phone phone).
Proof. now intros self H. Qed.

#[local] Hint Resolve keeps_record_lift keeps_record_get keeps_record_ret
  add_phone_keeps add_birthday_keeps remove_phone_keeps edit_phone_keeps
  find_phone_keeps : keeps.

Lemma keeps_ret {A} (a : A) : keeps (ret a).
Proof. now intros st H. Qed.

Lemma keeps_raise {A} (e : exn) : keeps (@raise state A e).
Proof. now intros st H. Qed.

Lemma keeps_lift {A} (r : result A) : keeps (lift r).
Proof. now intros st H. Qed.

Lemma keeps_get : keeps get.
Proof. now intros st H. Qed.

Lemma keeps_print (line : str) : keeps (print line).
Proof. now intros st H. Qed.

Lemma keeps_find (nm : str) : keeps (find nm).
Proof. now intros st H. Qed.

Lemma keeps_item (args : list str) (i : nat) : keeps (item args i).
Proof. intros st H. unfold item. now destruct (args !! i). Qed.

Lemma keeps_alloc (nm : str) : keeps (alloc (new_Record nm)).
Proof.
  intros st (Hh & Hd & Hk). unfold alloc, consistent; cbn.
  split; [| split; [| exact Hk]].
  - apply Forall_app. split; [exact Hh|].
    constructor; [| constructor]. split; [constructor | discriminate].
  - eapply Forall_impl; [exact Hd|]. intros kv Hkv. cbn beta in Hkv.
    rewrite length_app. cbn [length]. lia.
Qed.

Lemma keeps_add_record (l : loc) : keeps (add_record l).
Proof.
  intros st (Hh & Hd & Hk). unfold add_record.
  destruct (heap st !! l) as [r|] eqn:E; [| now repeat split].
  unfold consistent; cbn. split; [exact Hh|].
  split; [| now apply dict_set_NoDup].
  apply Forall_forall. intros kv Hkv.
  apply dict_set_elem in Hkv as [Hkv| ->].
  - revert kv Hkv. now apply Forall_forall.
  - cbn. now apply lookup_lt_Some in E.
Qed.

Lemma keeps_call {A} (l : loc) (m : ST RecordObj A) :
  keeps_record m -> keeps (call l m).
Proof.
  intros Hm st (Hh & Hd & Hk). unfold call.
  destruct (heap st !! l) as [self|] eqn:E; [| now repeat split].
  assert (Hself : record_ok self).
  { eapply Forall_lookup_1; [exact Hh | exact E]. }
  specialize (Hm self Hself).
  destruct (m self) as [r self']; cbn in *.
  unfold consistent; cbn. rewrite length_insert.
  split; [| now split].
  now apply Forall_insert.
Qed.

Lemma keeps_delete (nm : str) : keeps (delete nm).
Proof.
  intros st (Hh & Hd & Hk). unfold delete.
  destruct (dict_in nm (data st)); [| now repeat split].
  unfold consistent; cbn. split; [exact Hh|]. split.
  - apply Forall_forall. intros kv Hkv.
    rewrite Forall_forall in Hd. apply Hd.
    eapply elem_of_sublist; [exact Hkv | apply dict_del_sublist].
  - eapply sublist_NoDup; [exact Hk|].
    apply fmap_sublist, dict_del_sublist.
Qed.

Lemma keeps_get_upcoming_birthdays (today : datetime) :
  keeps (get_upcoming_birthdays today).
Proof. intros st H. now rewrite get_upcoming_birthdays_state. Qed.

Lemma keeps_input_error {A} (func : M A) : keeps func -> keeps (input_error func).
Proof.
  intros Hf st H. specialize (Hf st H). unfold input_error.
  destruct (func st) as [[a|e] st']; cbn in *; [exact Hf|].
  destruct e; exact Hf.
Qed.

#[local] Hint Resolve keeps_ret keeps_raise keeps_lift keeps_get keeps_print
  keeps_find keeps_item keeps_alloc keeps_add_record keeps_call keeps_delete
  keeps_get_upcoming_birthdays keeps_input_error keeps_bind : keeps.

(** Every handler is a composition of the steps above. *)
Ltac keeps_steps :=
  repeat first
    [ apply keeps_input_error
    | apply keeps_bind; [| intros ?]
    | match goal with
      | |- keeps (match ?x with _ => _ end) => destruct x
      | |- keeps (if ?c then _ else _) => destruct c
      end
    | solve [eauto with keeps] ].

Lemma keeps_add_contact (args : list str) : keeps (Handlers.add_contact args).
Proof. unfold Handlers.add_contact. keeps_steps. Qed.

Lemma keeps_change_phone (args : list str) : keeps (Handlers.change_phone args).
Proof. unfold Handlers.change_phone. keeps_steps. Qed.

Lemma keeps_show_phone_numbers (args : list str) :
  keeps (Handlers.show_phone_numbers args).
Proof. unfold Handlers.show_phone_numbers. keeps_steps. Qed.

Lemma keeps_show_all_contacts (zero_pad : bool) :
  keeps (Handlers.show_all_contacts zero_pad).
Proof. unfold Handlers.show_all_contacts. keeps_steps. Qed.

Lemma keeps_cmd_add_birthday (args : list str) : keeps (Handlers.add_birthday args).
Proof. unfold Handlers.add_birthday. keeps_steps. Qed.

Lemma keeps_show_birthday (zero_pad : bool) (args : list str) :
  keeps (Handlers.show_birthday zero_pad args).
Proof. unfold Handlers.show_birthday. keeps_steps. Qed.

Lemma keeps_upcoming_birthdays (today : datetime) :
  keeps (Handlers.upcoming_birthdays today).
Proof. unfold Handlers.upcoming_birthdays. keeps_steps. Qed.

Lemma run_op_keeps (zero_pad : bool) (o : op) (st : state) :
  consistent st -> consistent (run_op zero_pad o st).
Proof.
  intros H. destruct o; cbn [run_op];
    match goal with |- consistent (?m st).2 => enough (keeps m) by auto end;
    eauto using keeps_add_contact, keeps_change_phone,
      keeps_show_phone_numbers, keeps_show_all_contacts,
      keeps_cmd_add_birthday, keeps_show_birthday, keeps_upcoming_birthdays
      with keeps.
Qed.

Lemma run_ops_keeps (zero_pad : bool) (ops : list op) (st : state) :
  consistent st -> consistent (run_ops zero_pad ops st).
Proof.
  revert st. induction ops as [|o ops IH]; intros st H; [exact H|].
  cbn. apply IH. now apply run_op_keeps.
Qed.

Lemma consistent_empty : consistent empty_state.
Proof. repeat split; constructor. Qed.

Lemma stored_record_ok (st : state) (nm : str) (r : RecordObj) :
  consistent st -> stored st nm r -> record_ok r.
Proof.
  intros (Hh & _) (l & _ & Hl). eapply Forall_lookup_1; [exact Hh | exact Hl].
Qed.

Lemma strptime_raises (raw : str) (e : exn) :
  strptime raw = Raise e -> exists msg, e = ValueError msg.
Proof.
  assert (Hc : forall y m d e0,
             check_date_fields y m d = Raise e0 -> exists msg, e0 = ValueError msg).
  { intros y m d e0. unfold check_date_fields.
    repeat match goal with
           | |- context [if ?c then _ else _] => destruct c
           end; intros [= <-]; eauto. }
  unfold strptime.
  destruct (re_match _ raw) as [[groups rest]|]; [| intros [= <-]; eauto].
  destruct groups as [|d [|g1 [|m [|g2 [|Y [|? ?]]]]]];
    try (intros [= <-]; eauto; fail).
  destruct rest; [| intros [= <-]; eauto].
  destruct (int Y) as [y'|]; [| intros [= <-]; eauto].
  destruct (int m) as [m'|]; [| intros [= <-]; eauto].
  destruct (int d) as [d'|]; [| intros [= <-]; eauto].
  destruct (check_date_fields y' m' d') eqn:E; [discriminate|].
  intros [= <-]. now apply Hc in E.
Qed.

Lemma new_Birthday_rejects (raw : str) :
  is_ok (strptime raw) = false -> new_Birthday raw = Raise birthday_error.
Proof.
  unfold new_Birthday. destruct (strptime raw) as [t|e] eqn:E; [discriminate|].
  intros _. apply strptime_raises in E as [msg ->]. reflexivity.
Qed.

(** C4. After any sequence of operations from the empty book (methods of
    [Record] and [AddressBook], and commands), whether they returned or
    raised, the state is consistent: every phone of every stored record is a
    string of ten digits that [Phone] accepts, and every stored birthday is
    a date that [Birthday] produced from some input, an existing calendar
    day.  Construction rejects everything else: a phone that is not ten
    digits and a birthday text the parser refuses both raise. *)
Theorem stored_fields_are_valid (zero_pad : bool) (ops : list op) :
  consistent (run_ops zero_pad ops empty_state)
  /\ (forall nm r, stored (run_ops zero_pad ops empty_state) nm r ->
        Forall (fun p => ten_digits (phone_value p)
                         /\ new_Phone (phone_value p) = Ok p) (phones r)
        /\ (forall b, birthday r = Some b ->
              parsed_date (birthday_value b)
              /\ exists raw, new_Birthday raw = Ok b))
  /\ (forall raw, ~ ten_digits raw -> new_Phone raw = Raise phone_error)
  /\ (forall raw, is_ok (strptime raw) = false ->
        new_Birthday raw = Raise birthday_error).
Proof.
  pose proof (run_ops_keeps zero_pad ops empty_state consistent_empty) as Hc.
  split; [exact Hc|].
  split; [| split].
  - intros nm r Hst.
    destruct (stored_record_ok _ _ _ Hc Hst) as [Hp Hb]. split.
    + eapply Forall_impl; [exact Hp|]. intros [v] Hv. cbn in *.
      split; [exact Hv|]. apply validate_spec in Hv.
      unfold new_Phone. now rewrite Hv.
    + intros b Hbb. destruct (Hb b Hbb) as [raw Hraw].
      split; [now apply new_Birthday_parsed in Hraw | now exists raw].
  - intros raw Hbad. rewrite <- validate_spec in Hbad.
    unfold new_Phone. destruct (validate raw); [now contradiction Hbad | reflexivity].
  - apply new_Birthday_rejects.
Qed.

(** ** Parsing and printing a birthday *)

Lemma ascii_digit_range (c : N) :
  ascii_digit c = true <-> (48 <= c <= 57)%N.
Proof.
  unfold ascii_digit, in_range. rewrite andb_true_iff, !N.leb_le. reflexivity.
Qed.

Lemma in_range_true (lo hi c : N) :
  (lo <= c <= hi)%N -> in_range lo hi c = true.
Proof. intros H. unfold in_range. apply andb_true_iff. now rewrite !N.leb_le. Qed.

Lemma in_range_false (lo hi c : N) :
  (c < lo \/ hi < c)%N -> in_range lo hi c = false.
Proof.
  intros H. unfold in_range. apply andb_false_iff.
  rewrite !N.leb_gt. lia.
Qed.

(** The alternative [t] of a group is the one that matches when those
    before it fail on the input, or their continuations do. *)
Lemma re_match_alternative (before after : list token) (t : token)
  (groups : list (list token)) (s txt s' : str) (txts : list str) (rest : str) :
  Forall (fun t' : token => t' s = None) before ->
  t s = Some (txt, s') ->
  re_match groups s' = Some (txts, rest) ->
  re_match ((before ++ t :: after) :: groups) s = Some (txt :: txts, rest).
Proof.
  intros Hbefore Ht Hrest. cbn [re_match].
  induction Hbefore as [|t' before Ht' _ IH]; cbn [app first_some].
  - now rewrite Ht, Hrest.
  - now rewrite Ht'.
Qed.

Lemma int_two_digits (a b : N) :
  ascii_digit a = true -> ascii_digit b = true ->
  int [a; b] = Some (two_digits a b).
Proof.
  intros Ha Hb. unfold int, lstrip_blank.
  replace ((a =? 32)%N) with false
    by (symmetry; apply N.eqb_neq; apply ascii_digit_range in Ha; lia).
  cbn [int_digits].
  rewrite (ascii_digit_decimal a Ha), (ascii_digit_decimal b Hb).
  unfold two_digits, digit_value. f_equal; lia.
Qed.

Lemma int_four_digits (a b c d : N) :
  ascii_digit a = true -> ascii_digit b = true ->
  ascii_digit c = true -> ascii_digit d = true ->
  int [a; b; c; d] = Some (four_digits a b c d).
Proof.
  intros Ha Hb Hc Hd. unfold int, lstrip_blank.
  replace ((a =? 32)%N) with false
    by (symmetry; apply N.eqb_neq; apply ascii_digit_range in Ha; lia).
  cbn [int_digits].
  rewrite (ascii_digit_decimal a Ha), (ascii_digit_decimal b Hb),
    (ascii_digit_decimal c Hc), (ascii_digit_decimal d Hd).
  unfold four_digits, digit_value. f_equal; lia.
Qed.

Lemma match_dot (groups : list (list token)) (s' : str) txts rest :
  re_match groups s' = Some (txts, rest) ->
  re_match (re_dot :: groups) (46%N :: s') = Some ([46%N] :: txts, rest).
Proof.
  intros H.
  eapply (re_match_alternative [] [] (chars1 (N.eqb 46)));
    [constructor | reflexivity | exact H].
Qed.

Lemma match_Y (y1 y2 y3 y4 : N) :
  Forall (fun c => ascii_digit c = true) [y1; y2; y3; y4] ->
  re_match [re_Y] [y1; y2; y3; y4] = Some ([[y1; y2; y3; y4]], []).
Proof.
  intros H.
  eapply (re_match_alternative [] [] (chars4 is_digit) [] _ _ []);
    [constructor | | reflexivity].
  unfold chars4.
  repeat match goal with
         | H : Forall _ (_ :: _) |- _ =>
             let Hc := fresh "Hc" in
             apply Forall_cons in H as [Hc H];
             apply ascii_digit_is_digit in Hc; rewrite Hc
         end.
  reflexivity.
Qed.

Lemma match_m (m1 m2 : N) (groups : list (list token)) (s' : str) txts rest :
  ascii_digit m1 = true -> ascii_digit m2 = true ->
  1 <= two_digits m1 m2 <= 12 ->
  re_match groups s' = Some (txts, rest) ->
  re_match (re_m :: groups) (m1 :: m2 :: s') = Some ([m1; m2] :: txts, rest).
Proof.
  intros H1 H2 Hm Hrest.
  apply ascii_digit_range in H1, H2. unfold two_digits, digit_value in Hm.
  destruct (decide (m1 = 49%N)) as [-> | Hne].
  - eapply (re_match_alternative []
             [chars2 (N.eqb 48) (in_range 49 57); chars1 (in_range 49 57)]
             (chars2 (N.eqb 49) (in_range 48 50)));
      [constructor | | exact Hrest].
    unfold chars2. rewrite (in_range_true 48 50 m2) by lia. reflexivity.
  - assert (m1 = 48%N) as -> by lia.
    eapply (re_match_alternative [chars2 (N.eqb 49) (in_range 48 50)]
             [chars1 (in_range 49 57)]
             (chars2 (N.eqb 48) (in_range 49 57)));
      [repeat constructor | | exact Hrest].
    unfold chars2. rewrite (in_range_true 49 57 m2) by lia. reflexivity.
Qed.

Lemma match_d (d1 d2 : N) (groups : list (list token)) (s' : str) txts rest :
  ascii_digit d1 = true -> ascii_digit d2 = true ->
  1 <= two_digits d1 d2 <= 31 ->
  re_match groups s' = Some (txts, rest) ->
  re_match (re_d :: groups) (d1 :: d2 :: s') = Some ([d1; d2] :: txts, rest).
Proof.
  intros H1 H2 Hd Hrest.
  pose proof (ascii_digit_is_digit d2 H2) as Hdig.
  apply ascii_digit_range in H1, H2. unfold two_digits, digit_value in Hd.
  destruct (decide (d1 = 51%N)) as [-> | Hne3].
  - eapply (re_match_alternative []
             [chars2 (in_range 49 50) is_digit;
              chars2 (N.eqb 48) (in_range 49 57);
              chars1 (in_range 49 57);
              chars2 (N.eqb 32) (in_range 49 57)]
             (chars2 (N.eqb 51) (in_range 48 49)));
      [constructor | | exact Hrest].
    unfold chars2. rewrite (in_range_true 48 49 d2) by lia. reflexivity.
  - destruct (decide (d1 = 48%N)) as [-> | Hne0].
    + eapply (re_match_alternative
               [chars2 (N.eqb 51) (in_range 48 49);
                chars2 (in_range 49 50) is_digit]
               [chars1 (in_range 49 57);
                chars2 (N.eqb 32) (in_range 49 57)]
               (chars2 (N.eqb 48) (in_range 49 57)));
        [repeat constructor | | exact Hrest].
      unfold chars2. rewrite (in_range_true 49 57 d2) by lia. reflexivity.
    + eapply (re_match_alternative
               [chars2 (N.eqb 51) (in_range 48 49)]
               [chars2 (N.eqb 48) (in_range 49 57);
                chars1 (in_range 49 57);
                chars2 (N.eqb 32) (in_range 49 57)]
               (chars2 (in_range 49 50) is_digit));
        [repeat constructor | | exact Hrest].
      * unfold chars2.
        replace ((51 =? d1)%N) with false
          by (symmetry; apply N.eqb_neq; congruence).
        reflexivity.
      * unfold chars2. rewrite (in_range_true 49 50 d1) by lia.
        now rewrite Hdig.
Qed.

Lemma match_dmY (d1 d2 m1 m2 y1 y2 y3 y4 : N) :
  Forall (fun c => ascii_digit c = true) [d1; d2; m1; m2; y1; y2; y3; y4] ->
  1 <= two_digits d1 d2 <= 31 ->
  1 <= two_digits m1 m2 <= 12 ->
  re_match [re_d; re_dot; re_m; re_dot; re_Y]
    (dmY_text d1 d2 m1 m2 y1 y2 y3 y4)
  = Some ([[d1; d2]; [46%N]; [m1; m2]; [46%N]; [y1; y2; y3; y4]], []).
Proof.
  intros H Hd Hm.
  apply Forall_cons in H as [Hd1 H]. apply Forall_cons in H as [Hd2 H].
  apply Forall_cons in H as [Hm1 H]. apply Forall_cons in H as [Hm2 H].
  unfold dmY_text.
  apply match_d; [assumption.. |].
  apply match_dot. apply match_m; [assumption.. |].
  apply match_dot. now apply match_Y.
Qed.

Lemma div_mod_10 (a b : Z) :
  0 <= b < 10 -> (10 * a + b) / 10 = a /\ (10 * a + b) mod 10 = b.
Proof. intros H. Z.div_mod_to_equations. lia. Qed.

Lemma digit_char (c : N) :
  ascii_digit c = true ->
  0 <= digit_value c < 10 /\ Z.to_N (48 + digit_value c) = c.
Proof.
  intros H. apply ascii_digit_range in H. unfold digit_value. lia.
Qed.

Lemma fmt2_two_digits (a b : N) :
  ascii_digit a = true -> ascii_digit b = true ->
  fmt2 (two_digits a b) = [a; b].
Proof.
  intros Ha Hb.
  destruct (digit_char a Ha) as [Ra Ea], (digit_char b Hb) as [Rb Eb].
  unfold fmt2, two_digits.
  destruct (div_mod_10 (digit_value a) (digit_value b) Rb) as [-> ->].
  rewrite Z.mod_small by lia. now rewrite Ea, Eb.
Qed.

(** The four decimal digits of a number below 10000. *)
Lemma four_digits_split (a b c d : N) :
  ascii_digit a = true -> ascii_digit b = true ->
  ascii_digit c = true -> ascii_digit d = true ->
  let y := four_digits a b c d in
  y mod 10 = digit_value d
  /\ y / 10 = 100 * digit_value a + 10 * digit_value b + digit_value c
  /\ (y / 10) mod 10 = digit_value c
  /\ y / 10 / 10 = 10 * digit_value a + digit_value b
  /\ (y / 10 / 10) mod 10 = digit_value b
  /\ y / 10 / 10 / 10 = digit_value a
  /\ (y / 10 / 10 / 10) mod 10 = digit_value a
  /\ y / 10 / 10 / 10 / 10 = 0.
Proof.
  intros Ha Hb Hc Hd.
  destruct (digit_char a Ha) as [Ra _], (digit_char b Hb) as [Rb _],
    (digit_char c Hc) as [Rc _], (digit_char d Hd) as [Rd _].
  cbv zeta. unfold four_digits.
  set (A := digit_value a) in *. set (B := digit_value b) in *.
  set (C := digit_value c) in *. set (D := digit_value d) in *.
  replace (1000 * A + 100 * B + 10 * C + D)
    with (10 * (100 * A + 10 * B + C) + D) by lia.
  destruct (div_mod_10 (100 * A + 10 * B + C) D Rd) as [-> ->].
  replace (100 * A + 10 * B + C) with (10 * (10 * A + B) + C) by lia.
  destruct (div_mod_10 (10 * A + B) C Rc) as [-> ->].
  destruct (div_mod_10 A B Rb) as [-> ->].
  rewrite (Z.mod_small A 10) by lia. rewrite (Z.div_small A 10) by lia.
  repeat split; lia.
Qed.

Lemma fmtY_four_digits (zero_pad : bool) (a b c d : N) :
  ascii_digit a = true -> ascii_digit b = true ->
  ascii_digit c = true -> ascii_digit d = true ->
  zero_pad = true \/ a <> 48%N ->
  fmtY zero_pad (four_digits a b c d) = [a; b; c; d].
Proof.
  intros Ha Hb Hc Hd Hpad.
  destruct (four_digits_split a b c d Ha Hb Hc Hd)
    as (E0 & E1 & E1m & E2 & E2m & E3 & E3m & E4).
  destruct (digit_char a Ha) as [Ra Ea], (digit_char b Hb) as [Rb Eb],
    (digit_char c Hc) as [Rc Ec], (digit_char d Hd) as [Rd Ed].
  destruct zero_pad.
  - unfold fmtY.
    replace (four_digits a b c d / 1000)
      with (four_digits a b c d / 10 / 10 / 10)
      by (rewrite !Z.div_div by lia; reflexivity).
    replace (four_digits a b c d / 100)
      with (four_digits a b c d / 10 / 10)
      by (rewrite !Z.div_div by lia; reflexivity).
    rewrite E0, E1m, E2m, E3m. now rewrite Ea, Eb, Ec, Ed.
  - destruct Hpad as [Hpad|Hpad]; [discriminate|].
    assert (Hge : 1000 <= four_digits a b c d).
    { apply ascii_digit_range in Ha. unfold four_digits, digit_value in *. lia. }
    unfold fmtY, str_of_Z.
    replace (four_digits a b c d <? 0) with false
      by (symmetry; apply Z.ltb_ge; lia).
    pose proof (Z.log2_le_mono 1000 (four_digits a b c d) Hge) as Hlog.
    change (Z.log2 1000) with 9 in Hlog.
    destruct (Z.to_nat (Z.log2 (four_digits a b c d)))
      as [|[|[|fuel]]] eqn:Efuel; try lia.
    cbn [digits_fuel].
    rewrite E4, E3m, E3, E2m, E2, E1m, E1, E0.
    replace (100 * digit_value a + 10 * digit_value b + digit_value c =? 0)
      with false by (symmetry; apply Z.eqb_neq; unfold digit_value in *; lia).
    replace (10 * digit_value a + digit_value b =? 0)
      with false by (symmetry; apply Z.eqb_neq; unfold digit_value in *; lia).
    replace (digit_value a =? 0)
      with false by (symmetry; apply Z.eqb_neq; unfold digit_value in *; lia).
    cbn [Z.eqb]. now rewrite Ea, Eb, Ec, Ed.
Qed.

Lemma valid_date_bounds (y m d : Z) :
  valid_date y m d = true ->
  1 <= y <= 9999 /\ 1 <= m <= 12 /\ 1 <= d <= days_in_month y m
  /\ days_in_month y m <= 31.
Proof.
  unfold valid_date, MINYEAR, MAXYEAR. rewrite !andb_true_iff, !Z.leb_le.
  intros H. repeat split; try lia.
  assert (Hm : m = 1 \/ m = 2 \/ m = 3 \/ m = 4 \/ m = 5 \/ m = 6 \/ m = 7
               \/ m = 8 \/ m = 9 \/ m = 10 \/ m = 11 \/ m = 12) by lia.
  unfold days_in_month.
  repeat (destruct Hm as [-> | Hm]); try subst m;
    destruct (is_leap y); apply Z.leb_le; reflexivity.
Qed.

Lemma check_date_fields_valid (y m d : Z) :
  valid_date y m d = true -> check_date_fields y m d = Ok tt.
Proof.
  unfold valid_date, check_date_fields. rewrite !andb_true_iff.
  intros [[[[[-> ->] ->] ->] ->] ->]. reflexivity.
Qed.

(** C8, for the dates that exist.  A text [DD.MM.YYYY] of ASCII digits whose
    day, month and year name an existing calendar day (month 1 to 12, day 1
    to the length of that month in that year, year 1 to 9999) is accepted by
    [Birthday], which stores exactly that day, and the stored date prints
    back to the same text; for a year below 1000 the latter needs a [%Y]
    that pads with zeros. *)
Theorem Birthday_roundtrip_existing_date
  (zero_pad : bool) (d1 d2 m1 m2 y1 y2 y3 y4 : N) :
  Forall (fun c => ascii_digit c = true) [d1; d2; m1; m2; y1; y2; y3; y4] ->
  valid_date (four_digits y1 y2 y3 y4) (two_digits m1 m2) (two_digits d1 d2)
    = true ->
  new_Birthday (dmY_text d1 d2 m1 m2 y1 y2 y3 y4)
    = Ok (mkBirthday (mkdatetime (four_digits y1 y2 y3 y4) (two_digits m1 m2)
                        (two_digits d1 d2) 0 0 0 0))
  /\ (zero_pad = true \/ y1 <> 48%N ->
      strftime zero_pad
        (mkdatetime (four_digits y1 y2 y3 y4) (two_digits m1 m2)
           (two_digits d1 d2) 0 0 0 0)
      = dmY_text d1 d2 m1 m2 y1 y2 y3 y4).
Proof.
  intros Hdig Hvalid.
  destruct (valid_date_bounds _ _ _ Hvalid) as (Hy & Hm & Hd & Hdim).
  pose proof (match_dmY d1 d2 m1 m2 y1 y2 y3 y4 Hdig ltac:(lia) Hm) as Hre.
  apply Forall_cons in Hdig as [Hd1 Hdig]. apply Forall_cons in Hdig as [Hd2 Hdig].
  apply Forall_cons in Hdig as [Hm1 Hdig]. apply Forall_cons in Hdig as [Hm2 Hdig].
  apply Forall_cons in Hdig as [Hy1 Hdig]. apply Forall_cons in Hdig as [Hy2 Hdig].
  apply Forall_cons in Hdig as [Hy3 Hdig]. apply Forall_cons in Hdig as [Hy4 _].
  split.
  - unfold new_Birthday, strptime. rewrite Hre.
    rewrite int_four_digits, !int_two_digits by assumption.
    now rewrite check_date_fields_valid.
  - intros Hpad. unfold strftime. cbn [day month year].
    rewrite !fmt2_two_digits, fmtY_four_digits by assumption.
    reflexivity.
Qed.

(** ** The query against the specification's window *)

Lemma replace_year_valid (t : datetime) (y : Z) :
  valid_date y (month t) (day t) = true ->
  replace_year t y
    = Ok (mkdatetime y (month t) (day t)
            (hour t) (minute t) (second t) (microsecond t)).
Proof.
  intros H. unfold replace_year. now rewrite check_date_fields_valid.
Qed.

Lemma upcoming_one_projectable (today next_week : datetime) (r : RecordObj) :
  projectable today r ->
  upcoming_one today next_week r
    = Ok (if in_window today next_week r
          then Some (name_value (name r)) else None).
Proof.
  unfold projectable, upcoming_one, in_window. intros H.
  destruct (birthday r) as [b|]; [| reflexivity].
  destruct (H b eq_refl) as [H1 H2].
  rewrite (replace_year_valid _ _ H1).
  fold (this_year today (birthday_value b)).
  unfold projected in *.
  destruct (dt_lt (this_year today (birthday_value b)) today).
  - cbn [year] in H2.
    rewrite (replace_year_valid (this_year today (birthday_value b)) _ H2).
    cbn [this_year month day hour minute second microsecond].
    now destruct (_ && _).
  - now destruct (_ && _).
Qed.

Lemma upcoming_loop_projectable (today next_week : datetime)
  (records : list RecordObj) (acc : list str) :
  Forall (projectable today) records ->
  upcoming_loop today next_week records acc
    = Ok (acc ++ names_in_window today next_week records).
Proof.
  intros H. revert acc.
  induction H as [|r records Hr _ IH]; intros acc; cbn [upcoming_loop].
  - unfold names_in_window. cbn. now rewrite app_nil_r.
  - rewrite (upcoming_one_projectable _ _ _ Hr).
    unfold names_in_window in *. cbn [List.filter].
    destruct (in_window today next_week r); cbn [List.map].
    + rewrite IH. now rewrite <- app_assoc.
    + apply IH.
Qed.

(** Where every stored birthday can be projected, the query returns, in the
    order of the book, exactly the names of the records whose projected
    birthday lies in the window from [today] to [today + 7 days]. *)
Lemma get_upcoming_birthdays_window (st : state) (today next_week : datetime) :
  plus_days today 7 = Ok next_week ->
  Forall (projectable today) (values st) ->
  get_upcoming_birthdays today st
    = (Ok (names_in_window today next_week (values st)), st).
Proof.
  intros Hnw Hall. rewrite get_upcoming_birthdays_eq, Hnw.
  now rewrite upcoming_loop_projectable.
Qed.

Lemma names_in_window_elem (today next_week : datetime)
  (records : list RecordObj) (nm : str) :
  nm ∈ names_in_window today next_week records <->
  exists r, r ∈ records /\ name_value (name r) = nm
            /\ in_window today next_week r = true.
Proof.
  unfold names_in_window. rewrite list_elem_of_In, List.in_map_iff. split.
  - intros (r & Hnm & Hin). apply List.filter_In in Hin as [Hin Hw].
    exists r. now rewrite list_elem_of_In.
  - intros (r & Hin & Hnm & Hw). exists r. split; [exact Hnm|].
    apply List.filter_In. now rewrite <- list_elem_of_In.
Qed.

(** ** Comparing datetimes, and a few days ahead *)

Lemma dt_lt_stamp (a b : datetime) :
  fields_bounded a -> fields_bounded b ->
  dt_lt a b = (stamp a <? stamp b).
Proof.
  intros (Ha1 & Ha2 & Ha3 & Ha4 & Ha5 & Ha6) (Hb1 & Hb2 & Hb3 & Hb4 & Hb5 & Hb6).
  unfold dt_lt, dt_key, stamp.
  repeat
    (cbn [lex_lt];
     match goal with
     | |- ((?x <? ?y) || ((?x =? ?y) && _)) = _ =>
         destruct (Z.ltb_spec x y);
         [ cbn [orb]; symmetry; apply Z.ltb_lt; lia
         | destruct (Z.eqb_spec x y);
           [ cbn [orb andb]
           | cbn [orb andb]; symmetry; apply Z.ltb_ge; lia ] ]
     end).
  cbn [lex_lt]. symmetry. apply Z.ltb_ge. lia.
Qed.

Lemma dt_le_stamp (a b : datetime) :
  fields_bounded a -> fields_bounded b ->
  dt_le a b = (stamp a <=? stamp b).
Proof.
  intros Ha Hb. unfold dt_le. rewrite (dt_lt_stamp b a Hb Ha).
  destruct (Z.ltb_spec (stamp b) (stamp a)), (Z.leb_spec (stamp a) (stamp b));
    cbn; lia.
Qed.

Lemma days_in_month_bounds (y m : Z) :
  1 <= m <= 12 -> 28 <= days_in_month y m <= 31.
Proof.
  intros Hm.
  assert (H : m = 1 \/ m = 2 \/ m = 3 \/ m = 4 \/ m = 5 \/ m = 6 \/ m = 7
              \/ m = 8 \/ m = 9 \/ m = 10 \/ m = 11 \/ m = 12) by lia.
  unfold days_in_month.
  repeat (destruct H as [-> | H]); try subst m;
    destruct (is_leap y); split; apply Z.leb_le; reflexivity.
Qed.

Lemma days_in_december (y : Z) : days_in_month y 12 = 31.
Proof. reflexivity. Qed.

Lemma days_in_january (y : Z) : days_in_month y 1 = 31.
Proof. reflexivity. Qed.

(** Up to 28 days ahead at most one end of month is crossed, so the date
    has a closed form. *)
Lemma add_days_closed_form (n : nat) (y m d : Z) :
  (n <= 28)%nat ->
  1 <= m <= 12 -> 1 <= d <= days_in_month y m ->
  add_days n (y, m, d) =
    if d + Z.of_nat n <=? days_in_month y m then (y, m, d + Z.of_nat n)
    else if m <? 12 then (y, m + 1, d + Z.of_nat n - days_in_month y m)
    else (y + 1, 1, d + Z.of_nat n - days_in_month y m).
Proof.
  revert y m d. induction n as [|n IH]; intros y m d Hn Hm Hd.
  - cbn [add_days]. replace (d + Z.of_nat 0) with d by lia.
    now replace (d <=? days_in_month y m) with true
      by (symmetry; apply Z.leb_le; lia).
  - cbn [add_days]. unfold next_day.
    pose proof (days_in_month_bounds y m Hm) as Hdim.
    destruct (Z.ltb_spec d (days_in_month y m)) as [Hlt|Hge].
    + rewrite IH by lia.
      replace (d + 1 + Z.of_nat n) with (d + Z.of_nat (S n)) by lia.
      reflexivity.
    + assert (d = days_in_month y m) as Hlast by lia.
      replace (d + Z.of_nat (S n) <=? days_in_month y m) with false
        by (symmetry; apply Z.leb_gt; lia).
      destruct (Z.ltb_spec m 12) as [Hm12|Hm12].
      * pose proof (days_in_month_bounds y (m + 1) ltac:(lia)) as Hdim'.
        rewrite IH by lia.
        replace (1 + Z.of_nat n <=? days_in_month y (m + 1)) with true
          by (symmetry; apply Z.leb_le; lia).
        f_equal. lia.
      * rewrite IH by (rewrite ?days_in_january; lia).
        rewrite days_in_january.
        replace (1 + Z.of_nat n <=? 31) with true
          by (symmetry; apply Z.leb_le; lia).
        f_equal. lia.
Qed.

Lemma valid_date_intro (y m d : Z) :
  1 <= y <= 9999 -> 1 <= m <= 12 -> 1 <= d <= days_in_month y m ->
  valid_date y m d = true.
Proof.
  intros Hy Hm Hd. unfold valid_date, MINYEAR, MAXYEAR.
  rewrite !andb_true_iff, !Z.leb_le. lia.
Qed.

Lemma valid_datetime_bounds (t : datetime) :
  valid_datetime t = true ->
  1 <= year t <= 9999 /\ 1 <= month t <= 12
  /\ 1 <= day t <= days_in_month (year t) (month t)
  /\ fields_bounded t.
Proof.
  unfold valid_datetime, valid_time, fields_bounded.
  rewrite !andb_true_iff, !Z.leb_le, !Z.ltb_lt.
  intros [Hd Ht]. apply valid_date_bounds in Hd. lia.
Qed.

(** [today + 7 days] when it exists. *)
Lemma plus_days_closed_form (today t : datetime) (n : nat) :
  (n <= 28)%nat ->
  valid_datetime today = true ->
  plus_days today n = Ok t ->
  date_of t = add_days n (date_of today)
  /\ year t <= 9999
  /\ hour t = hour today /\ minute t = minute today
  /\ second t = second today /\ microsecond t = microsecond today.
Proof.
  intros Hn Hv. unfold plus_days, date_of.
  destruct (add_days n (year today, month today, day today)) as [[y m] d].
  destruct (Z.leb_spec y MAXYEAR) as [Hy|Hy]; [| discriminate].
  intros [= <-]. cbn. unfold MAXYEAR in Hy. now repeat split.
Qed.

(** Decides the comparisons of a goal once the fields are known. *)
Ltac by_stamps :=
  unfold dt_le, dt_lt;
  fold (dt_lt) in *;
  repeat match goal with
         | |- context [lex_lt (dt_key ?a) (dt_key ?b)] =>
             change (lex_lt (dt_key a) (dt_key b)) with (dt_lt a b);
             rewrite (dt_lt_stamp a b)
               by (unfold fields_bounded; cbn; lia)
         end;
  unfold stamp; cbn [year month day hour minute second microsecond];
  repeat match goal with
         | |- context [?x <? ?y] => destruct (Z.ltb_spec x y); try lia
         end;
  cbn [negb andb orb]; try reflexivity; try lia.

(** From one year to the next only February changes its length. *)
Lemma days_in_month_next_year (y m : Z) :
  1 <= m <= 12 ->
  days_in_month (y + 1) m = days_in_month y m
  \/ (m = 2 /\ days_in_month y m = 29 /\ days_in_month (y + 1) m = 28)
  \/ (m = 2 /\ days_in_month y m = 28 /\ days_in_month (y + 1) m = 29).
Proof.
  intros Hm. unfold days_in_month.
  destruct (Z.eqb_spec m 2) as [-> | Hne]; cbn [andb].
  - destruct (is_leap y), (is_leap (y + 1)); cbn; auto.
  - now left.
Qed.

(** ** When the query returns *)

Lemma check_date_fields_ok_iff (y m d : Z) :
  is_ok (check_date_fields y m d) = valid_date y m d.
Proof.
  unfold check_date_fields, valid_date.
  destruct (MINYEAR <=? y), (y <=? MAXYEAR), (1 <=? m), (m <=? 12),
    (1 <=? d), (d <=? days_in_month y m); reflexivity.
Qed.

Lemma replace_year_ok_iff (t : datetime) (y : Z) :
  is_ok (replace_year t y) = valid_date y (month t) (day t).
Proof.
  unfold replace_year. rewrite <- check_date_fields_ok_iff.
  now destruct (check_date_fields y (month t) (day t)).
Qed.

(** The loop body returns exactly for the records whose projection goes
    through existing dates. *)
Lemma upcoming_one_ok_iff_projectable (today next_week : datetime) (r : RecordObj) :
  is_ok (upcoming_one today next_week r) = true <-> projectable today r.
Proof.
  split.
  - unfold upcoming_one, projectable, projected.
    destruct (birthday r) as [b|]; [| discriminate].
    intros Hok b' [= <-].
    pose proof (replace_year_ok_iff (birthday_value b) (year today)) as E1.
    destruct (replace_year (birthday_value b) (year today)) as [t|e] eqn:Et;
      [| discriminate].
    cbn [is_ok] in E1. split; [now symmetry|].
    assert (Ht : t = this_year today (birthday_value b)).
    { unfold replace_year in Et.
      destruct (check_date_fields _ _ _); now inversion Et. }
    subst t. destruct (dt_lt (this_year today (birthday_value b)) today).
    + pose proof (replace_year_ok_iff (this_year today (birthday_value b))
                    (year today + 1)) as E2.
      destruct (replace_year _ (year today + 1)); [| discriminate].
      cbn [is_ok this_year month day year] in *. now symmetry.
    + cbn [this_year year]. now symmetry.
  - intros H. now rewrite (upcoming_one_projectable _ _ _ H).
Qed.

(** Where every stored birthday can be projected, a name is returned exactly
    when a stored record of that name has its projected birthday in the
    window. *)
Lemma get_upcoming_birthdays_names (st : state) (today next_week : datetime) :
  plus_days today 7 = Ok next_week ->
  Forall (projectable today) (values st) ->
  exists upcoming,
    get_upcoming_birthdays today st = (Ok upcoming, st)
    /\ forall nm, nm ∈ upcoming <->
         exists r, r ∈ values st /\ name_value (name r) = nm
                   /\ in_window today next_week r = true.
Proof.
  intros Hnw Hall.
  exists (names_in_window today next_week (values st)). split.
  - now apply get_upcoming_birthdays_window.
  - intros nm. apply names_in_window_elem.
Qed.

(** One record that cannot be projected is enough for the query to raise. *)
Lemma get_upcoming_birthdays_not_projectable
  (st : state) (today next_week : datetime) (nm : str) (r : RecordObj) :
  plus_days today 7 = Ok next_week ->
  stored st nm r ->
  ~ projectable today r ->
  exists msg, get_upcoming_birthdays today st = (Raise (ValueError msg), st).
Proof.
  intros Hnw Hst Hnp. rewrite get_upcoming_birthdays_eq, Hnw.
  destruct (upcoming_one today next_week r) as [o|e] eqn:E.
  - contradiction Hnp. apply (upcoming_one_ok_iff_projectable today next_week).
    now rewrite E.
  - destruct (upcoming_loop_raises today next_week (values st) r e
                (stored_in_values _ _ _ Hst) E []) as [msg ->].
    now exists msg.
Qed.

(** ** Birthdays around today

    [today] is any valid reading of the clock for which [today + 7 days]
    exists, and the record's birthday is a date at midnight, as the parser
    produces it. *)
Section AroundToday.
Variables (today next_week : datetime) (r : RecordObj) (byear bm bd : Z).
Hypothesis Htoday : valid_datetime today = true.
Hypothesis Hnw : plus_days today 7 = Ok next_week.
Hypothesis Hb : birthday r = Some (mkBirthday (mkdatetime byear bm bd 0 0 0 0)).

(** A birthday whose month and day are those of the day three days after
    today is projected to that day and is in the window. *)
Lemma birthday_three_days_ahead_included (y' : Z) :
  add_days 3 (date_of today) = (y', bm, bd) ->
  projectable today r /\ in_window today next_week r = true.
Proof.
  intros H3.
  destruct (valid_datetime_bounds today Htoday) as (Hy & Hm & Hd & Hf).
  destruct (plus_days_closed_form today next_week 7 ltac:(lia) Htoday Hnw)
    as (Hdate & Hy7 & Hh & Hmi & Hs & Hus).
  pose proof (days_in_month_bounds (year today) (month today) Hm) as Hdim.
  unfold date_of in *.
  rewrite add_days_closed_form in Hdate, H3 by (assumption || lia).
  unfold fields_bounded in Hf.
  destruct today as [y m d H M S us], next_week as [y7 m7 d7 H7 M7 S7 us7].
  cbn [year month day hour minute second microsecond] in *. subst H7 M7 S7 us7.
  change (Z.of_nat 3) with 3 in *. change (Z.of_nat 7) with 7 in *.
  assert (Hproj : projected (mkdatetime y m d H M S us) (mkdatetime byear bm bd 0 0 0 0)
                  = mkdatetime y' bm bd 0 0 0 0).
  { unfold projected, this_year. cbn [year month day hour minute second microsecond].
    destruct (Z.leb_spec (d + 3) (days_in_month y m));
      [| destruct (Z.ltb_spec m 12)]; injection H3 as <- <- <-; by_stamps. }
  split.
  - intros b' Hb'. rewrite Hb in Hb'. injection Hb' as <-. cbn [birthday_value]. rewrite Hproj.
    cbn [birthday_value year month day].
    destruct (Z.leb_spec (d + 3) (days_in_month y m));
      [| destruct (Z.ltb_spec m 12)]; injection H3 as <- <- <-.
    + split; apply valid_date_intro; lia.
    + pose proof (days_in_month_bounds y (m + 1) ltac:(lia)).
      split; apply valid_date_intro; lia.
    + assert (m = 12) as -> by lia. rewrite days_in_december in *.
      replace (d + 7 <=? 31) with false in Hdate by (symmetry; apply Z.leb_gt; lia).
      cbn in Hdate. injection Hdate as -> -> ->.
      split; apply valid_date_intro; rewrite ?days_in_january; lia.
  - unfold in_window. rewrite Hb. cbn [birthday_value]. rewrite Hproj.
    destruct (Z.leb_spec (d + 3) (days_in_month y m));
      [| destruct (Z.ltb_spec m 12)]; injection H3 as <- <- <-;
      (destruct (Z.leb_spec (d + 7) (days_in_month y m));
       [| destruct (Z.ltb_spec m 12)]); injection Hdate as -> -> ->;
      try lia; by_stamps.
Qed.

(** Eight days after today is past the window. *)
Lemma birthday_eight_days_ahead_excluded (y' : Z) :
  year today < 9999 ->
  add_days 8 (date_of today) = (y', bm, bd) ->
  projectable today r /\ in_window today next_week r = false.
Proof.
  intros Hlast H8.
  destruct (valid_datetime_bounds today Htoday) as (Hy & Hm & Hd & Hf).
  destruct (plus_days_closed_form today next_week 7 ltac:(lia) Htoday Hnw)
    as (Hdate & Hy7 & Hh & Hmi & Hs & Hus).
  pose proof (days_in_month_bounds (year today) (month today) Hm) as Hdim.
  unfold date_of in *.
  rewrite add_days_closed_form in Hdate, H8 by (assumption || lia).
  unfold fields_bounded in Hf.
  destruct today as [y m d H M S us], next_week as [y7 m7 d7 H7 M7 S7 us7].
  cbn [year month day hour minute second microsecond] in *. subst H7 M7 S7 us7.
  change (Z.of_nat 8) with 8 in *. change (Z.of_nat 7) with 7 in *.
  assert (Hproj : projected (mkdatetime y m d H M S us) (mkdatetime byear bm bd 0 0 0 0)
                  = mkdatetime y' bm bd 0 0 0 0).
  { unfold projected, this_year. cbn [year month day hour minute second microsecond].
    destruct (Z.leb_spec (d + 8) (days_in_month y m));
      [| destruct (Z.ltb_spec m 12)]; injection H8 as <- <- <-; by_stamps. }
  split.
  - intros b' Hb'. rewrite Hb in Hb'. injection Hb' as <-. cbn [birthday_value]. rewrite Hproj.
    cbn [birthday_value year month day].
    destruct (Z.leb_spec (d + 8) (days_in_month y m));
      [| destruct (Z.ltb_spec m 12)]; injection H8 as <- <- <-.
    + split; apply valid_date_intro; lia.
    + pose proof (days_in_month_bounds y (m + 1) ltac:(lia)).
      split; apply valid_date_intro; lia.
    + assert (m = 12) as -> by lia. rewrite days_in_december in *.
      split; apply valid_date_intro; rewrite ?days_in_january; lia.
  - unfold in_window. rewrite Hb. cbn [birthday_value]. rewrite Hproj.
    destruct (Z.leb_spec (d + 8) (days_in_month y m));
      [| destruct (Z.ltb_spec m 12)]; injection H8 as <- <- <-;
      (destruct (Z.leb_spec (d + 7) (days_in_month y m));
       [| destruct (Z.ltb_spec m 12)]); injection Hdate as -> -> ->;
      try lia; by_stamps.
Qed.

(** A birthday that was yesterday, in this year, is moved to next year and
    left out, unless it is a 29 February, which next year does not have. *)
Lemma birthday_yesterday_excluded :
  year today < 9999 ->
  1 <= bm <= 12 -> 1 <= bd <= days_in_month (year today) bm ->
  next_day (year today, bm, bd) = date_of today ->
  ~ (bm = 2 /\ bd = 29) ->
  projectable today r
  /\ dt_lt (this_year today (mkdatetime byear bm bd 0 0 0 0)) today = true
  /\ in_window today next_week r = false.
Proof.
  intros Hlast Hbm Hbd Hnext Hleap.
  destruct (valid_datetime_bounds today Htoday) as (Hy & Hm & Hd & Hf).
  destruct (plus_days_closed_form today next_week 7 ltac:(lia) Htoday Hnw)
    as (Hdate & Hy7 & Hh & Hmi & Hs & Hus).
  pose proof (days_in_month_bounds (year today) (month today) Hm) as Hdim.
  pose proof (days_in_month_bounds (year today) bm Hbm) as Hbdim.
  pose proof (days_in_month_next_year (year today) bm Hbm) as Hnextdim.
  unfold date_of in *.
  rewrite add_days_closed_form in Hdate by (assumption || lia).
  unfold fields_bounded in Hf. unfold next_day in Hnext.
  destruct today as [y m d H M S us], next_week as [y7 m7 d7 H7 M7 S7 us7].
  cbn [year month day hour minute second microsecond] in *. subst H7 M7 S7 us7.
  change (Z.of_nat 7) with 7 in *.
  assert (Hlt : dt_lt (this_year (mkdatetime y m d H M S us)
                         (mkdatetime byear bm bd 0 0 0 0))
                  (mkdatetime y m d H M S us) = true).
  { unfold this_year. cbn [year month day hour minute second microsecond].
    destruct (Z.ltb_spec bd (days_in_month y bm));
      [| destruct (Z.ltb_spec bm 12)];
      [injection Hnext as <- <- | injection Hnext as <- <- | injection Hnext; lia];
      by_stamps. }
  assert (Hproj : projected (mkdatetime y m d H M S us) (mkdatetime byear bm bd 0 0 0 0)
                  = mkdatetime (y + 1) bm bd 0 0 0 0).
  { unfold projected. now rewrite Hlt. }
  split; [| split; [exact Hlt|]].
  - intros b' Hb'. rewrite Hb in Hb'. injection Hb' as <-. cbn [birthday_value]. rewrite Hproj.
    cbn [birthday_value year month day].
    split; apply valid_date_intro; lia.
  - unfold in_window. rewrite Hb. cbn [birthday_value]. rewrite Hproj.
    destruct (Z.ltb_spec bd (days_in_month y bm));
      [| destruct (Z.ltb_spec bm 12)];
      [injection Hnext as <- <- | injection Hnext as <- <- | injection Hnext; lia];
      (match type of Hdate with
       | _ = (if ?a <=? ?b then _ else if ?m <? 12 then _ else _) =>
           destruct (Z.leb_spec a b); [| destruct (Z.ltb_spec m 12)]
       end); injection Hdate as -> -> ->;
      try lia; by_stamps.
Qed.

(** A birthday on today's date is at midnight, hence before [today] as soon
    as the clock is past midnight: it is moved to next year and left out. *)
Lemma birthday_today_after_midnight_excluded :
  year today < 9999 ->
  bm = month today -> bd = day today ->
  0 < hour today \/ 0 < minute today \/ 0 < second today
  \/ 0 < microsecond today ->
  ~ (bm = 2 /\ bd = 29) ->
  projectable today r
  /\ dt_lt (this_year today (mkdatetime byear bm bd 0 0 0 0)) today = true
  /\ in_window today next_week r = false.
Proof.
  intros Hlast -> -> Hclock Hleap.
  destruct (valid_datetime_bounds today Htoday) as (Hy & Hm & Hd & Hf).
  destruct (plus_days_closed_form today next_week 7 ltac:(lia) Htoday Hnw)
    as (Hdate & Hy7 & Hh & Hmi & Hs & Hus).
  pose proof (days_in_month_bounds (year today) (month today) Hm) as Hdim.
  pose proof (days_in_month_next_year (year today) (month today) Hm) as Hnextdim.
  unfold date_of in *.
  rewrite add_days_closed_form in Hdate by (assumption || lia).
  unfold fields_bounded in Hf.
  destruct today as [y m d H M S us], next_week as [y7 m7 d7 H7 M7 S7 us7].
  cbn [year month day hour minute second microsecond] in *. subst H7 M7 S7 us7.
  change (Z.of_nat 7) with 7 in *.
  assert (Hlt : dt_lt (this_year (mkdatetime y m d H M S us)
                         (mkdatetime byear m d 0 0 0 0))
                  (mkdatetime y m d H M S us) = true).
  { unfold this_year. cbn [year month day hour minute second microsecond].
    by_stamps. }
  assert (Hproj : projected (mkdatetime y m d H M S us) (mkdatetime byear m d 0 0 0 0)
                  = mkdatetime (y + 1) m d 0 0 0 0).
  { unfold projected. now rewrite Hlt. }
  split; [| split; [exact Hlt|]].
  - intros b' Hb'. rewrite Hb in Hb'. injection Hb' as <-. cbn [birthday_value]. rewrite Hproj.
    cbn [birthday_value year month day].
    split; apply valid_date_intro; lia.
  - unfold in_window. rewrite Hb. cbn [birthday_value]. rewrite Hproj.
    match type of Hdate with
    | _ = (if ?a <=? ?b then _ else if ?m <? 12 then _ else _) =>
        destruct (Z.leb_spec a b); [| destruct (Z.ltb_spec m 12)]
    end; injection Hdate as -> -> ->; try lia; by_stamps.
Qed.

(** Only at midnight sharp is today's birthday in the window. *)
Lemma birthday_today_at_midnight_included :
  bm = month today -> bd = day today ->
  hour today = 0 -> minute today = 0 -> second today = 0 ->
  microsecond today = 0 ->
  projectable today r /\ in_window today next_week r = true.
Proof.
  intros -> -> H0 M0 S0 us0.
  destruct (valid_datetime_bounds today Htoday) as (Hy & Hm & Hd & Hf).
  destruct (plus_days_closed_form today next_week 7 ltac:(lia) Htoday Hnw)
    as (Hdate & Hy7 & Hh & Hmi & Hs & Hus).
  pose proof (days_in_month_bounds (year today) (month today) Hm) as Hdim.
  unfold date_of in *.
  rewrite add_days_closed_form in Hdate by (assumption || lia).
  unfold fields_bounded in Hf.
  destruct today as [y m d H M S us], next_week as [y7 m7 d7 H7 M7 S7 us7].
  cbn [year month day hour minute second microsecond] in *. subst.
  change (Z.of_nat 7) with 7 in *.
  assert (Hproj : projected (mkdatetime y m d 0 0 0 0) (mkdatetime byear m d 0 0 0 0)
                  = mkdatetime y m d 0 0 0 0).
  { unfold projected, this_year. cbn [year month day hour minute second microsecond].
    by_stamps. }
  split.
  - intros b' Hb'. rewrite Hb in Hb'. injection Hb' as <-. cbn [birthday_value]. rewrite Hproj.
    cbn [birthday_value year month day].
    split; apply valid_date_intro; lia.
  - unfold in_window. rewrite Hb. cbn [birthday_value]. rewrite Hproj.
    match type of Hdate with
    | _ = (if ?a <=? ?b then _ else if ?m <? 12 then _ else _) =>
        destruct (Z.leb_spec a b); [| destruct (Z.ltb_spec m 12)]
    end; injection Hdate as -> -> ->; try lia; by_stamps.
Qed.
End AroundToday.

(** * Instances on concrete books *)

(** C1. The query does not carry out the projection for every stored
    birthday.  With Ann born on 29.02.2000 in the book, the query on
    1 March 2023 raises instead of returning names: 29 February does not
    exist in 2023.  On 1 March 2024 her birthday was the day before, and the
    move to 2025 raises as well instead of leaving her out. *)
Theorem get_upcoming_birthdays_leap_day_raises :
  stored ann_leap_day (u "Ann") (ann_record (mkdatetime 2000 2 29 0 0 0 0))
  /\ get_upcoming_birthdays march_1_2023 ann_leap_day
     = (Raise (ValueError (u "day is out of range for month")), ann_leap_day)
  /\ get_upcoming_birthdays march_1_2024 ann_leap_day
     = (Raise (ValueError (u "day is out of range for month")), ann_leap_day).
Proof.
  split; [exists 0%nat; split; reflexivity|].
  split; vm_compute; reflexivity.
Qed.

(** C2 fails as stated: with Ann's leap-day birthday in the book the command
    run on 1 March 2023 prints the error line only, and the fallback message
    is not among the lines of the output. *)
Lemma upcoming_birthdays_without_fallback :
  Handlers.upcoming_birthdays march_1_2023 ann_leap_day
    = (Ok tt, mkstate (heap ann_leap_day) (data ann_leap_day)
                (stdout ann_leap_day
                   ++ [u "Error: day is out of range for month"]))
  /\ ~ In fallback_message
         (stdout (Handlers.upcoming_birthdays march_1_2023 ann_leap_day).2).
Proof.
  split; [vm_compute; reflexivity|].
  vm_compute. intros [H|[H|[H|[]]]]; discriminate H.
Qed.

(** The amended C2 on a book with a match: the line of matches, then the
    fallback message. *)
Lemma upcoming_birthdays_prints_fallback_witness :
  Handlers.upcoming_birthdays march_1_2023 ann_early_march
    = (Ok tt, mkstate (heap ann_early_march) (data ann_early_march)
                (stdout ann_early_march
                   ++ [u "Upcoming birthdays in the next week: Ann";
                       fallback_message]))
  /\ last (stdout (Handlers.upcoming_birthdays march_1_2023 ann_early_march).2)
     = Some fallback_message.
Proof.
  apply (upcoming_birthdays_prints_fallback ann_early_march march_1_2023
           [u "Ann"]).
  vm_compute. reflexivity.
Defined.

(** C10 on a reachable book. *)
Lemma leap_day_birthday_raises_witness :
  exists msg,
    get_upcoming_birthdays march_1_2023 ann_leap_day
      = (Raise (ValueError msg), ann_leap_day).
Proof.
  apply (leap_day_birthday_raises_ValueError ann_leap_day march_1_2023
           (mkdatetime 2023 3 8 10 30 0 0) (u "Ann")
           (ann_record (mkdatetime 2000 2 29 0 0 0 0)) 2000).
  - exists 0%nat. split; reflexivity.
  - reflexivity.
  - reflexivity.
  - left. reflexivity.
Defined.

(** C6 on two records named Bob and an empty book: the second one stays,
    and the size is 1. *)
Lemma add_record_last_write_wins_witness :
  exists d1 d2,
    add_record 0%nat two_bobs = (Ok tt, mkstate (heap two_bobs) d1 [])
    /\ add_record 1%nat (mkstate (heap two_bobs) d1 [])
         = (Ok tt, mkstate (heap two_bobs) d2 [])
    /\ d2 = [(u "Bob", 1%nat)]
    /\ length d2 = 1%nat.
Proof.
  destruct (add_record_last_write_wins two_bobs 0%nat 1%nat
              (new_Record (u "Bob"))
              (mkRecord (mkName (u "Bob")) None [mkPhone (u "0987654321")])
              eq_refl eq_refl eq_refl)
    as (d1 & d2 & H1 & _ & _ & _ & H2 & _ & _ & _ & _ & _ & Hempty).
  exists d1, d2.
  destruct (Hempty eq_refl) as [Hd2 Hlen].
  repeat split; assumption.
Defined.

(** C9 on the empty book: [add Bob 12345]. *)
Lemma add_contact_invalid_phone_witness :
  exists st',
    Handlers.add_contact [u "Bob"; u "12345"] empty_state = (Ok tt, st')
    /\ stored st' (u "Bob") (new_Record (u "Bob"))
    /\ phones (new_Record (u "Bob")) = []
    /\ length (data st') = 1%nat
    /\ heap st' = [new_Record (u "Bob")]
    /\ stdout st' = [u "Error: Phone number must be 10 digits."].
Proof.
  apply (add_contact_invalid_phone_keeps_record empty_state
           (u "Bob") (u "12345") []).
  - reflexivity.
  - intros [Hlen _]. vm_compute in Hlen. discriminate Hlen.
Defined.

(** C8 fails as stated: [31.02.2020] has the form, a day in 1..31 and a
    month in 1..12, and [Birthday] rejects it. *)
Lemma Birthday_rejects_31_02_2020 :
  u "31.02.2020" = dmY_text 51 49 48 50 50 48 50 48
  /\ 1 <= two_digits 51 49 <= 31
  /\ 1 <= two_digits 48 50 <= 12
  /\ new_Birthday (u "31.02.2020") = Raise birthday_error.
Proof.
  split; [reflexivity|].
  split; [vm_compute; split; discriminate|].
  split; [vm_compute; split; discriminate|].
  vm_compute. reflexivity.
Qed.

(** The amended C8 on [29.02.2024], under either behaviour of [%Y]. *)
Lemma Birthday_roundtrip_witness :
  new_Birthday (u "29.02.2024")
    = Ok (mkBirthday (mkdatetime 2024 2 29 0 0 0 0))
  /\ (false = true \/ 50%N <> 48%N ->
      strftime false (mkdatetime 2024 2 29 0 0 0 0) = u "29.02.2024").
Proof.
  apply (Birthday_roundtrip_existing_date false 50 57 48 50 50 48 50 52).
  - repeat constructor.
  - reflexivity.
Defined.

(** ** Further instances *)

(** [\d] is the Unicode class: ten Arabic-Indic digits are a phone. *)
Example Phone_accepts_arabic_indic_digits :
  new_Phone [0x661; 0x662; 0x663; 0x664; 0x665; 0x666; 0x667; 0x668; 0x669;
             0x660]%N
  = Ok (mkPhone [0x661; 0x662; 0x663; 0x664; 0x665; 0x666; 0x667; 0x668;
                 0x669; 0x660]%N).
Proof. reflexivity. Qed.

Example Phone_rejects_dashes :
  new_Phone (u "123-456-7890") = Raise phone_error.
Proof. reflexivity. Qed.

(** The parser also takes days and months of one digit, which do not print
    back to the same text. *)
Example Birthday_one_digit_day :
  new_Birthday (u "1.2.2020") = Ok (mkBirthday (mkdatetime 2020 2 1 0 0 0 0))
  /\ strftime true (mkdatetime 2020 2 1 0 0 0 0) = u "01.02.2020".
Proof. split; reflexivity. Qed.

(** Year 0000 is no year of the calendar, and below 1000 the two ways of
    printing [%Y] differ. *)
Example Birthday_small_years :
  new_Birthday (u "01.01.0000") = Raise birthday_error
  /\ new_Birthday (u "01.01.0999")
     = Ok (mkBirthday (mkdatetime 999 1 1 0 0 0 0))
  /\ strftime true (mkdatetime 999 1 1 0 0 0 0) = u "01.01.0999"
  /\ strftime false (mkdatetime 999 1 1 0 0 0 0) = u "01.01.999".
Proof. repeat split; reflexivity. Qed.

(** On 1 March 2023, 10:30: a birthday on 4 March is in the window, one on
    9 March is past it, one on 28 February was yesterday, and one on 1 March
    is already behind the clock. *)
Example window_on_march_1_2023 :
  let next_week := mkdatetime 2023 3 8 10 30 0 0 in
  plus_days march_1_2023 7 = Ok next_week
  /\ in_window march_1_2023 next_week (ann_record (mkdatetime 2000 3 4 0 0 0 0))
     = true
  /\ in_window march_1_2023 next_week (ann_record (mkdatetime 2000 3 9 0 0 0 0))
     = false
  /\ in_window march_1_2023 next_week (ann_record (mkdatetime 2000 2 28 0 0 0 0))
     = false
  /\ in_window march_1_2023 next_week (ann_record (mkdatetime 2000 3 1 0 0 0 0))
     = false.
Proof.
  cbv zeta. split; [reflexivity|].
  split.
  { apply (birthday_three_days_ahead_included march_1_2023 _
             (ann_record (mkdatetime 2000 3 4 0 0 0 0)) 2000 3 4
             eq_refl eq_refl eq_refl 2023 eq_refl). }
  split.
  { apply (birthday_eight_days_ahead_excluded march_1_2023 _
             (ann_record (mkdatetime 2000 3 9 0 0 0 0)) 2000 3 9
             eq_refl eq_refl eq_refl 2023); reflexivity. }
  split.
  { apply (birthday_yesterday_excluded march_1_2023 _
             (ann_record (mkdatetime 2000 2 28 0 0 0 0)) 2000 2 28
             eq_refl eq_refl eq_refl);
      [reflexivity | lia | vm_compute; split; discriminate | reflexivity | lia]. }
  apply (birthday_today_after_midnight_excluded march_1_2023 _
           (ann_record (mkdatetime 2000 3 1 0 0 0 0)) 2000 3 1
           eq_refl eq_refl eq_refl);
    [reflexivity | reflexivity | reflexivity | left; reflexivity | lia].
Qed.

(** The whole query on the book with Ann born on 4 March. *)
Example query_on_march_1_2023 :
  get_upcoming_birthdays march_1_2023 ann_early_march
  = (Ok [u "Ann"], ann_early_march).
Proof. vm_compute. reflexivity. Qed.

(** * Further properties of the code *)

(** ** [Record]: finding, removing and editing phones *)

Lemma find_phone_in_present (phone : str) (ps : list Phone) :
  phone ∈ List.map phone_value ps -> find_phone_in phone ps = phone.
Proof.
  induction ps as [|p ps IH]; cbn.
  - intros H. inversion H.
  - intros H. case_bool_decide as E; [exact E|].
    apply elem_of_cons in H as [H|H]; [congruence | now apply IH].
Qed.

Lemma find_phone_in_absent (phone : str) (ps : list Phone) :
  phone ∉ List.map phone_value ps ->
  find_phone_in phone ps = u "Phone not found.".
Proof.
  induction ps as [|p ps IH]; cbn; [reflexivity|].
  intros H. apply not_elem_of_cons in H as [Hne H].
  rewrite bool_decide_eq_false_2 by congruence. now apply IH.
Qed.

Lemma not_found_is_no_phone : ~ ten_digits (u "Phone not found.").
Proof. intros [H _]. vm_compute in H. discriminate H. Qed.

(** X1. [find_phone] never raises and never changes the record.  It answers
    the searched text when the record holds a phone equal to it and the
    text "Phone not found." otherwise; on a record whose phones are valid
    the two answers cannot be confused. *)
Theorem find_phone_answer (phone : str) (self : RecordObj) :
  exists answer,
    find_phone phone self = (Ok answer, self)
    /\ (phone ∈ phone_values self -> answer = phone)
    /\ (phone ∉ phone_values self -> answer = u "Phone not found.")
    /\ (record_ok self ->
        (answer = u "Phone not found." <-> phone ∉ phone_values self)).
Proof.
  exists (find_phone_in phone (phones self)).
  split; [reflexivity|].
  split; [apply find_phone_in_present|].
  split; [apply find_phone_in_absent|].
  intros [Hok _]. split; [| apply find_phone_in_absent].
  intros Hans Hin.
  rewrite (find_phone_in_present _ _ Hin) in Hans. subst phone.
  apply not_found_is_no_phone.
  unfold phone_values in Hin.
  apply list_elem_of_In, List.in_map_iff in Hin as (p & Hp & Hin).
  rewrite <- Hp. rewrite List.Forall_forall in Hok. now apply Hok.
Qed.

Lemma remove_phone_phones (phone : str) (self : RecordObj) (q : Phone) :
  q ∈ phones (without_phone phone self)
  <-> (q ∈ phones self /\ phone_value q <> phone).
Proof.
  cbn. rewrite !list_elem_of_In, List.filter_In.
  rewrite negb_true_iff, bool_decide_eq_false. reflexivity.
Qed.

Lemma filter_id_absent (phone : str) (ps : list Phone) :
  phone ∉ List.map phone_value ps ->
  List.filter (fun p => negb (bool_decide (phone_value p = phone))) ps = ps.
Proof.
  induction ps as [|p ps IH]; cbn; [reflexivity|].
  intros H. apply not_elem_of_cons in H as [Hne H].
  rewrite bool_decide_eq_false_2 by congruence. cbn. now rewrite IH.
Qed.

Lemma List_filter_sublist {A} (f : A -> bool) (l : list A) :
  List.filter f l `sublist_of` l.
Proof.
  induction l as [|a l IH]; cbn; [constructor|].
  destruct (f a); now constructor.
Qed.

Lemma without_phone_gone (phone : str) (self : RecordObj) :
  phone ∉ phone_values (without_phone phone self).
Proof.
  unfold phone_values. intros Hin.
  apply list_elem_of_In, List.in_map_iff in Hin as (p & Hp & Hin).
  apply list_elem_of_In, remove_phone_phones in Hin as [_ Hne]. congruence.
Qed.

(** X2. [remove_phone] never raises.  It removes every phone equal to the
    given text, duplicates included, keeps the other phones in their order
    and the name and birthday as they are; it changes nothing when no phone
    matches, and a second removal changes nothing more. *)
Theorem remove_phone_removes_all (phone : str) (self : RecordObj) :
  exists self',
    remove_phone phone self = (Ok tt, self')
    /\ name self' = name self
    /\ birthday self' = birthday self
    /\ (phone ∉ phone_values self')
    /\ (forall q, q ∈ phones self'
                  <-> (q ∈ phones self /\ phone_value q <> phone))
    /\ phones self' `sublist_of` phones self
    /\ (phone ∉ phone_values self -> self' = self)
    /\ remove_phone phone self' = (Ok tt, self').
Proof.
  exists (without_phone phone self).
  split; [reflexivity|]. split; [reflexivity|]. split; [reflexivity|].
  split; [apply without_phone_gone|].
  split; [apply remove_phone_phones|].
  split; [apply List_filter_sublist|].
  split.
  - intros Habs. destruct self as [n b ps]. unfold without_phone. cbn in *.
    now rewrite filter_id_absent.
  - rewrite remove_phone_eq. f_equal.
    unfold without_phone at 1. cbn [name birthday phones].
    rewrite filter_id_absent by apply without_phone_gone.
    now destruct (without_phone phone self).
Qed.

(** X3. After a successful [edit_phone(old, new)] the record finds [new],
    and no longer finds [old] when the two differ. *)
Theorem edit_phone_then_find (old_phone new_phone : str) (self : RecordObj) :
  ten_digits new_phone ->
  exists edited,
    edit_phone old_phone new_phone self = (Ok tt, edited)
    /\ find_phone new_phone edited = (Ok new_phone, edited)
    /\ (old_phone <> new_phone ->
        find_phone old_phone edited = (Ok (u "Phone not found."), edited)).
Proof.
  intros Hvalid.
  exists (mkRecord (name self) (birthday self)
            (phones (without_phone old_phone self) ++ [mkPhone new_phone])).
  split.
  - unfold edit_phone.
    rewrite (bind_ok _ _ _ _ _ (remove_phone_eq _ _)).
    now rewrite add_phone_valid.
  - split.
    + unfold find_phone, bind, get, ret. cbn [phones]. f_equal. f_equal.
      apply find_phone_in_present.
      rewrite List.map_app. apply elem_of_app. right. cbn. left.
    + intros Hne. unfold find_phone, bind, get, ret. cbn [phones].
      f_equal. f_equal. apply find_phone_in_absent.
      rewrite List.map_app. intros Hin. apply elem_of_app in Hin as [Hin|Hin].
      * apply (without_phone_gone old_phone self). exact Hin.
      * cbn in Hin. apply list_elem_of_singleton in Hin. congruence.
Qed.

(** ** The commands, case by case *)

Lemma dict_set_absent {V} (k : str) (v : V) (d : list (str * V)) :
  dict_get k d = None -> dict_set k v d = d ++ [(k, v)].
Proof.
  induction d as [|[k' v'] d IH]; cbn; [reflexivity|].
  case_bool_decide; [discriminate|]. intros Hd. now rewrite IH.
Qed.

(** Unfolds a handler down to the lookups it makes. *)
Ltac run_handler :=
  unfold input_error;
  cbv [bind item find ret raise lift get put print alloc add_record];
  cbn [lookup list_lookup heap data stdout fst snd].

(** X4. [add_contact] with a valid phone.  For a name the book does not
    have, a record holding just that phone is appended to the book and
    "Contact added." is printed; for a name it has, the phone is appended
    to that contact's phones, the book keeps its entries, and
    "Contact updated." is printed.  Arguments after the second are
    ignored. *)
Theorem add_contact_valid_phone (st : state) (nm phone : str) (more : list str) :
  ten_digits phone ->
  (dict_get nm (data st) = None ->
     Handlers.add_contact (nm :: phone :: more) st
     = (Ok tt, mkstate (heap st ++ [mkRecord (mkName nm) None [mkPhone phone]])
                 (data st ++ [(nm, length (heap st))])
                 (stdout st ++ [u "Contact added."])))
  /\ (forall l r, dict_get nm (data st) = Some l -> heap st !! l = Some r ->
     Handlers.add_contact (nm :: phone :: more) st
     = (Ok tt, mkstate (<[l := mkRecord (name r) (birthday r)
                                (phones r ++ [mkPhone phone])]> (heap st))
                 (data st)
                 (stdout st ++ [u "Contact updated."]))).
Proof.
  intros Hvalid. split.
  - intros Hnew. unfold Handlers.add_contact. run_handler.
    rewrite Hnew. cbn [heap data stdout]. rewrite lookup_fresh.
    cbn [fst snd new_Record name name_value]. unfold call. cbn [heap data stdout].
    rewrite lookup_fresh. rewrite add_phone_valid by exact Hvalid.
    cbn [heap data stdout new_Record name birthday phones app].
    rewrite insert_fresh. now rewrite dict_set_absent.
  - intros l r Hfind Hl. unfold Handlers.add_contact. run_handler.
    rewrite Hfind. cbn [fst snd]. unfold call. rewrite Hl.
    now rewrite add_phone_valid by exact Hvalid.
Qed.

(** X5. [add_contact] with an invalid phone for a name the book has: the
    validation error is printed and neither the book nor any record
    changes. *)
Theorem add_contact_invalid_phone_known_name
  (st : state) (nm phone : str) (more : list str) (l : loc) (r : RecordObj) :
  ~ ten_digits phone ->
  dict_get nm (data st) = Some l -> heap st !! l = Some r ->
  Handlers.add_contact (nm :: phone :: more) st
  = (Ok tt, mkstate (heap st) (data st)
              (stdout st ++ [u "Error: Phone number must be 10 digits."])).
Proof.
  intros Hbad Hfind Hl. unfold Handlers.add_contact. run_handler.
  rewrite Hfind. cbn [fst snd]. unfold call. rewrite Hl.
  rewrite add_phone_invalid by exact Hbad. cbn.
  now rewrite list_insert_id.
Qed.

(** X6. [change_phone].  For an unknown name it prints "Contact not found."
    and changes nothing.  For a known name and a valid new phone it removes
    every phone equal to the old one, appends the new one and prints
    "Phone has been changed.", whether or not the old phone was there.  For
    a known name and an invalid new phone the phones equal to the old one
    are removed and only the validation error is printed. *)
Theorem change_phone_cases (st : state) (nm old_phone new_phone : str)
  (more : list str) :
  (dict_get nm (data st) = None ->
     Handlers.change_phone (nm :: old_phone :: new_phone :: more) st
     = (Ok tt, mkstate (heap st) (data st)
                 (stdout st ++ [u "Contact not found."])))
  /\ (forall l r, dict_get nm (data st) = Some l -> heap st !! l = Some r ->
      (ten_digits new_phone ->
         Handlers.change_phone (nm :: old_phone :: new_phone :: more) st
         = (Ok tt,
            mkstate (<[l := mkRecord (name r) (birthday r)
                             (phones (without_phone old_phone r)
                                ++ [mkPhone new_phone])]> (heap st))
              (data st) (stdout st ++ [u "Phone has been changed."])))
      /\ (~ ten_digits new_phone ->
         Handlers.change_phone (nm :: old_phone :: new_phone :: more) st
         = (Ok tt,
            mkstate (<[l := without_phone old_phone r]> (heap st)) (data st)
              (stdout st ++ [u "Error: Phone number must be 10 digits."])))).
Proof.
  split.
  - intros Hnone. unfold Handlers.change_phone. run_handler. now rewrite Hnone.
  - intros l r Hfind Hl. split; intros Hnew;
      unfold Handlers.change_phone; run_handler; rewrite Hfind;
      unfold call; rewrite Hl; unfold edit_phone;
      rewrite (bind_ok _ _ _ _ _ (remove_phone_eq _ _)).
    + now rewrite add_phone_valid by exact Hnew.
    + now rewrite add_phone_invalid by exact Hnew.
Qed.

(** X7. [show_phone_numbers] prints the contact's phones joined by "; " for
    a known name.  For an unknown name it prints nothing at all: the
    "Contact not found." it returns is dropped by the decorator.  In both
    cases the book and the records stay as they are. *)
Theorem show_phone_numbers_cases (st : state) (nm : str) (more : list str) :
  (dict_get nm (data st) = None ->
     Handlers.show_phone_numbers (nm :: more) st = (Ok tt, st))
  /\ (forall l r, dict_get nm (data st) = Some l -> heap st !! l = Some r ->
      Handlers.show_phone_numbers (nm :: more) st
      = (Ok tt, mkstate (heap st) (data st)
                  (stdout st ++ [join (u "; ") (phone_values r)]))).
Proof.
  split.
  - intros Hnone. unfold Handlers.show_phone_numbers. run_handler.
    rewrite Hnone. now destruct st.
  - intros l r Hfind Hl. unfold Handlers.show_phone_numbers. run_handler.
    rewrite Hfind. unfold call. rewrite Hl. cbn.
    now rewrite list_insert_id.
Qed.

(** X8. [show_all_contacts] prints "Address book is empty." for a book
    without entries and otherwise one text: the descriptions of the records
    in the order of the book, separated by newlines.  It changes neither
    the book nor the records. *)
Theorem show_all_contacts_cases (zero_pad : bool) (st : state) :
  (data st = [] ->
     Handlers.show_all_contacts zero_pad st
     = (Ok tt, mkstate (heap st) (data st)
                 (stdout st ++ [u "Address book is empty."])))
  /\ (data st <> [] ->
      Handlers.show_all_contacts zero_pad st
      = (Ok tt, mkstate (heap st) (data st)
                  (stdout st
                     ++ [join [10%N]
                           (List.map (Record_str zero_pad) (values st))]))).
Proof.
  split; intros H; unfold Handlers.show_all_contacts; run_handler.
  - assert ((length (data st) <? 1)%nat = true) as ->
      by (rewrite H; reflexivity).
    reflexivity.
  - assert ((length (data st) <? 1)%nat = false) as ->
      by (destruct (data st); [congruence | reflexivity]).
    reflexivity.
Qed.

Lemma add_birthday_parsed (bday : str) (t : datetime) (self : RecordObj) :
  strptime bday = Ok t ->
  add_birthday bday self
  = (Ok tt, mkRecord (name self) (Some (mkBirthday t)) (phones self)).
Proof.
  intros H. unfold add_birthday, bind, lift, new_Birthday. now rewrite H.
Qed.

Lemma add_birthday_rejected (bday : str) (self : RecordObj) :
  is_ok (strptime bday) = false ->
  add_birthday bday self = (Raise birthday_error, self).
Proof.
  intros H. unfold add_birthday, bind, lift.
  now rewrite new_Birthday_rejects.
Qed.

(** X9. The [add_birthday] command.  For an unknown name it prints
    "Contact not found" and changes nothing.  For a known name and a text
    the parser accepts it sets the contact's birthday to the parsed date,
    replacing an earlier one, and prints "Birthday for <name> added".  For
    a known name and a text the parser refuses it prints the format error
    and the contact keeps the birthday it had. *)
Theorem add_birthday_cases (st : state) (nm bday : str) (more : list str) :
  (dict_get nm (data st) = None ->
     Handlers.add_birthday (nm :: bday :: more) st
     = (Ok tt, mkstate (heap st) (data st)
                 (stdout st ++ [u "Contact not found"])))
  /\ (forall l r, dict_get nm (data st) = Some l -> heap st !! l = Some r ->
      (forall t, strptime bday = Ok t ->
         Handlers.add_birthday (nm :: bday :: more) st
         = (Ok tt,
            mkstate (<[l := mkRecord (name r) (Some (mkBirthday t))
                             (phones r)]> (heap st))
              (data st)
              (stdout st ++ [u "Birthday for " ++ nm ++ u " added"])))
      /\ (is_ok (strptime bday) = false ->
         Handlers.add_birthday (nm :: bday :: more) st
         = (Ok tt,
            mkstate (heap st) (data st)
              (stdout st
                 ++ [u "Error: Invalid date format. Use DD.MM.YYYY instead"])))).
Proof.
  split.
  - intros Hnone. unfold Handlers.add_birthday. run_handler. now rewrite Hnone.
  - intros l r Hfind Hl. split.
    + intros t Ht. unfold Handlers.add_birthday. run_handler. rewrite Hfind.
      unfold call. rewrite Hl. now rewrite (add_birthday_parsed _ _ _ Ht).
    + intros Hbad. unfold Handlers.add_birthday. run_handler. rewrite Hfind.
      unfold call. rewrite Hl. rewrite (add_birthday_rejected _ _ Hbad). cbn.
      now rewrite list_insert_id.
Qed.

(** X10. [show_birthday] prints "Contact not found." for an unknown name,
    "<name> does not have a birthday set." for a contact without birthday,
    and "<name>'s birthday: " followed by the date as [DD.MM.YYYY]
    otherwise.  It changes neither the book nor the records. *)
Theorem show_birthday_cases (zero_pad : bool) (st : state) (nm : str)
  (more : list str) :
  (dict_get nm (data st) = None ->
     Handlers.show_birthday zero_pad (nm :: more) st
     = (Ok tt, mkstate (heap st) (data st)
                 (stdout st ++ [u "Contact not found."])))
  /\ (forall l r, dict_get nm (data st) = Some l -> heap st !! l = Some r ->
      (birthday r = None ->
         Handlers.show_birthday zero_pad (nm :: more) st
         = (Ok tt, mkstate (heap st) (data st)
                     (stdout st ++ [nm ++ u " does not have a birthday set."])))
      /\ (forall b, birthday r = Some b ->
         Handlers.show_birthday zero_pad (nm :: more) st
         = (Ok tt, mkstate (heap st) (data st)
                     (stdout st
                        ++ [nm ++ u "'s birthday: "
                              ++ strftime zero_pad (birthday_value b)])))).
Proof.
  split.
  - intros Hnone. unfold Handlers.show_birthday. run_handler. now rewrite Hnone.
  - intros l r Hfind Hl. split.
    + intros Hb. unfold Handlers.show_birthday. run_handler. rewrite Hfind.
      unfold call. rewrite Hl. cbn. rewrite Hb. cbn.
      now rewrite list_insert_id.
    + intros b Hb. unfold Handlers.show_birthday. run_handler. rewrite Hfind.
      unfold call. rewrite Hl. cbn. rewrite Hb. cbn.
      now rewrite list_insert_id.
Qed.

(** X11. A command given too few arguments prints
    "Error: list index out of range" and changes nothing else, whatever the
    book holds: [add] and [add-birthday] need two arguments, [change]
    three, [phone] and [show-birthday] one. *)
Theorem too_few_arguments (zero_pad : bool) (st : state) (args : list str) :
  let failed :=
    (Ok tt, mkstate (heap st) (data st)
              (stdout st ++ [u "Error: list index out of range"])) in
  ((length args < 2)%nat -> Handlers.add_contact args st = failed)
  /\ ((length args < 3)%nat -> Handlers.change_phone args st = failed)
  /\ ((length args < 1)%nat -> Handlers.show_phone_numbers args st = failed)
  /\ ((length args < 2)%nat -> Handlers.add_birthday args st = failed)
  /\ ((length args < 1)%nat ->
      Handlers.show_birthday zero_pad args st = failed).
Proof.
  cbv zeta.
  repeat split; intros Hlen;
    destruct args as [|a0 [|a1 [|a2 args]]]; cbn in Hlen; try lia;
    reflexivity.
Qed.

(** ** No command fails on a consistent book *)

Lemma triple_bind {A B} (P : state -> Prop) (m : M A) (k : A -> M B)
  (Q : A -> state -> Prop) (R : B -> state -> Prop) (E : exn -> state -> Prop) :
  triple P m Q E -> (forall a, triple (Q a) (k a) R E) ->
  triple P (bind m k) R E.
Proof.
  intros Hm Hk st HP. specialize (Hm st HP). unfold bind.
  destruct (m st) as [[a|e] st']; [now apply Hk | exact Hm].
Qed.

Lemma triple_weaken {A} (P P' : state -> Prop) (m : M A)
  (Q Q' : A -> state -> Prop) (E : exn -> state -> Prop) :
  triple P' m Q' E -> (forall st, P st -> P' st) ->
  (forall a st, Q' a st -> Q a st) -> triple P m Q E.
Proof.
  intros Hm HP HQ st Hst. specialize (Hm st (HP st Hst)).
  destruct (m st) as [[a|e] st']; [now apply HQ | exact Hm].
Qed.

Lemma triple_ret {A} (a : A) (Q : A -> state -> Prop) E :
  triple (Q a) (ret a) Q E.
Proof. now intros st H. Qed.

Lemma triple_print (P : state -> Prop) (line : str) E :
  (forall h d o o', P (mkstate h d o) -> P (mkstate h d o')) ->
  triple P (print line) (fun _ => P) E.
Proof. intros HP st H. cbn. destruct st as [h d o]. now apply HP with o. Qed.

Lemma triple_item (args : list str) (i : nat) :
  triple consistent (item args i) (fun _ => consistent) caught_consistent.
Proof.
  intros st H. unfold item. destruct (args !! i); [exact H | now split].
Qed.

Lemma triple_find (nm : str) :
  triple consistent (find nm)
    (fun found st => consistent st
                     /\ forall l, found = Some l -> (l < length (heap st))%nat)
    caught_consistent.
Proof.
  intros st H. cbn. split; [exact H|]. intros l Hl.
  destruct H as (_ & Hd & _). rewrite Forall_forall in Hd.
  apply dict_get_Some_elem in Hl. exact (Hd _ Hl).
Qed.

Lemma triple_alloc (nm : str) :
  triple consistent (alloc (new_Record nm)) consistent_at caught_consistent.
Proof.
  intros st H. pose proof (keeps_alloc nm st H) as Hk.
  unfold alloc in *. cbn [fst snd] in *.
  split; [exact Hk|]. cbn [heap]. rewrite length_app. cbn [length]. lia.
Qed.

Lemma triple_add_record (l : loc) :
  triple (consistent_at l) (add_record l) (fun _ => consistent_at l)
    caught_consistent.
Proof.
  intros st [H Hl]. pose proof (keeps_add_record l st H) as Hk.
  destruct (lookup_lt_is_Some_2 _ _ Hl) as [r Hr].
  rewrite (add_record_eq st l r Hr) in *. cbn [snd] in Hk.
  now split.
Qed.

Lemma triple_call {A} (l : loc) (m : ST RecordObj A) :
  keeps_record m ->
  (forall self e, (m self).1 = Raise e -> caught e = true) ->
  triple (consistent_at l) (call l m) (fun _ => consistent_at l)
    caught_consistent.
Proof.
  intros Hkeeps Hcaught st [H Hl].
  pose proof (keeps_call l m Hkeeps st H) as Hk.
  destruct (lookup_lt_is_Some_2 _ _ Hl) as [self Hself].
  specialize (Hcaught self).
  destruct (m self) as [r self'] eqn:Em.
  rewrite (call_eq l m st self r self' Hself Em) in *. cbn [fst snd] in *.
  destruct r as [a|e].
  - split; [exact Hk|]. cbn [heap]. now rewrite length_insert.
  - split; [now apply Hcaught | exact Hk].
Qed.

Lemma add_phone_caught (phone : str) (self : RecordObj) (e : exn) :
  (add_phone phone self).1 = Raise e -> caught e = true.
Proof.
  unfold add_phone, bind, lift, new_Phone.
  destruct (negb (validate phone)); cbn; [| discriminate].
  now intros [= <-].
Qed.

Lemma add_birthday_caught (bday : str) (self : RecordObj) (e : exn) :
  (add_birthday bday self).1 = Raise e -> caught e = true.
Proof.
  unfold add_birthday, bind, lift, new_Birthday.
  destruct (strptime bday) as [t|e0] eqn:E; cbn; [discriminate|].
  apply strptime_raises in E as [msg ->]. now intros [= <-].
Qed.

Lemma edit_phone_caught (old_phone new_phone : str) (self : RecordObj) (e : exn) :
  (edit_phone old_phone new_phone self).1 = Raise e -> caught e = true.
Proof.
  unfold edit_phone. rewrite (bind_ok _ _ _ _ _ (remove_phone_eq _ _)).
  apply add_phone_caught.
Qed.

Lemma get_caught (self : RecordObj) (e : exn) :
  (@get RecordObj self).1 = Raise e -> caught e = true.
Proof. discriminate. Qed.

(** The decorator turns a body that raises only what it catches into a
    handler that returns. *)
Lemma triple_input_error {A} (P : state -> Prop) (func : M A)
  (Q : A -> state -> Prop) :
  triple P func Q caught_consistent ->
  (forall a st, Q a st -> consistent st) ->
  triple P (input_error func) (fun _ => consistent) (fun _ _ => False).
Proof.
  intros Hf HQ st HP. specialize (Hf st HP). unfold input_error.
  destruct (func st) as [[a|e] st']; [now apply HQ with a|].
  destruct Hf as [Hc Hst]. destruct e; try discriminate; exact Hst.
Qed.

Lemma consistent_stdout h d o o' :
  consistent (mkstate h d o) -> consistent (mkstate h d o').
Proof. now intros H. Qed.

Lemma consistent_at_stdout l h d o o' :
  consistent_at l (mkstate h d o) -> consistent_at l (mkstate h d o').
Proof. now intros H. Qed.

Lemma consistent_at_consistent {A} (l : loc) (a : A) (st : state) :
  consistent_at l st -> consistent st.
Proof. now intros [H _]. Qed.

Lemma triple_call_consistent {A} (l : loc) (m : ST RecordObj A) :
  keeps_record m ->
  (forall self e, (m self).1 = Raise e -> caught e = true) ->
  triple (consistent_at l) (call l m) (fun _ => consistent) caught_consistent.
Proof.
  intros Hk Hc. eapply triple_weaken; [apply (triple_call l m Hk Hc) | auto |].
  now intros a st [H _].
Qed.

Lemma triple_print_consistent (line : str) E :
  triple consistent (print line) (fun _ => consistent) E.
Proof. apply triple_print. intros h d o o'. apply consistent_stdout. Qed.

(** After the lookup: the body for a record that was found. *)
Lemma triple_found {A} (found : option loc) (some : loc -> M A) (none : M A)
  (Q : A -> state -> Prop) :
  (forall l, triple (consistent_at l) (some l) Q caught_consistent) ->
  triple consistent none Q caught_consistent ->
  triple (fun st => consistent st
                    /\ forall l, found = Some l -> (l < length (heap st))%nat)
    (match found with Some l => some l | None => none end)
    Q caught_consistent.
Proof.
  intros Hsome Hnone st [H Hl]. destruct found as [l|].
  - apply Hsome. split; [exact H | now apply Hl].
  - now apply Hnone.
Qed.

Lemma add_contact_returns (args : list str) :
  triple consistent (Handlers.add_contact args) (fun _ => consistent)
    (fun _ _ => False).
Proof.
  unfold Handlers.add_contact.
  apply triple_input_error with (Q := fun _ => consistent); [| auto].
  eapply triple_bind; [apply triple_item | intros nm].
  eapply triple_bind; [apply triple_item | intros phone].
  eapply triple_bind; [apply triple_find | intros found].
  eapply triple_bind with (Q := fun rm => consistent_at rm.1).
  - apply (triple_found found (fun record => ret (record, u "Contact updated."))).
    + intros l. apply (triple_ret (l, u "Contact updated.")
                         (fun rm => consistent_at rm.1)).
    + eapply triple_bind; [apply triple_alloc | intros record].
      eapply triple_bind; [apply triple_add_record | intros ?].
      apply (triple_ret (record, u "Contact added.")
               (fun rm => consistent_at rm.1)).
  - intros rm.
    eapply triple_bind;
      [apply triple_call_consistent;
       [apply add_phone_keeps | apply add_phone_caught] | intros ?].
    apply triple_print_consistent.
Qed.

Lemma change_phone_returns (args : list str) :
  triple consistent (Handlers.change_phone args) (fun _ => consistent)
    (fun _ _ => False).
Proof.
  unfold Handlers.change_phone.
  apply triple_input_error with (Q := fun _ => consistent); [| auto].
  eapply triple_bind; [apply triple_item | intros nm].
  eapply triple_bind; [apply triple_item | intros old_phone].
  eapply triple_bind; [apply triple_item | intros new_phone].
  eapply triple_bind; [apply triple_find | intros found].
  apply (triple_found found
           (fun record => call record (edit_phone old_phone new_phone) ;;;
                          print (u "Phone has been changed."))).
  - intros l.
    eapply triple_bind;
      [apply triple_call_consistent;
       [apply edit_phone_keeps | apply edit_phone_caught] | intros ?].
    apply triple_print_consistent.
  - apply triple_print_consistent.
Qed.

Lemma show_phone_numbers_returns (args : list str) :
  triple consistent (Handlers.show_phone_numbers args) (fun _ => consistent)
    (fun _ _ => False).
Proof.
  unfold Handlers.show_phone_numbers.
  apply triple_input_error with (Q := fun _ => consistent); [| auto].
  eapply triple_bind; [apply triple_item | intros nm].
  eapply triple_bind; [apply triple_find | intros found].
  apply (triple_found found
           (fun record =>
              self <- call record get ;;
              print (join (u "; ") (List.map phone_value (phones self))) ;;;
              ret (u "Contact not found."))).
  - intros l.
    eapply triple_bind;
      [apply triple_call_consistent;
       [apply keeps_record_get | apply get_caught] | intros self].
    eapply triple_bind; [apply triple_print_consistent | intros ?].
    apply (triple_ret _ (fun _ => consistent)).
  - apply (triple_ret _ (fun _ => consistent)).
Qed.

Lemma show_all_contacts_returns (zero_pad : bool) :
  triple consistent (Handlers.show_all_contacts zero_pad) (fun _ => consistent)
    (fun _ _ => False).
Proof.
  intros st H.
  pose proof (keeps_show_all_contacts zero_pad st H) as Hk.
  unfold Handlers.show_all_contacts, input_error, bind, get in *.
  destruct (length (data st) <? 1)%nat; exact Hk.
Qed.

Lemma add_birthday_returns (args : list str) :
  triple consistent (Handlers.add_birthday args) (fun _ => consistent)
    (fun _ _ => False).
Proof.
  unfold Handlers.add_birthday.
  apply triple_input_error with (Q := fun _ => consistent); [| auto].
  eapply triple_bind; [apply triple_item | intros nm].
  eapply triple_bind; [apply triple_item | intros bday].
  eapply triple_bind; [apply triple_find | intros found].
  apply (triple_found found
           (fun record => call record (add_birthday bday) ;;;
                          print (u "Birthday for " ++ nm ++ u " added"))).
  - intros l.
    eapply triple_bind;
      [apply triple_call_consistent;
       [apply add_birthday_keeps | apply add_birthday_caught] | intros ?].
    apply triple_print_consistent.
  - apply triple_print_consistent.
Qed.

Lemma show_birthday_returns (zero_pad : bool) (args : list str) :
  triple consistent (Handlers.show_birthday zero_pad args)
    (fun _ => consistent) (fun _ _ => False).
Proof.
  unfold Handlers.show_birthday.
  apply triple_input_error with (Q := fun _ => consistent); [| auto].
  eapply triple_bind; [apply triple_item | intros nm].
  eapply triple_bind; [apply triple_find | intros found].
  apply (triple_found found
           (fun record =>
              self <- call record get ;;
              match birthday self with
              | Some b =>
                  print (nm ++ u "'s birthday: "
                           ++ strftime zero_pad (birthday_value b))
              | None => print (nm ++ u " does not have a birthday set.")
              end)).
  - intros l.
    eapply triple_bind;
      [apply triple_call_consistent;
       [apply keeps_record_get | apply get_caught] | intros self].
    destruct (birthday self); apply triple_print_consistent.
  - apply triple_print_consistent.
Qed.

Lemma upcoming_loop_raises_ValueError (today next_week : datetime)
  (records : list RecordObj) (acc : list str) (e : exn) :
  upcoming_loop today next_week records acc = Raise e ->
  exists msg, e = ValueError msg.
Proof.
  revert acc. induction records as [|r records IH]; intros acc; cbn;
    [discriminate|].
  destruct (upcoming_one today next_week r) as [[nm|]|e0] eqn:E.
  - apply IH.
  - apply IH.
  - intros [= <-]. now apply upcoming_one_raises in E.
Qed.

Lemma upcoming_birthdays_returns (today next_week : datetime) :
  plus_days today 7 = Ok next_week ->
  triple consistent (Handlers.upcoming_birthdays today) (fun _ => consistent)
    (fun _ _ => False).
Proof.
  intros Hnw st H.
  pose proof (keeps_upcoming_birthdays today st H) as Hk.
  unfold Handlers.upcoming_birthdays, input_error in *.
  unfold bind at 1 in Hk. unfold bind at 1.
  rewrite get_upcoming_birthdays_eq, Hnw in *.
  destruct (upcoming_loop today next_week (values st) []) as [l|e] eqn:E.
  - unfold bind in *. destruct l; exact Hk.
  - apply upcoming_loop_raises_ValueError in E as [msg ->]. exact Hk.
Qed.

Lemma triple_returns (m : M unit) (st : state) :
  triple consistent m (fun _ => consistent) (fun _ _ => False) ->
  consistent st -> returns m st.
Proof.
  intros Hm H. specialize (Hm st H). unfold returns.
  destruct (m st) as [[[]|e] st']; [now exists st' | contradiction].
Qed.

(** X12. On a consistent book no command fails, whatever its arguments:
    [add], [change], [phone], [all], [add-birthday] and [show-birthday]
    return normally and leave a consistent book, and so does [birthdays]
    whenever seven days after today is still a date.  When it is not (the
    last week of year 9999), [birthdays] lets the [OverflowError] escape
    the decorator. *)
Theorem commands_return (zero_pad : bool) (st : state) (args : list str)
  (today : datetime) :
  consistent st ->
  returns (Handlers.add_contact args) st
  /\ returns (Handlers.change_phone args) st
  /\ returns (Handlers.show_phone_numbers args) st
  /\ returns (Handlers.show_all_contacts zero_pad) st
  /\ returns (Handlers.add_birthday args) st
  /\ returns (Handlers.show_birthday zero_pad args) st
  /\ (is_ok (plus_days today 7) = true ->
      returns (Handlers.upcoming_birthdays today) st)
  /\ (is_ok (plus_days today 7) = false ->
      exists msg,
        Handlers.upcoming_birthdays today st = (Raise (OverflowError msg), st)).
Proof.
  intros H.
  split; [apply triple_returns; [apply add_contact_returns | exact H]|].
  split; [apply triple_returns; [apply change_phone_returns | exact H]|].
  split; [apply triple_returns; [apply show_phone_numbers_returns | exact H]|].
  split; [apply triple_returns; [apply show_all_contacts_returns | exact H]|].
  split; [apply triple_returns; [apply add_birthday_returns | exact H]|].
  split; [apply triple_returns; [apply show_birthday_returns | exact H]|].
  split.
  - destruct (plus_days today 7) as [nw|e] eqn:E; [| discriminate].
    intros _. apply triple_returns; [| exact H].
    now apply upcoming_birthdays_returns with nw.
  - intros Hover. unfold Handlers.upcoming_birthdays, input_error.
    unfold bind at 1. rewrite get_upcoming_birthdays_eq.
    unfold plus_days in *.
    destruct (add_days 7 (year today, month today, day today)) as [[y m] d].
    destruct (y <=? MAXYEAR); [discriminate|]. eauto.
Qed.

(** ** The book is filed by name *)

Lemma keeps_keys_bind {A B} (m : M A) (k : A -> M B) :
  keeps m -> keeps_keys m -> (forall a, keeps_keys (k a)) ->
  keeps_keys (bind m k).
Proof.
  intros Hc Hm Hk st Hst Hn. specialize (Hc st Hst). specialize (Hm st Hst Hn).
  unfold bind. destruct (m st) as [[a|e] st']; cbn in *;
    [now apply Hk | exact Hm].
Qed.

Lemma keeps_keys_same {A} (m : M A) :
  (forall st, heap (m st).2 = heap st /\ data (m st).2 = data st) ->
  keeps_keys m.
Proof.
  intros H st _ Hn k l r. destruct (H st) as [-> ->]. apply Hn.
Qed.

Lemma keeps_keys_ret {A} (a : A) : keeps_keys (ret a).
Proof. now apply keeps_keys_same. Qed.

Lemma keeps_keys_get : keeps_keys get.
Proof. now apply keeps_keys_same. Qed.

Lemma keeps_keys_print (line : str) : keeps_keys (print line).
Proof. now apply keeps_keys_same. Qed.

Lemma keeps_keys_find (nm : str) : keeps_keys (find nm).
Proof. now apply keeps_keys_same. Qed.

Lemma keeps_keys_item (args : list str) (i : nat) : keeps_keys (item args i).
Proof.
  apply keeps_keys_same. intros st. unfold item. now destruct (args !! i).
Qed.

Lemma keeps_keys_query (today : datetime) :
  keeps_keys (get_upcoming_birthdays today).
Proof.
  apply keeps_keys_same. intros st. now rewrite get_upcoming_birthdays_state.
Qed.

Lemma keeps_keys_alloc (nm : str) : keeps_keys (alloc (new_Record nm)).
Proof.
  intros st (_ & Hd & _) Hn k l r Hin Hl. unfold alloc in *. cbn in *.
  rewrite Forall_forall in Hd. specialize (Hd _ Hin). cbn in Hd.
  rewrite lookup_app_l in Hl by exact Hd. now apply (Hn k l r).
Qed.

Lemma keeps_keys_add_record (l : loc) : keeps_keys (add_record l).
Proof.
  intros st _ Hn k l' r' Hin Hl'. unfold add_record in *.
  destruct (heap st !! l) as [r|] eqn:E; cbn in *; [| now apply (Hn k l' r')].
  apply dict_set_elem in Hin as [Hin|[= -> ->]]; [now apply (Hn k l' r')|].
  congruence.
Qed.

Lemma keeps_keys_delete (nm : str) : keeps_keys (delete nm).
Proof.
  intros st _ Hn k l r Hin Hl. unfold delete in *.
  destruct (dict_in nm (data st)); cbn in *; [| now apply (Hn k l r)].
  apply (Hn k l r); [| exact Hl].
  eapply elem_of_sublist; [exact Hin | apply dict_del_sublist].
Qed.

Lemma keeps_keys_call {A} (l : loc) (m : ST RecordObj A) :
  keeps_name m -> keeps_keys (call l m).
Proof.
  intros Hm st _ Hn k l' r' Hin Hl'. unfold call in *.
  destruct (heap st !! l) as [self|] eqn:E; [| now apply (Hn k l' r')].
  specialize (Hm self). destruct (m self) as [x self']; cbn in *.
  destruct (decide (l' = l)) as [-> | Hne].
  - rewrite list_lookup_insert_eq in Hl' by now apply lookup_lt_Some in E.
    injection Hl' as <-. rewrite Hm. now apply (Hn k l self).
  - rewrite list_lookup_insert_ne in Hl' by congruence. now apply (Hn k l' r').
Qed.

Lemma keeps_keys_input_error {A} (func : M A) :
  keeps_keys func -> keeps_keys (input_error func).
Proof.
  intros Hf st Hst Hn. specialize (Hf st Hst Hn). unfold input_error.
  destruct (func st) as [[a|e] st']; cbn in *; [exact Hf|].
  destruct e; exact Hf.
Qed.

Lemma add_phone_keeps_name (phone : str) : keeps_name (add_phone phone).
Proof.
  intros self. unfold add_phone, bind, lift.
  now destruct (new_Phone phone).
Qed.

Lemma add_birthday_keeps_name (bday : str) : keeps_name (add_birthday bday).
Proof.
  intros self. unfold add_birthday, bind, lift.
  now destruct (new_Birthday bday).
Qed.

Lemma remove_phone_keeps_name (phone : str) : keeps_name (remove_phone phone).
Proof. now intros self. Qed.

Lemma edit_phone_keeps_name (old_phone new_phone : str) :
  keeps_name (edit_phone old_phone new_phone).
Proof.
  intros self. unfold edit_phone.
  rewrite (bind_ok _ _ _ _ _ (remove_phone_eq _ _)).
  now rewrite add_phone_keeps_name.
Qed.

Lemma find_phone_keeps_name (phone : str) : keeps_name (find_phone phone).
Proof. now intros self. Qed.

Lemma get_keeps_name : keeps_name (@get RecordObj).
Proof. now intros self. Qed.

Create HintDb filed.

#[local] Hint Resolve keeps_keys_ret keeps_keys_get keeps_keys_print
  keeps_keys_find keeps_keys_item keeps_keys_query keeps_keys_alloc
  keeps_keys_add_record keeps_keys_delete keeps_keys_call
  add_phone_keeps_name add_birthday_keeps_name remove_phone_keeps_name
  edit_phone_keeps_name find_phone_keeps_name get_keeps_name
  keeps_ret keeps_raise keeps_lift keeps_get keeps_print
  keeps_find keeps_item keeps_alloc keeps_add_record keeps_call keeps_delete
  keeps_get_upcoming_birthdays keeps_record_lift keeps_record_get
  keeps_record_ret add_phone_keeps add_birthday_keeps remove_phone_keeps
  edit_phone_keeps find_phone_keeps : filed.

Ltac keeps_keys_steps :=
  repeat first
    [ apply keeps_keys_input_error
    | apply keeps_keys_bind; [| | intros ?]
    | match goal with
      | |- keeps_keys (match ?x with _ => _ end) => destruct x
      | |- keeps_keys (if ?c then _ else _) => destruct c
      end
    | match goal with |- keeps _ => solve [keeps_steps] end
    | solve [eauto with filed] ].

Lemma run_op_keeps_keys (zero_pad : bool) (o : op) (st : state) :
  consistent st -> name_keyed st -> name_keyed (run_op zero_pad o st).
Proof.
  intros H Hn. destruct o; cbn [run_op];
    match goal with
    | |- name_keyed (?m st).2 => enough (keeps_keys m) by auto
    end;
    try solve [eauto with filed].
  - unfold Handlers.add_contact. keeps_keys_steps.
  - unfold Handlers.change_phone. keeps_keys_steps.
  - unfold Handlers.show_phone_numbers. keeps_keys_steps.
  - unfold Handlers.show_all_contacts. keeps_keys_steps.
  - unfold Handlers.add_birthday. keeps_keys_steps.
  - unfold Handlers.show_birthday. keeps_keys_steps.
  - unfold Handlers.upcoming_birthdays. keeps_keys_steps.
Qed.

Lemma run_ops_filed (zero_pad : bool) (ops : list op) (st : state) :
  consistent st -> name_keyed st ->
  consistent (run_ops zero_pad ops st) /\ name_keyed (run_ops zero_pad ops st).
Proof.
  revert st. induction ops as [|o ops IH]; intros st H Hn; [now split|].
  cbn. apply IH; [now apply run_op_keeps | now apply run_op_keeps_keys].
Qed.

Lemma name_keyed_empty : name_keyed empty_state.
Proof. intros k l r H. inversion H. Qed.

Lemma stored_elem (st : state) (nm : str) (r : RecordObj) :
  stored st nm r ->
  exists l, (nm, l) ∈ data st /\ heap st !! l = Some r.
Proof.
  intros (l & Hget & Hl). exists l. split; [| exact Hl].
  now apply dict_get_Some_elem.
Qed.

(** In a consistent book filed by name, the names of the records in book
    order are the keys of the book. *)
Lemma values_names (st : state) :
  consistent st -> name_keyed st ->
  List.map (fun r => name_value (name r)) (values st) = (data st).*1.
Proof.
  intros (_ & Hd & _) Hn. unfold values, name_keyed in *.
  induction (data st) as [|[k l] d IH]; [reflexivity|].
  apply Forall_cons in Hd as [Hl Hd]. cbn in Hl.
  cbn. destruct (heap st !! l) as [r|] eqn:Hr;
    [| apply lookup_ge_None in Hr; lia].
  cbn. rewrite (Hn k l r); [| left | exact Hr]. f_equal.
  apply IH; [exact Hd|]. intros k' l' r' Hin. apply Hn. now right.
Qed.

Lemma NoDup_fmap_inj_on_keys (st : state) :
  consistent st -> name_keyed st -> NoDup (data st).*2.
Proof.
  intros (_ & Hd & Hk) Hn. unfold name_keyed in Hn.
  induction (data st) as [|[k l] d IH]; [constructor|].
  apply Forall_cons in Hd as [Hl Hd]. cbn in Hl, Hk.
  apply NoDup_cons in Hk as [Hk Hnd]. cbn.
  apply NoDup_cons. split.
  - intros Hin. apply list_elem_of_fmap in Hin as ([k' l'] & Heq & Hin).
    cbn in Heq. subst l'.
    destruct (lookup_lt_is_Some_2 _ _ Hl) as [r Hr].
    assert (name_value (name r) = k) by (apply (Hn k l r); [left | exact Hr]).
    assert (name_value (name r) = k')
      by (apply (Hn k' l r); [now right | exact Hr]).
    apply Hk. apply list_elem_of_fmap. exists (k', l). split; [| exact Hin].
    cbn. congruence.
  - apply IH; [exact Hd | exact Hnd |].
    intros k' l' r' Hin. apply Hn. now right.
Qed.

(** X13. After any sequence of operations from the empty book, every entry
    of the book is filed under the name of its record, no name and no record
    occurs twice, and listing the records of the book gives their names in
    the order of the keys. *)
Theorem book_is_filed_by_name (zero_pad : bool) (ops : list op) :
  (forall nm r, stored (run_ops zero_pad ops empty_state) nm r ->
                name_value (name r) = nm)
  /\ NoDup (data (run_ops zero_pad ops empty_state)).*1
  /\ NoDup (data (run_ops zero_pad ops empty_state)).*2
  /\ List.map (fun r => name_value (name r))
       (values (run_ops zero_pad ops empty_state))
     = (data (run_ops zero_pad ops empty_state)).*1.
Proof.
  destruct (run_ops_filed zero_pad ops empty_state consistent_empty
              name_keyed_empty) as [Hc Hn].
  split; [| split; [| split]].
  - intros nm r Hst. apply stored_elem in Hst as (l & Hin & Hl).
    now apply (Hn nm l r).
  - now destruct Hc as (_ & _ & Hk).
  - now apply NoDup_fmap_inj_on_keys.
  - now apply values_names.
Qed.

(** ** When the query returns, and what *)

Lemma upcoming_loop_ok_projectable (today next_week : datetime)
  (records : list RecordObj) (acc upcoming : list str) :
  upcoming_loop today next_week records acc = Ok upcoming ->
  Forall (projectable today) records.
Proof.
  revert acc. induction records as [|r records IH]; intros acc;
    [constructor|].
  cbn [upcoming_loop].
  destruct (upcoming_one today next_week r) as [o|e] eqn:E; [| discriminate].
  intros H. constructor.
  - apply (upcoming_one_ok_iff_projectable today next_week). now rewrite E.
  - destruct o; eapply IH; exact H.
Qed.

(** X14. The query never changes the state.  When seven days after today
    is a date, it returns exactly if the birthday of every record of the
    book can be projected, and what it returns is then the names of the
    records whose projected birthday lies in the window, in the order of
    the book. *)
Theorem query_returns_window (st : state) (today next_week : datetime) :
  plus_days today 7 = Ok next_week ->
  (get_upcoming_birthdays today st).2 = st
  /\ (is_ok (get_upcoming_birthdays today st).1 = true
      <-> Forall (projectable today) (values st))
  /\ (forall upcoming,
        (get_upcoming_birthdays today st).1 = Ok upcoming ->
        upcoming = names_in_window today next_week (values st)).
Proof.
  intros Hnw. split; [apply get_upcoming_birthdays_state|].
  rewrite get_upcoming_birthdays_eq, Hnw. cbn [fst].
  split; [split|].
  - destruct (upcoming_loop _ _ _ _) as [l|e] eqn:E; [| discriminate].
    intros _. now apply upcoming_loop_ok_projectable in E.
  - intros Hall. now rewrite upcoming_loop_projectable.
  - intros upcoming E.
    pose proof (upcoming_loop_ok_projectable _ _ _ _ _ E) as Hall.
    rewrite upcoming_loop_projectable in E by exact Hall.
    now injection E as <-.
Qed.

Lemma dict_get_elem_NoDup {V} (k : str) (v : V) (d : list (str * V)) :
  NoDup d.*1 -> (k, v) ∈ d -> dict_get k d = Some v.
Proof.
  induction d as [|[k' v'] d IH]; cbn; [intros _ H; inversion H|].
  intros Hnd Hin. apply NoDup_cons in Hnd as [Hk' Hnd].
  apply elem_of_cons in Hin as [[= -> ->]|Hin].
  - now rewrite bool_decide_eq_true_2.
  - case_bool_decide as E; [| now apply IH].
    subst k'. contradiction Hk'. apply list_elem_of_fmap.
    now exists (k, v).
Qed.

Lemma values_stored (st : state) (r : RecordObj) :
  consistent st -> r ∈ values st -> exists nm, stored st nm r.
Proof.
  intros (_ & _ & Hk) Hin. unfold values in Hin.
  apply list_elem_of_omap in Hin as ([k l] & Hin & Hl). cbn in Hl.
  exists k, l. split; [now apply dict_get_elem_NoDup | exact Hl].
Qed.

(** A date fits a year unless it is a 29 February and the year is not a
    leap year. *)
Lemma valid_date_other_year (y yb m d : Z) :
  1 <= y <= 9999 -> valid_date yb m d = true ->
  valid_date y m d = true
  <-> ~ (m = 2 /\ d = 29 /\ is_leap y = false).
Proof.
  intros Hy Hvalid.
  destruct (valid_date_bounds _ _ _ Hvalid) as (_ & Hm & Hd & _).
  assert (Hiff : valid_date y m d = true <-> d <= days_in_month y m).
  { split.
    - intros H. now destruct (valid_date_bounds _ _ _ H) as (_ & _ & ? & _).
    - intros H. apply valid_date_intro; lia. }
  rewrite Hiff. revert Hd. unfold days_in_month.
  destruct (Z.eqb_spec m 2) as [-> | Hne]; cbn [andb].
  - change (List.nth (Z.to_nat 2) _ 0) with 28.
    destruct (is_leap yb), (is_leap y); intros Hd; split.
    all: try (intros H (_ & H29 & Hl); (discriminate Hl || lia)).
    all: intros H; lia.
  - intros Hd. split; [| intros _; exact (proj2 Hd)].
    intros _ (? & _). contradiction.
Qed.

Lemma invalid_other_year (y yb m d : Z) :
  1 <= y <= 9999 -> valid_date yb m d = true -> valid_date y m d = false ->
  m = 2 /\ d = 29 /\ is_leap y = false.
Proof.
  intros Hy Hvalid Hbad.
  pose proof (valid_date_other_year y yb m d Hy Hvalid) as [_ Hiff].
  destruct (Z.eq_dec m 2) as [Hm|Hm], (Z.eq_dec d 29) as [Hd|Hd],
    (is_leap y) eqn:Hl; try (now repeat split);
    rewrite Hiff in Hbad; try discriminate;
    intros (? & ? & ?); congruence.
Qed.

Lemma upcoming_loop_raise_elem (today next_week : datetime)
  (records : list RecordObj) (acc : list str) (e : exn) :
  upcoming_loop today next_week records acc = Raise e ->
  exists r, r ∈ records /\ upcoming_one today next_week r = Raise e.
Proof.
  revert acc. induction records as [|r records IH]; intros acc; cbn;
    [discriminate|].
  destruct (upcoming_one today next_week r) as [[nm|]|e0] eqn:E.
  - intros H. destruct (IH _ H) as (r' & Hin & Hr'). exists r'.
    split; [now right | exact Hr'].
  - intros H. destruct (IH _ H) as (r' & Hin & Hr'). exists r'.
    split; [now right | exact Hr'].
  - intros [= <-]. exists r. split; [left | exact E].
Qed.

(** A parsed birthday makes the loop body raise only as a 29 February. *)
Lemma upcoming_one_raise_leap_day (today next_week : datetime) (r : RecordObj)
  (e : exn) :
  1 <= year today < 9999 -> record_ok r ->
  upcoming_one today next_week r = Raise e ->
  exists yb,
    birthday r = Some (mkBirthday (mkdatetime yb 2 29 0 0 0 0))
    /\ (is_leap (year today) = false
        \/ dt_lt (mkdatetime (year today) 2 29 0 0 0 0) today = true).
Proof.
  intros Hy [_ Hb]. unfold upcoming_one.
  destruct (birthday r) as [[t]|] eqn:Eb; [| discriminate].
  destruct (Hb _ eq_refl) as [raw Hraw].
  apply new_Birthday_parsed in Hraw as (Hvalid & Hh & Hmi & Hs & Hus).
  destruct t as [yb m d H M S us]. cbn in Hvalid, Hh, Hmi, Hs, Hus. subst.
  cbn [birthday_value].
  pose proof (replace_year_ok_iff (mkdatetime yb m d 0 0 0 0) (year today))
    as E1.
  destruct (replace_year (mkdatetime yb m d 0 0 0 0) (year today))
    as [t|e1] eqn:Et.
  - assert (Ht : t = mkdatetime (year today) m d 0 0 0 0).
    { unfold replace_year in Et. destruct (check_date_fields _ _ _); now inversion Et. }
    subst t. destruct (dt_lt _ today) eqn:Hlt.
    + pose proof (replace_year_ok_iff (mkdatetime (year today) m d 0 0 0 0)
                    (year today + 1)) as E2.
      destruct (replace_year _ (year today + 1)) as [t'|e2].
      * destruct (_ && _); discriminate.
      * intros _. cbn in E2. symmetry in E2.
        destruct (invalid_other_year (year today + 1) yb m d ltac:(lia)
                    Hvalid E2) as (-> & -> & _).
        exists yb. split; [reflexivity | now right].
    + destruct (_ && _); discriminate.
  - intros _. cbn in E1. symmetry in E1.
    destruct (invalid_other_year (year today) yb m d ltac:(lia) Hvalid E1)
      as (-> & -> & Hl).
    exists yb. split; [reflexivity | now left].
Qed.

(** X15. On a consistent book, before year 9999 and with a valid clock, the
    query fails exactly when some contact's birthday is a 29 February and
    either the current year is not a leap year or its 29 February is
    already past; in every other case it returns a list. *)
Theorem query_fails_only_for_leap_days
  (st : state) (today next_week : datetime) :
  consistent st ->
  1 <= year today < 9999 ->
  plus_days today 7 = Ok next_week ->
  is_ok (get_upcoming_birthdays today st).1 = false
  <-> exists nm r yb,
        stored st nm r
        /\ birthday r = Some (mkBirthday (mkdatetime yb 2 29 0 0 0 0))
        /\ (is_leap (year today) = false
            \/ dt_lt (mkdatetime (year today) 2 29 0 0 0 0) today = true).
Proof.
  intros Hc Hy Hnw. rewrite get_upcoming_birthdays_eq, Hnw. cbn [fst].
  split.
  - destruct (upcoming_loop _ _ _ _) as [l|e] eqn:E; [discriminate|].
    intros _. apply upcoming_loop_raise_elem in E as (r & Hin & Hr).
    destruct (values_stored st r Hc Hin) as [nm Hst].
    destruct (upcoming_one_raise_leap_day today next_week r e Hy
                (stored_record_ok _ _ _ Hc Hst) Hr) as (yb & Hb & Hcase).
    now exists nm, r, yb.
  - intros (nm & r & yb & Hst & Hb & Hcase).
    destruct (leap_day_upcoming_one_fails today next_week r yb Hb Hcase)
      as [msg0 Hone].
    destruct (upcoming_loop_raises today next_week (values st) r _
                (stored_in_values _ _ _ Hst) Hone []) as [msg ->].
    reflexivity.
Qed.

(** X16. After any sequence of operations from the empty book, what the
    query returns is a selection of the book's names in the order of the
    book: every returned name is a contact of the book, and no name is
    returned twice. *)
Theorem query_selects_names (zero_pad : bool) (ops : list op)
  (today : datetime) (upcoming : list str) :
  (get_upcoming_birthdays today (run_ops zero_pad ops empty_state)).1
    = Ok upcoming ->
  upcoming `sublist_of` (data (run_ops zero_pad ops empty_state)).*1
  /\ NoDup upcoming
  /\ (forall nm, nm ∈ upcoming ->
        exists r b, stored (run_ops zero_pad ops empty_state) nm r
                    /\ birthday r = Some b).
Proof.
  set (st := run_ops zero_pad ops empty_state).
  destruct (run_ops_filed zero_pad ops empty_state consistent_empty
              name_keyed_empty) as [Hc Hn]. fold st in Hc, Hn.
  rewrite get_upcoming_birthdays_eq.
  destruct (plus_days today 7) as [nw|e]; [| discriminate]. cbn [fst].
  intros E.
  pose proof (upcoming_loop_ok_projectable _ _ _ _ _ E) as Hall.
  rewrite upcoming_loop_projectable in E by exact Hall.
  injection E as <-. cbn [app].
  assert (Hsub : names_in_window today nw (values st) `sublist_of` (data st).*1).
  { rewrite <- (values_names st Hc Hn). unfold names_in_window.
    apply fmap_sublist, List_filter_sublist. }
  split; [exact Hsub|]. split.
  - eapply sublist_NoDup; [| exact Hsub]. now destruct Hc as (_ & _ & Hk).
  - intros nm Hin. apply names_in_window_elem in Hin as (r & Hr & Hnm & Hw).
    destruct (values_stored st r Hc Hr) as [k Hst].
    assert (k = nm) as ->.
    { apply stored_elem in Hst as (l & Hkl & Hl).
      rewrite <- (Hn k l r Hkl Hl). exact Hnm. }
    unfold in_window in Hw. destruct (birthday r) as [b|] eqn:Eb;
      [| discriminate].
    now exists r, b.
Qed.

(** ** The window in days of the calendar *)

Section DaysAhead.
Variables (today next_week : datetime) (r : RecordObj) (byear bm bd : Z).
Hypothesis Htoday : valid_datetime today = true.
Hypothesis Hnw : plus_days today 7 = Ok next_week.
Hypothesis Hb : birthday r = Some (mkBirthday (mkdatetime byear bm bd 0 0 0 0)).

(** A birthday [k] days after today, for [k] from 1 to 28, is in the window
    exactly up to the seventh day. *)
Lemma in_window_days_ahead (k : nat) (y' : Z) :
  (1 <= k <= 28)%nat ->
  add_days k (date_of today) = (y', bm, bd) ->
  in_window today next_week r = (k <=? 7)%nat.
Proof.
  intros Hk Hadd.
  destruct (valid_datetime_bounds today Htoday) as (Hy & Hm & Hd & Hf).
  destruct (plus_days_closed_form today next_week 7 ltac:(lia) Htoday Hnw)
    as (Hdate & Hy7 & Hh & Hmi & Hs & Hus).
  pose proof (days_in_month_bounds (year today) (month today) Hm) as Hdim.
  unfold date_of in *.
  rewrite add_days_closed_form in Hdate, Hadd by (assumption || lia).
  unfold fields_bounded in Hf.
  destruct today as [y m d H M S us], next_week as [y7 m7 d7 H7 M7 S7 us7].
  cbn [year month day hour minute second microsecond] in *. subst H7 M7 S7 us7.
  change (Z.of_nat 7) with 7 in *.
  assert (Hproj : projected (mkdatetime y m d H M S us)
                    (mkdatetime byear bm bd 0 0 0 0)
                  = mkdatetime y' bm bd 0 0 0 0).
  { unfold projected, this_year.
    cbn [year month day hour minute second microsecond].
    destruct (Z.leb_spec (d + Z.of_nat k) (days_in_month y m));
      [| destruct (Z.ltb_spec m 12)]; injection Hadd as <- <- <-; by_stamps. }
  unfold in_window. rewrite Hb. cbn [birthday_value]. rewrite Hproj.
  destruct (Nat.leb_spec k 7);
    (destruct (Z.leb_spec (d + Z.of_nat k) (days_in_month y m));
     [| destruct (Z.ltb_spec m 12)]); injection Hadd as <- <- <-;
    (destruct (Z.leb_spec (d + 7) (days_in_month y m));
     [| destruct (Z.ltb_spec m 12)]); injection Hdate as -> -> ->;
    try lia; by_stamps.
Qed.

(** A birthday on today's date is in the window at midnight sharp and at no
    other time of the day. *)
Lemma in_window_today :
  bm = month today -> bd = day today ->
  in_window today next_week r
  = (hour today =? 0) && (minute today =? 0) && (second today =? 0)
    && (microsecond today =? 0).
Proof.
  intros -> ->.
  destruct (valid_datetime_bounds today Htoday) as (Hy & Hm & Hd & Hf).
  destruct (plus_days_closed_form today next_week 7 ltac:(lia) Htoday Hnw)
    as (Hdate & Hy7 & Hh & Hmi & Hs & Hus).
  pose proof (days_in_month_bounds (year today) (month today) Hm) as Hdim.
  unfold date_of in *.
  rewrite add_days_closed_form in Hdate by (assumption || lia).
  unfold fields_bounded in Hf.
  destruct today as [y m d H M S us], next_week as [y7 m7 d7 H7 M7 S7 us7].
  cbn [year month day hour minute second microsecond] in *. subst H7 M7 S7 us7.
  change (Z.of_nat 7) with 7 in *.
  unfold in_window. rewrite Hb. cbn [birthday_value].
  unfold projected, this_year.
  cbn [year month day hour minute second microsecond].
  destruct (dt_lt (mkdatetime y m d 0 0 0 0) (mkdatetime y m d H M S us))
    eqn:Hlt; revert Hlt;
    destruct (Z.eqb_spec H 0), (Z.eqb_spec M 0), (Z.eqb_spec S 0),
      (Z.eqb_spec us 0); cbn [andb]; subst;
    (destruct (Z.leb_spec (d + 7) (days_in_month y m));
     [| destruct (Z.ltb_spec m 12)]); injection Hdate as -> -> ->;
    try lia; by_stamps.
Qed.

End DaysAhead.

(** In a reachable book a contact is reported exactly when its own
    projected birthday lies in the window. *)
Lemma reported_iff_in_window (zero_pad : bool) (ops : list op)
  (today next_week : datetime) (upcoming : list str) (nm : str) (r : RecordObj) :
  plus_days today 7 = Ok next_week ->
  (get_upcoming_birthdays today (run_ops zero_pad ops empty_state)).1
    = Ok upcoming ->
  stored (run_ops zero_pad ops empty_state) nm r ->
  nm ∈ upcoming <-> in_window today next_week r = true.
Proof.
  set (st := run_ops zero_pad ops empty_state).
  destruct (run_ops_filed zero_pad ops empty_state consistent_empty
              name_keyed_empty) as [Hc Hn]. fold st in Hc, Hn.
  intros Hnw. rewrite get_upcoming_birthdays_eq, Hnw. cbn [fst].
  intros E Hst.
  pose proof (upcoming_loop_ok_projectable _ _ _ _ _ E) as Hall.
  rewrite upcoming_loop_projectable in E by exact Hall.
  injection E as <-. cbn [app]. rewrite names_in_window_elem.
  split.
  - intros (r' & Hr' & Hnm & Hw).
    destruct (values_stored st r' Hc Hr') as [k Hst'].
    assert (k = nm) as ->.
    { apply stored_elem in Hst' as (l & Hkl & Hl).
      rewrite <- (Hn k l r' Hkl Hl). exact Hnm. }
    destruct Hst as (l & Hget & Hl), Hst' as (l' & Hget' & Hl').
    assert (r' = r) as -> by congruence. exact Hw.
  - intros Hw. exists r. split; [now apply stored_in_values with nm|].
    split; [| exact Hw].
    apply stored_elem in Hst as (l & Hkl & Hl). now apply (Hn nm l r).
Qed.

Lemma stored_birthday_midnight (st : state) (nm : str) (r : RecordObj)
  (b : Birthday) :
  consistent st -> stored st nm r -> birthday r = Some b ->
  b = mkBirthday (mkdatetime (year (birthday_value b))
                    (month (birthday_value b)) (day (birthday_value b))
                    0 0 0 0).
Proof.
  intros Hc Hst Hb.
  destruct (stored_record_ok _ _ _ Hc Hst) as [_ Hok].
  destruct (Hok b Hb) as [raw Hraw].
  apply new_Birthday_parsed in Hraw as (_ & Hh & Hmi & Hs & Hus).
  destruct b as [[y m d H M S us]]. cbn in *. now subst.
Qed.

(** X17. In a book reached from the empty one, when the query returns, a
    contact whose birthday falls [k] days after today, for [k] from 1 to
    28, is among the returned names exactly if [k] is at most 7. *)
Theorem birthday_days_ahead_reported (zero_pad : bool) (ops : list op)
  (today next_week : datetime) (upcoming : list str) (nm : str)
  (r : RecordObj) (b : Birthday) (k : nat) (y' : Z) :
  valid_datetime today = true ->
  plus_days today 7 = Ok next_week ->
  (get_upcoming_birthdays today (run_ops zero_pad ops empty_state)).1
    = Ok upcoming ->
  stored (run_ops zero_pad ops empty_state) nm r ->
  birthday r = Some b ->
  (1 <= k <= 28)%nat ->
  add_days k (date_of today)
    = (y', month (birthday_value b), day (birthday_value b)) ->
  nm ∈ upcoming <-> (k <= 7)%nat.
Proof.
  intros Htoday Hnw Hq Hst Hb Hk Hadd.
  rewrite (reported_iff_in_window zero_pad ops today next_week upcoming nm r
             Hnw Hq Hst).
  pose proof (run_ops_keeps zero_pad ops empty_state consistent_empty) as Hc.
  rewrite (stored_birthday_midnight _ _ _ _ Hc Hst Hb) in Hb.
  rewrite (in_window_days_ahead today next_week r _ _ _ Htoday Hnw Hb k y' Hk
             Hadd).
  apply Nat.leb_le.
Qed.

(** X18. In a book reached from the empty one, when the query returns, a
    contact whose birthday is today's day and month is among the returned
    names only if the clock reads midnight sharp: at any later time of the
    day the birthday counts as past and is looked for next year. *)
Theorem birthday_today_reported_at_midnight (zero_pad : bool) (ops : list op)
  (today next_week : datetime) (upcoming : list str) (nm : str)
  (r : RecordObj) (b : Birthday) :
  valid_datetime today = true ->
  plus_days today 7 = Ok next_week ->
  (get_upcoming_birthdays today (run_ops zero_pad ops empty_state)).1
    = Ok upcoming ->
  stored (run_ops zero_pad ops empty_state) nm r ->
  birthday r = Some b ->
  month (birthday_value b) = month today ->
  day (birthday_value b) = day today ->
  nm ∈ upcoming
  <-> (hour today = 0 /\ minute today = 0 /\ second today = 0
       /\ microsecond today = 0).
Proof.
  intros Htoday Hnw Hq Hst Hb Hm Hd.
  rewrite (reported_iff_in_window zero_pad ops today next_week upcoming nm r
             Hnw Hq Hst).
  pose proof (run_ops_keeps zero_pad ops empty_state consistent_empty) as Hc.
  rewrite (stored_birthday_midnight _ _ _ _ Hc Hst Hb) in Hb.
  rewrite (in_window_today today next_week r _ _ _ Htoday Hnw Hb Hm Hd).
  rewrite !andb_true_iff, !Z.eqb_eq. tauto.
Qed.

(** ** What the commands leave alone *)

Lemma same_book_refl (st : state) : same_book st st.
Proof. now split. Qed.

Lemma input_error_same_book {A} (func : M A) (st : state) :
  same_book st (func st).2 -> same_book st (input_error func st).2.
Proof.
  unfold input_error. destruct (func st) as [[a|e] st']; cbn; [auto|].
  destruct e; auto.
Qed.

Lemma call_get_same (l : loc) (st : state) :
  (call l get st).2 = st
  /\ forall self, (call l get st).1 = Ok self -> heap st !! l = Some self.
Proof.
  unfold call, get. destruct (heap st !! l) as [self|] eqn:E; cbn.
  - rewrite list_insert_id by exact E. split; [now destruct st|].
    now intros self' [= <-].
  - split; [reflexivity | discriminate].
Qed.

Lemma show_phone_numbers_same_book (args : list str) (st : state) :
  same_book st (Handlers.show_phone_numbers args st).2.
Proof.
  apply input_error_same_book.
  unfold bind, item, find. destruct (args !! 0%nat); cbn;
    [| (split; reflexivity)].
  destruct (dict_get s (data st)); cbn; [| (split; reflexivity)].
  destruct (call_get_same l st) as [Hst _].
  destruct (call l get st) as [[self|e] st']; cbn [fst snd] in *; subst;
    (split; reflexivity).
Qed.

Lemma show_all_contacts_same_book (zero_pad : bool) (st : state) :
  same_book st (Handlers.show_all_contacts zero_pad st).2.
Proof.
  apply input_error_same_book.
  unfold bind, get. destruct (length (data st) <? 1)%nat;
    (split; reflexivity).
Qed.

Lemma show_birthday_same_book (zero_pad : bool) (args : list str)
  (st : state) :
  same_book st (Handlers.show_birthday zero_pad args st).2.
Proof.
  apply input_error_same_book.
  unfold bind, item, find. destruct (args !! 0%nat); cbn;
    [| (split; reflexivity)].
  destruct (dict_get s (data st)); cbn; [| (split; reflexivity)].
  destruct (call_get_same l st) as [Hst _].
  destruct (call l get st) as [[self|e] st']; cbn [fst snd] in *; subst;
    [| (split; reflexivity)].
  destruct (birthday self); (split; reflexivity).
Qed.

Lemma upcoming_birthdays_same_book (today : datetime) (st : state) :
  same_book st (Handlers.upcoming_birthdays today st).2.
Proof.
  apply input_error_same_book.
  unfold bind at 1.
  pose proof (get_upcoming_birthdays_state today st) as Hq.
  destruct (get_upcoming_birthdays today st) as [[upcoming|e] st'];
    cbn [fst snd] in *; subst; [| (split; reflexivity)].
  destruct upcoming; (split; reflexivity).
Qed.

(** X19. The commands [phone], [all], [show-birthday] and [birthdays] only
    read: whatever the arguments, the clock and the state, they leave the
    book and every record as they were. *)
Theorem reading_commands_change_nothing (zero_pad : bool) (st : state)
  (args : list str) (today : datetime) :
  same_book st (Handlers.show_phone_numbers args st).2
  /\ same_book st (Handlers.show_all_contacts zero_pad st).2
  /\ same_book st (Handlers.show_birthday zero_pad args st).2
  /\ same_book st (Handlers.upcoming_birthdays today st).2.
Proof.
  split; [apply show_phone_numbers_same_book|].
  split; [apply show_all_contacts_same_book|].
  split; [apply show_birthday_same_book | apply upcoming_birthdays_same_book].
Qed.

Lemma footprint_frame (nm : str) (st st' : state) :
  consistent st -> name_keyed st -> footprint nm st st' ->
  forall k r, k <> nm -> stored st k r <-> stored st' k r.
Proof.
  intros (_ & Hd & Hk) Hn Hfoot k r Hne. rewrite Forall_forall in Hd.
  assert (Hlt : forall l, dict_get k (data st) = Some l ->
                          (l < length (heap st))%nat).
  { intros l Hl. apply dict_get_Some_elem in Hl. exact (Hd _ Hl). }
  destruct Hfoot as [(r' & Hnone & Hh & Hdata)
                    |[(l0 & r' & Hsome & Hh & Hdata) | [Hh Hdata]]];
    unfold stored; rewrite Hh, Hdata.
  - assert (Hget : dict_get k (data st ++ [(nm, length (heap st))])
                   = dict_get k (data st)).
    { rewrite <- (dict_set_absent nm _ _ Hnone). now apply dict_get_set_ne. }
    rewrite Hget. split; intros (l & Hl & Hr); exists l; (split; [exact Hl|]).
    + rewrite lookup_app_l by now apply Hlt. exact Hr.
    + rewrite lookup_app_l in Hr by now apply Hlt. exact Hr.
  - assert (Hdiff : forall l, dict_get k (data st) = Some l -> l <> l0).
    { intros l Hl ->. specialize (Hlt _ Hl).
      destruct (lookup_lt_is_Some_2 _ _ Hlt) as [r0 Hr0].
      apply dict_get_Some_elem in Hl, Hsome.
      pose proof (Hn k l0 r0 Hl Hr0). pose proof (Hn nm l0 r0 Hsome Hr0).
      congruence. }
    split; intros (l & Hl & Hr); exists l; (split; [exact Hl|]).
    + rewrite list_lookup_insert_ne
        by (intros Heq; apply (Hdiff l Hl); congruence).
      exact Hr.
    + rewrite list_lookup_insert_ne in Hr
        by (intros Heq; apply (Hdiff l Hl); congruence).
      exact Hr.
  - reflexivity.
Qed.

Lemma input_error_footprint {A} (nm : str) (func : M A) (st : state) :
  footprint nm st (func st).2 -> footprint nm st (input_error func st).2.
Proof.
  unfold input_error. destruct (func st) as [[a|e] st']; cbn; [auto|].
  destruct e; auto.
Qed.

Lemma footprint_same (nm : str) (st st' : state) :
  heap st' = heap st -> data st' = data st -> footprint nm st st'.
Proof. intros Hh Hd. right. right. now split. Qed.

(** A method call on the record filed under [nm], followed by a print. *)
Lemma call_print_footprint {A} (nm : str) (l : loc) (m : ST RecordObj A)
  (line : str) (st : state) :
  dict_get nm (data st) = Some l ->
  footprint nm st ((call l m ;;; print line) st).2.
Proof.
  intros Hl. unfold bind, call, print.
  destruct (heap st !! l) as [self|]; [| now apply footprint_same].
  destruct (m self) as [[a|e] self']; cbn;
    right; left; exists l, self'; now repeat split.
Qed.

Lemma add_contact_footprint (st : state) (nm : str) (more : list str) :
  footprint nm st (Handlers.add_contact (nm :: more) st).2.
Proof.
  apply input_error_footprint.
  destruct more as [|phone more]; [now apply footprint_same|].
  cbv [bind item find ret]. cbn [lookup list_lookup].
  destruct (dict_get nm (data st)) as [l|] eqn:Hget.
  - now apply (call_print_footprint nm l (add_phone phone)).
  - cbv [alloc add_record]. cbn [heap data stdout]. rewrite lookup_fresh.
    cbn [fst snd new_Record name name_value]. unfold call, print.
    cbn [heap data stdout]. rewrite lookup_fresh.
    destruct (add_phone phone (new_Record nm)) as [[a|e] self']; cbn;
      left; exists self'; rewrite insert_fresh, (dict_set_absent _ _ _ Hget);
      now repeat split.
Qed.

Lemma change_phone_footprint (st : state) (nm : str) (more : list str) :
  footprint nm st (Handlers.change_phone (nm :: more) st).2.
Proof.
  apply input_error_footprint.
  destruct more as [|old_phone [|new_phone more]];
    [now apply footprint_same | now apply footprint_same |].
  cbv [bind item find ret]. cbn [lookup list_lookup].
  destruct (dict_get nm (data st)) as [l|] eqn:Hget;
    [| now apply footprint_same].
  now apply (call_print_footprint nm l (edit_phone old_phone new_phone)).
Qed.

Lemma add_birthday_footprint (st : state) (nm : str) (more : list str) :
  footprint nm st (Handlers.add_birthday (nm :: more) st).2.
Proof.
  apply input_error_footprint.
  destruct more as [|bday more]; [now apply footprint_same|].
  cbv [bind item find ret]. cbn [lookup list_lookup].
  destruct (dict_get nm (data st)) as [l|] eqn:Hget;
    [| now apply footprint_same].
  now apply (call_print_footprint nm l (add_birthday bday)).
Qed.

(** X20. In a book reached from the empty one, the commands [add], [change]
    and [add-birthday] given the name [nm] touch that contact only: every
    other name is filed with the same record, unchanged, before and after,
    whether the command succeeded or printed an error. *)
Theorem commands_touch_one_contact (zero_pad : bool) (ops : list op)
  (nm : str) (more : list str) (k : str) (r : RecordObj) :
  k <> nm ->
  (stored (run_ops zero_pad ops empty_state) k r
   <-> stored (Handlers.add_contact (nm :: more)
                 (run_ops zero_pad ops empty_state)).2 k r)
  /\ (stored (run_ops zero_pad ops empty_state) k r
      <-> stored (Handlers.change_phone (nm :: more)
                    (run_ops zero_pad ops empty_state)).2 k r)
  /\ (stored (run_ops zero_pad ops empty_state) k r
      <-> stored (Handlers.add_birthday (nm :: more)
                    (run_ops zero_pad ops empty_state)).2 k r).
Proof.
  intros Hne.
  destruct (run_ops_filed zero_pad ops empty_state consistent_empty
              name_keyed_empty) as [Hc Hn].
  split; [| split]; apply (footprint_frame nm); try assumption.
  - apply add_contact_footprint.
  - apply change_phone_footprint.
  - apply add_birthday_footprint.
Qed.

(** ** Dates as text *)

Lemma first_some_elem {A B} (f : A -> option B) (l : list A) (b : B) :
  first_some f l = Some b -> exists a, a ∈ l /\ f a = Some b.
Proof.
  induction l as [|a l IH]; cbn; [discriminate|].
  destruct (f a) as [b'|] eqn:E.
  - intros [= <-]. exists a. split; [left | exact E].
  - intros H. destruct (IH H) as (a' & Hin & Ha'). exists a'.
    split; [now right | exact Ha'].
Qed.

Lemma re_match_cons_inv (alts : list token) (groups : list (list token))
  (s : str) (txts : list str) (rest : str) :
  re_match (alts :: groups) s = Some (txts, rest) ->
  exists t txt s' txts',
    t ∈ alts /\ t s = Some (txt, s')
    /\ re_match groups s' = Some (txts', rest) /\ txts = txt :: txts'.
Proof.
  cbn [re_match]. intros H.
  apply first_some_elem in H as (t & Hin & Ht).
  destruct (t s) as [[txt s']|] eqn:Ets; [| discriminate].
  destruct (re_match groups s') as [[txts' rest']|] eqn:Er; [| discriminate].
  injection Ht as <- <-. now exists t, txt, s', txts'.
Qed.

Lemma re_dot_inv (groups : list (list token)) (s : str) txts rest :
  re_match (re_dot :: groups) s = Some (txts, rest) ->
  exists s' txts', s = 46%N :: s' /\ txts = [46%N] :: txts'
                   /\ re_match groups s' = Some (txts', rest).
Proof.
  intros H. apply re_match_cons_inv in H as (t & txt & s' & txts' & Hin & Ht & Hrest & ->).
  apply list_elem_of_singleton in Hin as ->. unfold chars1 in Ht.
  destruct s as [|c s0]; [discriminate|].
  destruct (N.eqb_spec 46 c) as [<-|]; [| discriminate].
  injection Ht as <- <-. now exists s0, txts'.
Qed.

(** On two digits followed by a dot, a group of the pattern can only have
    taken both digits. *)
Lemma two_digit_group_inv (alts : list token) (groups : list (list token))
  (a b : N) (s : str) txts rest :
  Forall (fun t : token =>
            (exists p q, t = chars2 p q) \/ (exists p, t = chars1 p))
    alts ->
  ascii_digit a = true -> ascii_digit b = true ->
  re_match (alts :: re_dot :: groups) (a :: b :: 46%N :: s) = Some (txts, rest) ->
  exists t txts', t ∈ alts /\ t (a :: b :: 46%N :: s) = Some ([a; b], 46%N :: s)
                  /\ txts = [a; b] :: [46%N] :: txts'
                  /\ re_match groups s = Some (txts', rest).
Proof.
  intros Hshape Ha Hb H.
  apply re_match_cons_inv in H as (t & txt & s' & txts' & Hin & Ht & Hrest & ->).
  rewrite Forall_forall in Hshape.
  destruct (Hshape t Hin) as [(p & q & ->) | (p & ->)].
  - unfold chars2 in Ht. destruct (p a && q b) eqn:E; [| discriminate].
    injection Ht as <- <-.
    apply re_dot_inv in Hrest as (s'' & txts'' & [= <-] & -> & Hrest).
    exists (chars2 p q), txts''. unfold chars2. rewrite E. now repeat split.
  - unfold chars1 in Ht. destruct (p a); [| discriminate].
    injection Ht as <- <-.
    apply re_dot_inv in Hrest as (s'' & txts'' & [= Hb46] & _).
    apply ascii_digit_range in Hb. lia.
Qed.

Lemma re_d_shape :
  Forall (fun t : token =>
            (exists p q, t = chars2 p q) \/ (exists p, t = chars1 p)) re_d.
Proof.
  unfold re_d.
  repeat (apply Forall_cons; split; [first [solve [left; eauto] | solve [right; eauto]] |]).
  apply Forall_nil_2.
Qed.

Lemma re_m_shape :
  Forall (fun t : token =>
            (exists p q, t = chars2 p q) \/ (exists p, t = chars1 p)) re_m.
Proof.
  unfold re_m.
  repeat (apply Forall_cons; split; [first [solve [left; eauto] | solve [right; eauto]] |]).
  apply Forall_nil_2.
Qed.

Lemma re_Y_inv (a b c d : N) txts rest :
  re_match [re_Y] [a; b; c; d] = Some (txts, rest) ->
  txts = [[a; b; c; d]] /\ rest = [].
Proof.
  intros H.
  apply re_match_cons_inv in H as (t & txt & s' & txts' & Hin & Ht & Hrest & ->).
  apply list_elem_of_singleton in Hin as ->. unfold chars4 in Ht.
  destruct (_ && _); [| discriminate]. injection Ht as <- <-.
  cbn in Hrest. now injection Hrest as <- <-.
Qed.

(** The groups of a match on eight digits with their two dots. *)
Lemma match_dmY_inv (d1 d2 m1 m2 y1 y2 y3 y4 : N) txts rest :
  Forall (fun c => ascii_digit c = true) [d1; d2; m1; m2; y1; y2; y3; y4] ->
  re_match [re_d; re_dot; re_m; re_dot; re_Y]
    (dmY_text d1 d2 m1 m2 y1 y2 y3 y4) = Some (txts, rest) ->
  txts = [[d1; d2]; [46%N]; [m1; m2]; [46%N]; [y1; y2; y3; y4]] /\ rest = [].
Proof.
  intros H Hre.
  apply Forall_cons in H as [Hd1 H]. apply Forall_cons in H as [Hd2 H].
  apply Forall_cons in H as [Hm1 H]. apply Forall_cons in H as [Hm2 H].
  unfold dmY_text in Hre.
  apply (two_digit_group_inv re_d _ d1 d2 _ _ _ re_d_shape Hd1 Hd2) in Hre
    as (_ & txts1 & _ & _ & -> & Hre).
  apply (two_digit_group_inv re_m _ m1 m2 _ _ _ re_m_shape Hm1 Hm2) in Hre
    as (_ & txts2 & _ & _ & -> & Hre).
  apply re_Y_inv in Hre as [-> ->]. now split.
Qed.

Lemma strptime_dmY_text (d1 d2 m1 m2 y1 y2 y3 y4 : N) :
  Forall (fun c => ascii_digit c = true) [d1; d2; m1; m2; y1; y2; y3; y4] ->
  valid_date (four_digits y1 y2 y3 y4) (two_digits m1 m2) (two_digits d1 d2)
    = true ->
  strptime (dmY_text d1 d2 m1 m2 y1 y2 y3 y4)
  = Ok (mkdatetime (four_digits y1 y2 y3 y4) (two_digits m1 m2)
          (two_digits d1 d2) 0 0 0 0).
Proof.
  intros Hdig Hvalid.
  destruct (valid_date_bounds _ _ _ Hvalid) as (Hy & Hm & Hd & Hdim).
  pose proof (match_dmY d1 d2 m1 m2 y1 y2 y3 y4 Hdig ltac:(lia) Hm) as Hre.
  apply Forall_cons in Hdig as [Hd1 Hdig]. apply Forall_cons in Hdig as [Hd2 Hdig].
  apply Forall_cons in Hdig as [Hm1 Hdig]. apply Forall_cons in Hdig as [Hm2 Hdig].
  apply Forall_cons in Hdig as [Hy1 Hdig]. apply Forall_cons in Hdig as [Hy2 Hdig].
  apply Forall_cons in Hdig as [Hy3 Hdig]. apply Forall_cons in Hdig as [Hy4 _].
  unfold strptime. rewrite Hre.
  rewrite int_four_digits, !int_two_digits by assumption.
  now rewrite check_date_fields_valid.
Qed.

(** X21. A text [DD.MM.YYYY] of eight ASCII digits is accepted by
    [Birthday] exactly when its day, month and year name an existing
    calendar day of a year from 1 to 9999; every other such text raises the
    format error. *)
Theorem Birthday_accepts_existing_dates_only
  (d1 d2 m1 m2 y1 y2 y3 y4 : N) :
  Forall (fun c => ascii_digit c = true) [d1; d2; m1; m2; y1; y2; y3; y4] ->
  (valid_date (four_digits y1 y2 y3 y4) (two_digits m1 m2) (two_digits d1 d2)
     = true ->
   new_Birthday (dmY_text d1 d2 m1 m2 y1 y2 y3 y4)
   = Ok (mkBirthday
           (mkdatetime (four_digits y1 y2 y3 y4) (two_digits m1 m2)
              (two_digits d1 d2) 0 0 0 0)))
  /\ (valid_date (four_digits y1 y2 y3 y4) (two_digits m1 m2)
        (two_digits d1 d2) = false ->
      new_Birthday (dmY_text d1 d2 m1 m2 y1 y2 y3 y4) = Raise birthday_error).
Proof.
  intros Hdig. split.
  - intros Hvalid. unfold new_Birthday.
    now rewrite strptime_dmY_text.
  - intros Hbad. apply new_Birthday_rejects. unfold strptime.
    destruct (re_match _ _) as [[txts rest]|] eqn:Hre; [| reflexivity].
    destruct (match_dmY_inv _ _ _ _ _ _ _ _ _ _ Hdig Hre) as [-> ->].
    apply Forall_cons in Hdig as [Hd1 Hdig]. apply Forall_cons in Hdig as [Hd2 Hdig].
    apply Forall_cons in Hdig as [Hm1 Hdig]. apply Forall_cons in Hdig as [Hm2 Hdig].
    apply Forall_cons in Hdig as [Hy1 Hdig]. apply Forall_cons in Hdig as [Hy2 Hdig].
    apply Forall_cons in Hdig as [Hy3 Hdig]. apply Forall_cons in Hdig as [Hy4 _].
    rewrite int_four_digits, !int_two_digits by assumption.
    pose proof (check_date_fields_ok_iff (four_digits y1 y2 y3 y4)
                  (two_digits m1 m2) (two_digits d1 d2)) as Hc.
    rewrite Hbad in Hc.
    now destruct (check_date_fields _ _ _).
Qed.

(** The decimal digit printed for [k]. *)
Lemma printed_digit (k : Z) :
  0 <= k < 10 ->
  ascii_digit (Z.to_N (48 + k)) = true /\ digit_value (Z.to_N (48 + k)) = k.
Proof.
  intros Hk. split.
  - unfold ascii_digit, in_range.
    apply andb_true_intro; split; apply N.leb_le; lia.
  - unfold digit_value. lia.
Qed.

Lemma fmt2_digits (n : Z) :
  0 <= n < 100 ->
  exists a b, fmt2 n = [a; b] /\ ascii_digit a = true /\ ascii_digit b = true
              /\ two_digits a b = n.
Proof.
  intros Hn.
  assert (0 <= (n / 10) mod 10 < 10) as H1 by (apply Z.mod_pos_bound; lia).
  assert (0 <= n mod 10 < 10) as H0 by (apply Z.mod_pos_bound; lia).
  destruct (printed_digit _ H1) as [A1 V1], (printed_digit _ H0) as [A0 V0].
  eexists _, _. split; [reflexivity |]. split; [exact A1 |]. split; [exact A0 |].
  unfold two_digits. rewrite V1, V0.
  rewrite Z.mod_small by (split; [apply Z.div_pos; lia | apply Z.div_lt_upper_bound; lia]).
  pose proof (Z.div_mod n 10 ltac:(lia)). lia.
Qed.

Lemma fmtY_digits (y : Z) :
  0 <= y < 10000 ->
  exists a b c d,
    fmtY true y = [a; b; c; d]
    /\ Forall (fun x => ascii_digit x = true) [a; b; c; d]
    /\ four_digits a b c d = y
    /\ (1000 <= y -> a <> 48%N).
Proof.
  intros Hy.
  assert (0 <= (y / 1000) mod 10 < 10) as H3 by (apply Z.mod_pos_bound; lia).
  assert (0 <= (y / 100) mod 10 < 10) as H2 by (apply Z.mod_pos_bound; lia).
  assert (0 <= (y / 10) mod 10 < 10) as H1 by (apply Z.mod_pos_bound; lia).
  assert (0 <= y mod 10 < 10) as H0 by (apply Z.mod_pos_bound; lia).
  destruct (printed_digit _ H3) as [A3 V3], (printed_digit _ H2) as [A2 V2],
    (printed_digit _ H1) as [A1 V1], (printed_digit _ H0) as [A0 V0].
  eexists _, _, _, _. split; [reflexivity |].
  split; [repeat (apply Forall_cons; split; [assumption |]); apply Forall_nil_2 |].
  split.
  - unfold four_digits. rewrite V3, V2, V1, V0.
    clear - Hy. Z.div_mod_to_equations. lia.
  - intros Hbig Heq.
    assert (digit_value (Z.to_N (48 + (y / 1000) mod 10)) = 0) as Hz
      by (rewrite Heq; reflexivity).
    rewrite V3 in Hz. clear - Hy Hbig Hz. Z.div_mod_to_equations. lia.
Qed.

(** X22. What [show-birthday] prints can be typed back: the text printed
    for a stored date is accepted by [Birthday] and gives that date again,
    provided the year is printed with four digits (a padding [%Y], or a year
    from 1000 on). *)
Theorem printed_birthday_parses_back (zero_pad : bool) (t : datetime) :
  parsed_date t ->
  zero_pad = true \/ 1000 <= year t ->
  new_Birthday (strftime zero_pad t) = Ok (mkBirthday t).
Proof.
  intros (Hvalid & Hh & Hmi & Hs & Hus) Hpad.
  destruct t as [y m d h mi s us].
  cbn [year month day hour minute second microsecond] in *. subst h mi s us.
  destruct (valid_date_bounds _ _ _ Hvalid) as (Hy & Hm & Hd & Hdim).
  pose proof (days_in_month_bounds y m) as Hb.
  destruct (fmt2_digits d ltac:(lia)) as (d1 & d2 & Ed & Ad1 & Ad2 & Vd).
  destruct (fmt2_digits m ltac:(lia)) as (m1 & m2 & Em & Am1 & Am2 & Vm).
  destruct (fmtY_digits y ltac:(unfold MINYEAR, MAXYEAR in *; lia))
    as (y1 & y2 & y3 & y4 & Ey & Ay & Vy & Hlead).
  assert (fmtY zero_pad y = [y1; y2; y3; y4]) as EY.
  { destruct zero_pad; [exact Ey |].
    destruct Hpad as [? | Hbig]; [discriminate |].
    apply Forall_cons in Ay as [A1 Ay]. apply Forall_cons in Ay as [A2 Ay].
    apply Forall_cons in Ay as [A3 Ay]. apply Forall_cons in Ay as [A4 _].
    rewrite <- Vy at 1. apply fmtY_four_digits; auto. }
  assert (strftime zero_pad (mkdatetime y m d 0 0 0 0)
          = dmY_text d1 d2 m1 m2 y1 y2 y3 y4) as ->.
  { unfold strftime. cbn [day month year]. rewrite Ed, Em, EY. reflexivity. }
  unfold new_Birthday. rewrite strptime_dmY_text.
  - cbn. now rewrite Vy, Vm, Vd.
  - repeat (apply Forall_cons; split; [assumption |]). exact Ay.
  - now rewrite Vy, Vm, Vd.
Qed.

(** ** The command loop *)

Lemma lstrip_length (s : str) : (length (lstrip s) <= length s)%nat.
Proof.
  induction s as [|c s IH]; cbn; [lia|]. destruct (isspace c); cbn; lia.
Qed.

Lemma lstrip_head (s : str) (c : N) (s' : str) :
  lstrip s = c :: s' -> isspace c = false.
Proof.
  induction s as [|a s IH]; cbn; [discriminate|].
  destruct (isspace a) eqn:E; [exact IH|]. now intros [= <- <-].
Qed.

Lemma lstrip_idem (s : str) : lstrip (lstrip s) = lstrip s.
Proof.
  induction s as [|a s IH]; cbn; [reflexivity|].
  destruct (isspace a) eqn:E; [exact IH|]. cbn. now rewrite E.
Qed.

Lemma lstrip_nil_iff_blank (s : str) : lstrip s = [] <-> blank s.
Proof.
  unfold blank. induction s as [|a s IH]; cbn.
  - split; [constructor | reflexivity].
  - destruct (isspace a) eqn:E.
    + rewrite IH. split; [now constructor | now inversion 1].
    + split; [discriminate | inversion 1; congruence].
Qed.

Lemma take_word_length (s w rest : str) :
  take_word s = (w, rest) -> (length rest <= length s)%nat.
Proof.
  revert w rest. induction s as [|c s IH]; cbn; intros w rest.
  - now intros [= <- <-].
  - destruct (isspace c); [intros [= <- <-]; cbn; lia|].
    destruct (take_word s) as [w' rest']. intros [= <- <-].
    specialize (IH _ _ eq_refl). lia.
Qed.

Lemma take_word_no_space (s w rest : str) :
  take_word s = (w, rest) -> Forall (fun c => isspace c = false) w.
Proof.
  revert w rest. induction s as [|c s IH]; cbn; intros w rest.
  - intros [= <- <-]. constructor.
  - destruct (isspace c) eqn:E; [intros [= <- <-]; constructor|].
    destruct (take_word s) as [w' rest']. intros [= <- <-].
    constructor; [exact E | now apply (IH _ _ eq_refl)].
Qed.

(** The word taken where a word starts. *)
Lemma take_word_word (c : N) (s w rest : str) :
  isspace c = false -> take_word (c :: s) = (w, rest) ->
  word w /\ (length rest <= length s)%nat.
Proof.
  intros Hc H. pose proof (take_word_no_space _ _ _ H) as Hw.
  cbn in H. rewrite Hc in H. destruct (take_word s) as [w' rest'] eqn:E.
  injection H as <- <-. split; [split; [discriminate | exact Hw]|].
  now apply take_word_length in E.
Qed.

(** Any number of rounds above the length of the text gives the same
    list. *)
Lemma split_fuel_enough (fuel fuel' : nat) (maxcount : option nat) (s : str) :
  (length s < fuel)%nat -> (length s < fuel')%nat ->
  split_fuel fuel maxcount s = split_fuel fuel' maxcount s.
Proof.
  revert fuel' maxcount s.
  induction fuel as [|fuel IH]; intros fuel' maxcount s Hf Hf'; [lia|].
  destruct fuel' as [|fuel']; [lia|]. cbn [split_fuel].
  pose proof (lstrip_length s) as Hl.
  destruct (lstrip s) as [|c s'] eqn:E; [reflexivity|].
  pose proof (lstrip_head _ _ _ E) as Hc.
  destruct (take_word (c :: s')) as [w rest] eqn:Ew.
  destruct (take_word_word _ _ _ _ Hc Ew) as [_ Hlen]. cbn in Hl.
  destruct maxcount as [[|n]|]; [reflexivity | |];
    f_equal; apply IH; lia.
Qed.

(** [split], one round at a time. *)
Lemma split_eq (maxsplit : option nat) (s : str) :
  split maxsplit s
  = match lstrip s with
    | [] => []
    | c :: s' =>
        match maxsplit with
        | Some O => [c :: s']
        | _ => let '(w, rest) := take_word (c :: s') in
               w :: split (Nat.pred <$> maxsplit) rest
        end
    end.
Proof.
  unfold split at 1. cbn [split_fuel].
  pose proof (lstrip_length s) as Hl.
  destruct (lstrip s) as [|c s'] eqn:E; [reflexivity|].
  pose proof (lstrip_head _ _ _ E) as Hc.
  destruct (take_word (c :: s')) as [w rest] eqn:Ew.
  destruct (take_word_word _ _ _ _ Hc Ew) as [_ Hlen]. cbn in Hl.
  destruct maxsplit as [[|n]|]; [reflexivity | |];
    f_equal; unfold split; apply split_fuel_enough; lia.
Qed.

Lemma split_lstrip (maxsplit : option nat) (s : str) :
  split maxsplit (lstrip s) = split maxsplit s.
Proof. now rewrite (split_eq _ (lstrip s)), (split_eq _ s), lstrip_idem. Qed.

Lemma split_blank (maxsplit : option nat) (s : str) :
  blank s -> split maxsplit s = [].
Proof. intros H. apply lstrip_nil_iff_blank in H. now rewrite split_eq, H. Qed.


(** What [split] without a limit returns are words. *)
Lemma split_words (s : str) : Forall word (split None s).
Proof.
  unfold split. generalize (S (length s)) as fuel. intros fuel. revert s.
  induction fuel as [|fuel IH]; intros s; cbn [split_fuel]; [constructor|].
  destruct (lstrip s) as [|c s'] eqn:E; [constructor|].
  pose proof (lstrip_head _ _ _ E) as Hc.
  destruct (take_word (c :: s')) as [w rest] eqn:Ew.
  destruct (take_word_word _ _ _ _ Hc Ew) as [Hw _].
  constructor; [exact Hw | apply IH].
Qed.

(** The two splits of the loop's body give the words of the line: the first
    is the command, the others are the arguments. *)
Lemma command_and_args (user_input : str) :
  match split (Some 1%nat) user_input with
  | [] => split None user_input = []
  | command :: args =>
      split None user_input
      = command :: match args with
                   | rest :: _ => split None rest
                   | [] => []
                   end
  end.
Proof.
  rewrite (split_eq (Some 1%nat)), (split_eq None).
  destruct (lstrip user_input) as [|c s']; [reflexivity|].
  destruct (take_word (c :: s')) as [w rest]. cbn [fmap option_fmap option_map Nat.pred].
  f_equal. rewrite (split_eq (Some 0%nat)).
  destruct (lstrip rest) as [|c' rest'] eqn:E.
  - apply split_blank. now apply lstrip_nil_iff_blank.
  - now rewrite <- E, split_lstrip.
Qed.

(** X23. The loop's body handles a line by its words, split at
    whitespace: the first word is the command, the others are its
    arguments, and a line without a word raises [ValueError] from the
    unpacking, outside every handler. *)
Theorem line_is_handled_by_its_words (save_data : M unit) (zero_pad : bool)
  (today : datetime) (user_input : str) :
  main_iteration save_data zero_pad today user_input
  = match split None user_input with
    | [] =>
        raise (ValueError
                 (u "not enough values to unpack (expected at least 1, got 0)"))
    | command :: args => dispatch save_data zero_pad today command args
    end.
Proof.
  unfold main_iteration. pose proof (command_and_args user_input) as H.
  destruct (split (Some 1%nat) user_input) as [|command args]; rewrite H;
    reflexivity.
Qed.

Lemma main_loop_app (save_data : M unit) (zero_pad : bool)
  (inputs more : list (datetime * str)) (st : state) :
  main_loop save_data zero_pad (inputs ++ more) st
  = match main_loop save_data zero_pad inputs st with
    | (Ok Continue, st') => main_loop save_data zero_pad more st'
    | r => r
    end.
Proof.
  revert st. induction inputs as [|[today line] inputs IH]; intros st;
    [reflexivity|].
  cbn [app main_loop]. unfold bind.
  destruct (main_iteration save_data zero_pad today line st) as [[[]|e] st'];
    [apply IH | reflexivity | reflexivity].
Qed.

Lemma blank_line_iteration (save_data : M unit) (zero_pad : bool)
  (today : datetime) (line : str) (st : state) :
  blank line ->
  main_iteration save_data zero_pad today line st
  = (Raise (ValueError
              (u "not enough values to unpack (expected at least 1, got 0)")),
     st).
Proof.
  intros H. unfold main_iteration. now rewrite (split_blank _ _ H).
Qed.

(** X24. A blank line ends the session with an exception: when the lines
    read so far left the loop running, a line that is empty or all
    whitespace raises [ValueError] out of the loop, in the state those
    lines left; nothing is printed for it, the book is not saved, and the
    lines after it are never read. *)
Theorem blank_line_ends_session (save_data : M unit) (zero_pad : bool)
  (inputs more : list (datetime * str)) (today : datetime) (line : str)
  (st st' : state) :
  blank line ->
  main_loop save_data zero_pad inputs st = (Ok Continue, st') ->
  main_loop save_data zero_pad (inputs ++ (today, line) :: more) st
  = (Raise (ValueError
              (u "not enough values to unpack (expected at least 1, got 0)")),
     st').
Proof.
  intros Hblank Hrun. rewrite main_loop_app, Hrun. cbn [main_loop].
  unfold bind. now rewrite (blank_line_iteration _ _ _ _ _ Hblank).
Qed.

Lemma sound_book_same (st st' : state) :
  same_book st st' -> sound_book st -> sound_book st'.
Proof.
  destruct st as [h d o], st' as [h' d' o']. intros [Hh Hd]. cbn in *.
  subst h' d'. intros (H & Hn & Hw).
  split; [exact H | split; [exact Hn | exact Hw]].
Qed.

Lemma footprint_names (nm : str) (st st' : state) :
  word nm -> footprint nm st st' -> names_are_words st ->
  names_are_words st'.
Proof.
  unfold names_are_words.
  intros Hnm [(r' & _ & _ & ->) | [(l & r' & _ & _ & ->) | [_ ->]]] H;
    [| exact H | exact H].
  apply Forall_app. split; [exact H|].
  apply Forall_cons. split; [exact Hnm | apply Forall_nil_2].
Qed.

Lemma same_book_names (st st' : state) :
  same_book st st' -> names_are_words st -> names_are_words st'.
Proof. unfold names_are_words. now intros [_ ->]. Qed.

Lemma add_contact_names (args : list str) (st : state) :
  Forall word args -> names_are_words st ->
  names_are_words (Handlers.add_contact args st).2.
Proof.
  intros Hargs. destruct args as [|nm more].
  - apply same_book_names. apply input_error_same_book. split; reflexivity.
  - apply Forall_cons in Hargs as [Hnm _].
    apply (footprint_names nm); [exact Hnm | apply add_contact_footprint].
Qed.

Lemma change_phone_names (args : list str) (st : state) :
  Forall word args -> names_are_words st ->
  names_are_words (Handlers.change_phone args st).2.
Proof.
  intros Hargs. destruct args as [|nm more].
  - apply same_book_names. apply input_error_same_book. split; reflexivity.
  - apply Forall_cons in Hargs as [Hnm _].
    apply (footprint_names nm); [exact Hnm | apply change_phone_footprint].
Qed.

Lemma add_birthday_names (args : list str) (st : state) :
  Forall word args -> names_are_words st ->
  names_are_words (Handlers.add_birthday args st).2.
Proof.
  intros Hargs. destruct args as [|nm more].
  - apply same_book_names. apply input_error_same_book. split; reflexivity.
  - apply Forall_cons in Hargs as [Hnm _].
    apply (footprint_names nm); [exact Hnm | apply add_birthday_footprint].
Qed.

Lemma then_ret_state {A B} (m : M A) (b : B) (st : state) :
  ((m ;;; ret b) st).2 = (m st).2.
Proof. unfold bind, ret. now destruct (m st) as [[a|e] st']. Qed.

Lemma print_same_book (line : str) (st : state) :
  same_book st (print line st).2.
Proof. split; reflexivity. Qed.

(** A command of the loop as one of the operations. *)
Lemma command_sound (zero_pad : bool) (o : op) (st : state) :
  sound_book st ->
  names_are_words (run_op zero_pad o st) ->
  sound_book (run_op zero_pad o st).
Proof.
  intros (H & Hn & _) Hw.
  split; [now apply run_op_keeps | split; [now apply run_op_keeps_keys | exact Hw]].
Qed.

Section Session.
Variables (save_data : M unit) (zero_pad : bool).
Hypothesis save_data_reads : forall st, same_book st (save_data st).2.

Lemma dispatch_sound (today : datetime) (command : str) (args : list str)
  (st : state) :
  Forall word args -> sound_book st ->
  sound_book (dispatch save_data zero_pad today command args st).2.
Proof.
  intros Hargs Hst. pose proof Hst as (H & Hn & Hw). unfold dispatch.
  repeat case_bool_decide; rewrite ?then_ret_state.
  - apply sound_book_same with st; [| exact Hst].
    unfold bind. specialize (save_data_reads st).
    destruct (save_data st) as [[[]|e] st1]; cbn in *; [| assumption].
    destruct save_data_reads as [Hh Hd]. split; cbn; assumption.
  - now apply sound_book_same with st.
  - apply (command_sound zero_pad (CmdAdd args)); [exact Hst|].
    now apply add_contact_names.
  - apply (command_sound zero_pad (CmdChange args)); [exact Hst|].
    now apply change_phone_names.
  - apply sound_book_same with st; [| exact Hst].
    apply show_phone_numbers_same_book.
  - apply sound_book_same with st; [| exact Hst].
    apply show_all_contacts_same_book.
  - apply (command_sound zero_pad (CmdAddBirthday args)); [exact Hst|].
    now apply add_birthday_names.
  - apply sound_book_same with st; [| exact Hst].
    apply show_birthday_same_book.
  - apply sound_book_same with st; [| exact Hst].
    apply upcoming_birthdays_same_book.
  - now apply sound_book_same with st.
Qed.

Lemma main_iteration_sound (today : datetime) (line : str) (st : state) :
  sound_book st ->
  sound_book (main_iteration save_data zero_pad today line st).2.
Proof.
  intros Hst. unfold main_iteration.
  pose proof (command_and_args line) as Hsplit.
  pose proof (split_words line) as Hwords.
  destruct (split (Some 1%nat) line) as [|command args]; [exact Hst|].
  rewrite Hsplit in Hwords. apply Forall_cons in Hwords as [_ Hargs].
  unfold unpack_command. rewrite (bind_ok _ _ st (command, args) st eq_refl).
  now apply dispatch_sound.
Qed.

Lemma main_loop_sound (inputs : list (datetime * str)) (st : state) :
  sound_book st -> sound_book (main_loop save_data zero_pad inputs st).2.
Proof.
  revert st. induction inputs as [|[today line] inputs IH]; intros st Hst;
    [exact Hst|].
  cbn [main_loop]. unfold bind.
  pose proof (main_iteration_sound today line st Hst) as Hit.
  destruct (main_iteration save_data zero_pad today line st) as [[[]|e] st'];
    cbn [snd] in *; [now apply IH | exact Hit | exact Hit].
Qed.

End Session.

Lemma sound_book_empty : sound_book empty_state.
Proof.
  split; [apply consistent_empty | split; [apply name_keyed_empty|]].
  constructor.
Qed.

(** X25. Whatever lines a session reads, from the empty book, the book
    stays sound, also when the session ends with an exception: every
    stored phone and birthday is valid, every entry is filed under the name
    of its record, and every name is one word, not empty and without
    whitespace.  ([save_data] is taken to write the file without changing
    the book.) *)
Theorem session_keeps_the_book_sound (save_data : M unit) (zero_pad : bool)
  (inputs : list (datetime * str)) :
  (forall st, same_book st (save_data st).2) ->
  consistent (main save_data zero_pad inputs empty_state).2
  /\ name_keyed (main save_data zero_pad inputs empty_state).2
  /\ names_are_words (main save_data zero_pad inputs empty_state).2.
Proof.
  intros Hsave. unfold main. unfold bind at 1. cbn [print].
  apply (main_loop_sound save_data zero_pad Hsave).
  apply sound_book_same with empty_state; [split; reflexivity|].
  apply sound_book_empty.
Qed.






(** * Instances of the further properties *)

(** X3 on Ann's record: the phone is replaced. *)
Lemma edit_phone_then_find_witness :
  exists edited,
    edit_phone (u "1234567890") (u "0987654321") (ann_record march_4_2000)
      = (Ok tt, edited)
    /\ find_phone (u "0987654321") edited = (Ok (u "0987654321"), edited)
    /\ (u "1234567890" <> u "0987654321" ->
        find_phone (u "1234567890") edited
        = (Ok (u "Phone not found."), edited)).
Proof.
  apply (edit_phone_then_find (u "1234567890") (u "0987654321")
           (ann_record march_4_2000)).
  split; [reflexivity | repeat constructor].
Defined.

(** X4 on the empty book: [add Bob 0987654321]. *)
Lemma add_contact_valid_phone_witness :
  Handlers.add_contact [u "Bob"; u "0987654321"] empty_state
  = (Ok tt, mkstate [mkRecord (mkName (u "Bob")) None
                       [mkPhone (u "0987654321")]]
              [(u "Bob", 0%nat)] [u "Contact added."]).
Proof.
  refine (proj1 (add_contact_valid_phone empty_state (u "Bob")
                   (u "0987654321") [] _) eq_refl).
  split; [reflexivity | repeat constructor].
Defined.

(** X5 on Ann's book: [add Ann 12345]. *)
Lemma add_contact_invalid_phone_known_name_witness :
  Handlers.add_contact [u "Ann"; u "12345"] ann_early_march
  = (Ok tt, mkstate (heap ann_early_march) (data ann_early_march)
              (stdout ann_early_march
                 ++ [u "Error: Phone number must be 10 digits."])).
Proof.
  apply (add_contact_invalid_phone_known_name ann_early_march (u "Ann")
           (u "12345") [] 0%nat (ann_record march_4_2000)).
  - intros [Hlen _]. vm_compute in Hlen. discriminate Hlen.
  - reflexivity.
  - reflexivity.
Defined.

(** X12 on Ann's book on 1 March 2023. *)
Lemma commands_return_witness :
  returns (Handlers.add_contact [u "Ann"]) ann_early_march
  /\ returns (Handlers.change_phone [u "Ann"]) ann_early_march
  /\ returns (Handlers.show_phone_numbers [u "Ann"]) ann_early_march
  /\ returns (Handlers.show_all_contacts false) ann_early_march
  /\ returns (Handlers.add_birthday [u "Ann"]) ann_early_march
  /\ returns (Handlers.show_birthday false [u "Ann"]) ann_early_march
  /\ (is_ok (plus_days march_1_2023 7) = true ->
      returns (Handlers.upcoming_birthdays march_1_2023) ann_early_march)
  /\ (is_ok (plus_days march_1_2023 7) = false ->
      exists msg,
        Handlers.upcoming_birthdays march_1_2023 ann_early_march
        = (Raise (OverflowError msg), ann_early_march)).
Proof.
  apply (commands_return false ann_early_march [u "Ann"] march_1_2023).
  apply (run_ops_keeps false ann_ops empty_state consistent_empty).
Defined.

(** X14 on Ann's book on 1 March 2023. *)
Lemma query_returns_window_witness :
  (get_upcoming_birthdays march_1_2023 ann_early_march).2 = ann_early_march
  /\ (is_ok (get_upcoming_birthdays march_1_2023 ann_early_march).1 = true
      <-> Forall (projectable march_1_2023) (values ann_early_march))
  /\ (forall upcoming,
        (get_upcoming_birthdays march_1_2023 ann_early_march).1 = Ok upcoming ->
        upcoming
        = names_in_window march_1_2023 march_8_2023 (values ann_early_march)).
Proof.
  apply (query_returns_window ann_early_march march_1_2023 march_8_2023).
  reflexivity.
Defined.

(** X15 on the book with a 29 February, on 1 March 2023. *)
Lemma query_fails_only_for_leap_days_witness :
  is_ok (get_upcoming_birthdays march_1_2023 ann_leap_day).1 = false
  <-> exists nm r yb,
        stored ann_leap_day nm r
        /\ birthday r = Some (mkBirthday (mkdatetime yb 2 29 0 0 0 0))
        /\ (is_leap (year march_1_2023) = false
            \/ dt_lt (mkdatetime (year march_1_2023) 2 29 0 0 0 0)
                 march_1_2023 = true).
Proof.
  apply (query_fails_only_for_leap_days ann_leap_day march_1_2023
           march_8_2023).
  - apply (run_ops_keeps false
             [CmdAdd [u "Ann"; u "1234567890"];
              CmdAddBirthday [u "Ann"; u "29.02.2000"]]
             empty_state consistent_empty).
  - cbn. lia.
  - reflexivity.
Defined.

(** X16 on Ann's book on 1 March 2023. *)
Lemma query_selects_names_witness :
  [u "Ann"] `sublist_of` (data (run_ops false ann_ops empty_state)).*1
  /\ NoDup [u "Ann"]
  /\ (forall nm, nm ∈ [u "Ann"] ->
        exists r b, stored (run_ops false ann_ops empty_state) nm r
                    /\ birthday r = Some b).
Proof.
  apply (query_selects_names false ann_ops march_1_2023 [u "Ann"]).
  vm_compute. reflexivity.
Defined.

(** X17: Ann's birthday is three days after 1 March 2023. *)
Lemma birthday_days_ahead_reported_witness :
  u "Ann" ∈ [u "Ann"] <-> (3 <= 7)%nat.
Proof.
  apply (birthday_days_ahead_reported false ann_ops march_1_2023
           march_8_2023 [u "Ann"] (u "Ann") (ann_record march_4_2000)
           (mkBirthday march_4_2000) 3 2023).
  - reflexivity.
  - reflexivity.
  - vm_compute. reflexivity.
  - exists 0%nat. split; reflexivity.
  - reflexivity.
  - lia.
  - reflexivity.
Defined.

(** X18: on 4 March 2023 at 10:30 Ann's birthday is no longer reported. *)
Lemma birthday_today_reported_at_midnight_witness :
  u "Ann" ∈ [] <-> (10 = 0 /\ 30 = 0 /\ 0 = 0 /\ 0 = 0).
Proof.
  apply (birthday_today_reported_at_midnight false ann_ops
           (mkdatetime 2023 3 4 10 30 0 0) (mkdatetime 2023 3 11 10 30 0 0)
           [] (u "Ann") (ann_record march_4_2000) (mkBirthday march_4_2000)).
  - reflexivity.
  - reflexivity.
  - vm_compute. reflexivity.
  - exists 0%nat. split; reflexivity.
  - reflexivity.
  - reflexivity.
  - reflexivity.
Defined.

(** X20: commands about Bob leave Ann's record as it is. *)
Lemma commands_touch_one_contact_witness :
  (stored (run_ops false ann_ops empty_state) (u "Ann")
     (ann_record march_4_2000)
   <-> stored (Handlers.add_contact [u "Bob"; u "0987654321"]
                 (run_ops false ann_ops empty_state)).2 (u "Ann")
         (ann_record march_4_2000))
  /\ (stored (run_ops false ann_ops empty_state) (u "Ann")
        (ann_record march_4_2000)
      <-> stored (Handlers.change_phone [u "Bob"; u "0987654321"]
                    (run_ops false ann_ops empty_state)).2 (u "Ann")
            (ann_record march_4_2000))
  /\ (stored (run_ops false ann_ops empty_state) (u "Ann")
        (ann_record march_4_2000)
      <-> stored (Handlers.add_birthday [u "Bob"; u "0987654321"]
                    (run_ops false ann_ops empty_state)).2 (u "Ann")
            (ann_record march_4_2000)).
Proof.
  apply (commands_touch_one_contact false ann_ops (u "Bob")
           [u "0987654321"] (u "Ann") (ann_record march_4_2000)).
  intros H. vm_compute in H. discriminate H.
Defined.

(** X21 on [29.02.2023], which has the form and names no date. *)
Lemma Birthday_accepts_existing_dates_only_witness :
  (valid_date (four_digits 50 48 50 51) (two_digits 48 50) (two_digits 50 57)
     = true ->
   new_Birthday (dmY_text 50 57 48 50 50 48 50 51)
   = Ok (mkBirthday
           (mkdatetime (four_digits 50 48 50 51) (two_digits 48 50)
              (two_digits 50 57) 0 0 0 0)))
  /\ (valid_date (four_digits 50 48 50 51) (two_digits 48 50)
        (two_digits 50 57) = false ->
      new_Birthday (dmY_text 50 57 48 50 50 48 50 51) = Raise birthday_error).
Proof.
  apply (Birthday_accepts_existing_dates_only 50 57 48 50 50 48 50 51).
  repeat constructor.
Defined.

(** X22 on 29 February 2024, printed without padding. *)
Lemma printed_birthday_parses_back_witness :
  new_Birthday (strftime false (mkdatetime 2024 2 29 0 0 0 0))
  = Ok (mkBirthday (mkdatetime 2024 2 29 0 0 0 0)).
Proof.
  apply (printed_birthday_parses_back false (mkdatetime 2024 2 29 0 0 0 0)).
  - repeat split; reflexivity.
  - right. cbn. lia.
Defined.

(** X24: a line of two blanks after [add Ann 1234567890]. *)
Lemma blank_line_ends_session_witness :
  main_loop (ret tt) false
    ([(march_1_2023, u "add Ann 1234567890")]
       ++ (march_1_2023, u "  ") :: [(march_1_2023, u "all")])
    empty_state
  = (Raise (ValueError
              (u "not enough values to unpack (expected at least 1, got 0)")),
     ann_added).
Proof.
  apply (blank_line_ends_session (ret tt) false
           [(march_1_2023, u "add Ann 1234567890")] [(march_1_2023, u "all")]
           march_1_2023 (u "  ") empty_state ann_added).
  - repeat constructor.
  - vm_compute. reflexivity.
Defined.

(** X25 on a session of five lines. *)
Lemma session_keeps_the_book_sound_witness :
  consistent (main (ret tt) false ann_session empty_state).2
  /\ name_keyed (main (ret tt) false ann_session empty_state).2
  /\ names_are_words (main (ret tt) false ann_session empty_state).2.
Proof.
  apply (session_keeps_the_book_sound (ret tt) false ann_session).
  intros st. split; reflexivity.
Defined.


